(** * ltrace tracing core: stopping coordinator and PPC64 PLT resolution

    A shallow embedding of [sysdeps/freebsd/trace.c] and
    [sysdeps/linux-gnu/ppc/plt.c].

    Representation choices, used throughout:
    - a [struct process *] is the pid of a process of the directory
      ([w_procs]); dereferencing a pointer to a process that is not in the
      directory halts with [Crash];
    - a [struct breakpoint *] is the address of a breakpoint in the
      dictionary of the leader; a [struct library_symbol] is stored inline
      in its breakpoint;
    - a [struct pid_task *] is an index into the rows of a [pid_set],
      [None] being [NULL];
    - [GElf_Addr] and [size_t] are 64-bit, as [Z] with [wrap64];
    - the tracer's own side effects (ptrace requests, signals, messages,
      calls to collaborators outside these files) are appended to [w_log];
    - [exit(1)], [abort()]/[assert] and invalid pointers end a computation
      with [Halt]. *)

From stdpp Require Import gmap list strings.
From Stdlib Require Import ZArith Lia.

Local Open Scope string_scope.
Local Open Scope list_scope.
Local Open Scope Z_scope.

(** ** Machine integers *)

Definition wrap64 (z : Z) : Z := z mod 2 ^ 64.

(** ** Enumerations *)

Inductive callback_status := CBS_STOP | CBS_CONT | CBS_FAIL.

Inductive ecb_status := ECB_CONT | ECB_YIELD.

Inductive process_status :=
  PS_INVALID | PS_STOP | PS_TRACING_STOP | PS_SLEEPING | PS_ZOMBIE | PS_OTHER.

Inductive process_state := STATE_ATTACHED | STATE_BEING_CREATED | STATE_IGNORED.

(** Modelled from the spec: the event kinds of [events.h] (section 3,
    "Event"). *)
Inductive event_type :=
  | EVENT_NONE | EVENT_SIGNAL | EVENT_EXIT | EVENT_EXIT_SIGNAL
  | EVENT_SYSCALL | EVENT_SYSRET | EVENT_CLONE | EVENT_VFORK
  | EVENT_EXEC | EVENT_BREAKPOINT | EVENT_NEW.

Inductive plt_status := plt_fail | plt_ok | plt_default.

Inductive ppc64_plt_type := PPC64PLT_STUB | PPC64PLT_UNRESOLVED | PPC64PLT_RESOLVED.

Inductive toplt := LS_TOPLT_NONE | LS_TOPLT_EXEC | LS_TOPLT_POINT.

Inductive sw_singlestep_status := SWS_FAIL | SWS_OK | SWS_HW.

Inductive psh_state :=
  PSH_STOPPING | PSH_SINGLESTEP | PSH_SINKING | PSH_UGLY_WORKAROUND.

Inductive ptrace_request :=
  | PT_SYSCALL | PT_CONTINUE | PT_STEP | PT_DETACH
  | PT_GETNUMLWPS | PT_GETLWPLIST | PT_SUSPEND | PT_RESUME
  | PTRACE_PEEKTEXT | PTRACE_POKETEXT.

(** The [on_event] member of [struct event_handler]: the code only ever
    compares it against the three handlers of trace.c. *)
Inductive on_event_fn :=
  | process_stopping_on_event_fn
  | ltrace_exiting_on_event_fn
  | process_vfork_on_event_fn.

(** The [on_all_stopped] callbacks of trace.c. *)
Inductive all_stopped_cb :=
  | cb_ptrace_disable_and_singlestep
  | cb_ptrace_disable_and_continue.

(** The [keep_stepping_p] / [ugly_workaround_p] predicates: [no] of
    trace.c, [keep_stepping_p] of plt.c, or a predicate supplied by a
    caller outside these files, taken to answer [r] without side effect. *)
Inductive predicate_cb :=
  | cb_no
  | cb_keep_stepping_p
  | cb_extern (r : callback_status).

(** The [on_hit] member of [struct bp_callbacks]. *)
Inductive on_hit_cb :=
  | cb_sw_singlestep_bp_on_hit
  | cb_on_hit_extern.

(** The [on_continue] member of [struct bp_callbacks]. *)
Inductive on_continue_cb :=
  | cb_ppc64_plt_bp_continue
  | cb_on_continue_extern.

Global Instance callback_status_eq_dec : EqDecision callback_status.
Proof. solve_decision. Defined.
Global Instance process_status_eq_dec : EqDecision process_status.
Proof. solve_decision. Defined.
Global Instance process_state_eq_dec : EqDecision process_state.
Proof. solve_decision. Defined.
Global Instance event_type_eq_dec : EqDecision event_type.
Proof. solve_decision. Defined.
Global Instance ppc64_plt_type_eq_dec : EqDecision ppc64_plt_type.
Proof. solve_decision. Defined.
Global Instance toplt_eq_dec : EqDecision toplt.
Proof. solve_decision. Defined.
Global Instance psh_state_eq_dec : EqDecision psh_state.
Proof. solve_decision. Defined.
Global Instance on_event_fn_eq_dec : EqDecision on_event_fn.
Proof. solve_decision. Defined.
Global Instance ptrace_request_eq_dec : EqDecision ptrace_request.
Proof. solve_decision. Defined.

(** ** Constants of system headers *)

(** FreeBSD [<signal.h>]. *)
Definition SIGSTOP : Z := 17.

(** [<elf.h>]. *)
Definition EM_PPC : Z := 20.
Definition EM_PPC64 : Z := 21.

Definition PPC_PLT_STUB_SIZE : Z := 16.
Definition PPC64_PLT_STUB_SIZE : Z := 8.

(** ** Data model *)

Record library_symbol := mk_library_symbol {
  ls_name : string;
  ls_enter_addr : Z;
  ls_plt_type : toplt;
  arch_type : ppc64_plt_type;
  arch_plt_slot_addr : Z;
  arch_resolved_value : Z;
}.

Record breakpoint := mk_breakpoint {
  bp_addr : Z;
  bp_enabled : Z;
  bp_libsym : option library_symbol;
  bp_on_hit : option on_hit_cb;
  bp_on_continue : option on_continue_cb;
}.

Record process := mk_process {
  proc_pid : Z;
  proc_leader : Z;
  proc_parent : option Z;
  proc_state : process_state;
  proc_e_machine : Z;
  proc_event_handler : option on_event_fn;
  proc_breakpoints : gmap Z breakpoint;
}.

Record Event := mk_Event {
  ev_type : event_type;
  ev_proc : option Z;
  e_un : Z;
}.

Record pid_task := mk_pid_task {
  pid : Z;
  sigstopped : bool;
  got_event : bool;
  delivered : bool;
  vforked : bool;
  sysret : bool;
}.

Record pid_set := mk_pid_set {
  tasks : list pid_task;
  alloc : nat;
}.

(** Modelled from the spec: [struct process_stopping_handler] of
    [freebsd/trace.h], with the members trace.c and plt.c use.  The
    [super] part ([on_event], [destroy]) lives in the process record. *)
Record process_stopping_handler := mk_psh {
  task_enabling_breakpoint : option Z;
  breakpoint_being_enabled : option Z;
  on_all_stopped : all_stopped_cb;
  keep_stepping_p_cb : predicate_cb;
  ugly_workaround_p : predicate_cb;
  state : psh_state;
  exiting : bool;
  pids : pid_set;
  sws_bp_addrs : list Z;
}.

Record GElf_Rela := mk_rela {
  r_offset : Z;
  r_info : Z;
  r_addend : Z;
}.

(** Modelled from the spec: the members of [struct ltelf] that plt.c
    reads in the functions below (section 6, "To ELF front-end"). *)
Record ltelf := mk_ltelf {
  e_machine : Z;
  plt_addr : Z;
  plt_size : Z;
  arch_secure_plt : bool;
  arch_plt_stub_vma : Z;
  arch_stubs : list library_symbol;
}.

(** ** Side effects *)

Inductive effect :=
  | Ptrace (req : ptrace_request) (p : Z) (addr data : Z)
  | Kill (p : Z) (sig : Z)
  | Debug (fmt : string) (args : list Z)
  | Stderr (fmt : string) (args : list Z)
  | Call (fn : string) (args : list Z).

(** What the operating system answers, the build ([host_powerpc64]) and
    the command line ([opt_p], the pids given with -p); fixed for the
    duration of one call into the tracer. *)
Record os_env := mk_os_env {
  os_status : Z -> process_status;
  os_kill_fails : Z -> bool;
  os_numlwps : Z -> Z;
  os_lwplist : Z -> option (list Z);
  os_lwp_fails : Z -> bool;
  os_step_fails : Z -> bool;
  os_poke_fails : Z -> Z -> bool;
  os_host_powerpc64 : bool;
  os_opt_p : list Z;
}.

Record world := mk_world {
  w_procs : list process;
  w_queue : list Event;
  w_curthread_tid : Z;
  w_curthread_onstep : bool;
  w_mem : gmap (Z * Z) Z;
  w_ip : gmap Z Z;
  w_alloc : list bool;
  w_env : os_env;
  w_log : list effect;
}.

Record hstate := mk_hstate {
  self : process_stopping_handler;
  hw : world;
}.

(** *** Field updates *)

Definition set_procs (f : list process -> list process) (w : world) : world :=
  mk_world (f (w_procs w)) (w_queue w) (w_curthread_tid w) (w_curthread_onstep w)
           (w_mem w) (w_ip w) (w_alloc w) (w_env w) (w_log w).

Definition set_queue (f : list Event -> list Event) (w : world) : world :=
  mk_world (w_procs w) (f (w_queue w)) (w_curthread_tid w) (w_curthread_onstep w)
           (w_mem w) (w_ip w) (w_alloc w) (w_env w) (w_log w).

Definition set_onstep (b : bool) (w : world) : world :=
  mk_world (w_procs w) (w_queue w) (w_curthread_tid w) b
           (w_mem w) (w_ip w) (w_alloc w) (w_env w) (w_log w).

Definition set_mem (f : gmap (Z * Z) Z -> gmap (Z * Z) Z) (w : world) : world :=
  mk_world (w_procs w) (w_queue w) (w_curthread_tid w) (w_curthread_onstep w)
           (f (w_mem w)) (w_ip w) (w_alloc w) (w_env w) (w_log w).

Definition set_ip (f : gmap Z Z -> gmap Z Z) (w : world) : world :=
  mk_world (w_procs w) (w_queue w) (w_curthread_tid w) (w_curthread_onstep w)
           (w_mem w) (f (w_ip w)) (w_alloc w) (w_env w) (w_log w).

Definition set_alloc (f : list bool -> list bool) (w : world) : world :=
  mk_world (w_procs w) (w_queue w) (w_curthread_tid w) (w_curthread_onstep w)
           (w_mem w) (w_ip w) (f (w_alloc w)) (w_env w) (w_log w).

Definition set_log (f : list effect -> list effect) (w : world) : world :=
  mk_world (w_procs w) (w_queue w) (w_curthread_tid w) (w_curthread_onstep w)
           (w_mem w) (w_ip w) (w_alloc w) (w_env w) (f (w_log w)).

Definition set_self (f : process_stopping_handler -> process_stopping_handler)
    (s : hstate) : hstate :=
  mk_hstate (f (self s)) (hw s).

Definition set_hw (f : world -> world) (s : hstate) : hstate :=
  mk_hstate (self s) (f (hw s)).

Definition with_teb (v : option Z) (h : process_stopping_handler) :=
  mk_psh v (breakpoint_being_enabled h) (on_all_stopped h) (keep_stepping_p_cb h)
         (ugly_workaround_p h) (state h) (exiting h) (pids h) (sws_bp_addrs h).

Definition with_bbe (v : option Z) (h : process_stopping_handler) :=
  mk_psh (task_enabling_breakpoint h) v (on_all_stopped h) (keep_stepping_p_cb h)
         (ugly_workaround_p h) (state h) (exiting h) (pids h) (sws_bp_addrs h).

Definition with_state (v : psh_state) (h : process_stopping_handler) :=
  mk_psh (task_enabling_breakpoint h) (breakpoint_being_enabled h) (on_all_stopped h)
         (keep_stepping_p_cb h) (ugly_workaround_p h) v (exiting h) (pids h)
         (sws_bp_addrs h).

Definition with_pids (v : pid_set) (h : process_stopping_handler) :=
  mk_psh (task_enabling_breakpoint h) (breakpoint_being_enabled h) (on_all_stopped h)
         (keep_stepping_p_cb h) (ugly_workaround_p h) (state h) (exiting h) v
         (sws_bp_addrs h).

Definition with_sws (v : list Z) (h : process_stopping_handler) :=
  mk_psh (task_enabling_breakpoint h) (breakpoint_being_enabled h) (on_all_stopped h)
         (keep_stepping_p_cb h) (ugly_workaround_p h) (state h) (exiting h) (pids h) v.

Definition with_tasks (f : list pid_task -> list pid_task) (ps : pid_set) : pid_set :=
  mk_pid_set (f (tasks ps)) (alloc ps).

Definition with_delivered (b : bool) (t : pid_task) : pid_task :=
  mk_pid_task (pid t) (sigstopped t) (got_event t) b (vforked t) (sysret t).

Definition with_got_event (b : bool) (t : pid_task) : pid_task :=
  mk_pid_task (pid t) (sigstopped t) b (delivered t) (vforked t) (sysret t).

Definition with_sigstopped (b : bool) (t : pid_task) : pid_task :=
  mk_pid_task (pid t) b (got_event t) (delivered t) (vforked t) (sysret t).

Definition with_vforked (b : bool) (t : pid_task) : pid_task :=
  mk_pid_task (pid t) (sigstopped t) (got_event t) (delivered t) b (sysret t).

Definition with_sysret (b : bool) (t : pid_task) : pid_task :=
  mk_pid_task (pid t) (sigstopped t) (got_event t) (delivered t) (vforked t) b.

Definition with_pid (v : Z) (t : pid_task) : pid_task :=
  mk_pid_task v (sigstopped t) (got_event t) (delivered t) (vforked t) (sysret t).

Definition with_event_handler (v : option on_event_fn) (p : process) : process :=
  mk_process (proc_pid p) (proc_leader p) (proc_parent p) (proc_state p)
             (proc_e_machine p) v (proc_breakpoints p).

Definition with_breakpoints (f : gmap Z breakpoint -> gmap Z breakpoint)
    (p : process) : process :=
  mk_process (proc_pid p) (proc_leader p) (proc_parent p) (proc_state p)
             (proc_e_machine p) (proc_event_handler p) (f (proc_breakpoints p)).

Definition with_bp_enabled (v : Z) (b : breakpoint) : breakpoint :=
  mk_breakpoint (bp_addr b) v (bp_libsym b) (bp_on_hit b) (bp_on_continue b).

Definition with_bp_libsym (v : option library_symbol) (b : breakpoint) : breakpoint :=
  mk_breakpoint (bp_addr b) (bp_enabled b) v (bp_on_hit b) (bp_on_continue b).

Definition with_bp_on_hit (v : option on_hit_cb) (b : breakpoint) : breakpoint :=
  mk_breakpoint (bp_addr b) (bp_enabled b) (bp_libsym b) v (bp_on_continue b).

Definition with_bp_on_continue (v : option on_continue_cb) (b : breakpoint) : breakpoint :=
  mk_breakpoint (bp_addr b) (bp_enabled b) (bp_libsym b) (bp_on_hit b) v.

Definition with_arch (t : ppc64_plt_type) (slot rv : Z) (l : library_symbol) :=
  mk_library_symbol (ls_name l) (ls_enter_addr l) (ls_plt_type l) t slot rv.

Definition with_stubs (v : list library_symbol) (lte : ltelf) : ltelf :=
  mk_ltelf (e_machine lte) (plt_addr lte) (plt_size lte) (arch_secure_plt lte)
           (arch_plt_stub_vma lte) v.

(** ** The computation monad: state, with early termination *)

Inductive halt := Exit1 | Abort | Crash.

Inductive outcome (S A : Type) :=
  | Ok (a : A) (s : S)
  | Halt (h : halt) (s : S).
Arguments Ok {S A} a s.
Arguments Halt {S A} h s.

Definition M (S A : Type) : Type := S -> outcome S A.

Definition ret {S A} (a : A) : M S A := fun s => Ok a s.

Definition bind {S A B} (m : M S A) (k : A -> M S B) : M S B :=
  fun s => match m s with
           | Ok a s' => k a s'
           | Halt h s' => Halt h s'
           end.

Definition stop {S A} (h : halt) : M S A := fun s => Halt h s.

Definition gets {S A} (f : S -> A) : M S A := fun s => Ok (f s) s.

Definition modify {S} (f : S -> S) : M S unit := fun s => Ok tt (f s).

Notation "x <- m ;; k" := (bind m (fun x => k))
  (at level 100, m at next level, right associativity).
Notation "m ;; k" := (bind m (fun _ => k))
  (at level 100, right associativity).

(** The state a computation ends in, whether it returned or halted. *)
Definition final {S A} (o : outcome S A) : S :=
  match o with Ok _ s => s | Halt _ s => s end.

(** Running a world computation inside a handler computation. *)
Definition liftW {A} (m : M world A) : M hstate A :=
  fun s => match m (hw s) with
           | Ok a w' => Ok a (mk_hstate (self s) w')
           | Halt h w' => Halt h (mk_hstate (self s) w')
           end.

Definition assert {S} (b : bool) : M S unit :=
  if b then ret tt else stop Abort.

Definition when {S} (b : bool) (m : M S unit) : M S unit :=
  if b then m else ret tt.

(** [for (i = 0; i < n; ++i) body] over the elements of a list. *)
Fixpoint for_each {S A} (l : list A) (body : A -> M S unit) : M S unit :=
  match l with
  | [] => ret tt
  | x :: rest => body x ;; for_each rest body
  end.

Definition emit (e : effect) : M world unit :=
  modify (set_log (fun l => l ++ [e])).

Definition debug (fmt : string) (args : list Z) : M world unit :=
  emit (Debug fmt args).

Definition perror (msg : string) : M world unit :=
  emit (Stderr msg []).

Definition fprintf_stderr (fmt : string) (args : list Z) : M world unit :=
  emit (Stderr fmt args).

(** [malloc]/[calloc]/[realloc]/[strdup]: the next answer of [w_alloc]
    tells whether the allocation succeeds; an exhausted list means it
    does. *)
Definition allocate : M world bool :=
  fun w => match w_alloc w with
           | [] => Ok true w
           | b :: rest => Ok b (set_alloc (fun _ => rest) w)
           end.

Definition deref {S A} (o : option A) : M S A :=
  match o with
  | Some a => ret a
  | None => stop Crash
  end.

Definition getself {A} (f : process_stopping_handler -> A) : M hstate A :=
  gets (fun s => f (self s)).

Definition setself (f : process_stopping_handler -> process_stopping_handler)
    : M hstate unit :=
  modify (set_self f).

(** ** Collaborators outside the two files

    Each definition of this section stands for a function of the
    repository that is not part of trace.c or plt.c. *)

(** Modelled from the spec: [pid2proc] of proc.c, the lookup in the
    directory of tracees (section 2, layer 2). *)
Definition pid2proc (p : Z) (w : world) : option process :=
  List.find (fun q => bool_decide (proc_pid q = p)) (w_procs w).

(** Reading a member other than [pid] through a [struct process *]. *)
Definition get_proc (p : Z) : M world process :=
  fun w => match pid2proc p w with
           | Some q => Ok q w
           | None => Halt Crash w
           end.

Definition update_proc (p : Z) (f : process -> process) : M world unit :=
  modify (set_procs (map (fun q => if bool_decide (proc_pid q = p) then f q else q))).

(** Modelled from the spec: [install_event_handler] and
    [destroy_event_handler] of proc.c; the handler slot of a process is
    single and replaced atomically (section 3, "Ownership"). *)
Definition install_event_handler (proc : Z) (h : on_event_fn) : M world unit :=
  _ <- get_proc proc ;;
  update_proc proc (with_event_handler (Some h)).

Definition destroy_event_handler (proc : Z) : M world unit :=
  _ <- get_proc proc ;;
  update_proc proc (with_event_handler None).

(** Modelled from the spec: [each_task] of proc.c walks every task of
    the thread group of [leader] (section 4.5, "Initialization") and
    answers the first task for which the callback does not say
    [CBS_CONT]. The tasks are taken in directory order, from the
    directory as it is when the walk starts. *)
Fixpoint each_task_in {D} (ts : list Z) (cb : Z -> D -> M world (callback_status * D))
    (d : D) : M world (option Z * D) :=
  match ts with
  | [] => ret (None, d)
  | t :: rest =>
      r <- cb t d ;;
      match fst r with
      | CBS_CONT => each_task_in rest cb (snd r)
      | _ => ret (Some t, snd r)
      end
  end.

Definition tasks_of (leader : Z) (w : world) : list Z :=
  map proc_pid (filter (fun q => proc_leader q = leader) (w_procs w)).

Definition each_task {D} (leader : Z) (cb : Z -> D -> M world (callback_status * D))
    (d : D) : M world (option Z * D) :=
  ts <- gets (tasks_of leader) ;;
  each_task_in ts cb d.

(** Modelled from the spec: [each_qd_event] of events.c, the iterator
    of the event queue returning the first event for which the callback
    answers [ECB_YIELD] (section 4.2); [enque_event] appends to the
    FIFO. *)
Fixpoint each_qd_event_in (q : list Event) (cb : Event -> M world ecb_status)
    : M world (option Event) :=
  match q with
  | [] => ret None
  | e :: rest =>
      r <- cb e ;;
      match r with
      | ECB_YIELD => ret (Some e)
      | _ => each_qd_event_in rest cb
      end
  end.

Definition each_qd_event (cb : Event -> M world ecb_status) : M world (option Event) :=
  q <- gets w_queue ;;
  each_qd_event_in q cb.

Definition enque_event (e : Event) : M world unit :=
  modify (set_queue (fun q => q ++ [e])).

(** Modelled from the spec: the debug-interface primitive (section 4.1).
    Every request is logged; the answers come from the environment. *)
Definition ptrace (req : ptrace_request) (p addr data : Z) : M world unit :=
  emit (Ptrace req p addr data).

(** [PTRACE_PEEKTEXT]: [None] is the answer -1 with [errno] set. *)
Definition ptrace_peektext (p addr : Z) : M world (option Z) :=
  ptrace PTRACE_PEEKTEXT p addr 0 ;;
  gets (fun w => w_mem w !! (p, addr)).

(** [PTRACE_POKETEXT]: [false] is a negative answer. *)
Definition ptrace_poketext (p addr data : Z) : M world bool :=
  ptrace PTRACE_POKETEXT p addr data ;;
  fails <- gets (fun w => os_poke_fails (w_env w) p addr) ;;
  if fails : bool then ret false
  else modify (set_mem (insert (p, addr) data)) ;; ret true.

Definition process_status_of (p : Z) : M world process_status :=
  gets (fun w => os_status (w_env w) p).

(** [task_kill]: [true] when the signal was sent. *)
Definition task_kill (p sig : Z) : M world bool :=
  emit (Kill p sig) ;;
  fails <- gets (fun w => os_kill_fails (w_env w) p) ;;
  ret (negb fails).

(** Modelled from the spec: the architecture adapter's
    [get_instruction_pointer] / [set_instruction_pointer] (section 6). *)
Definition get_instruction_pointer (proc : Z) : M world Z :=
  gets (fun w => default 0 (w_ip w !! proc)).

Definition set_instruction_pointer (proc addr : Z) : M world unit :=
  modify (set_ip (insert proc addr)).

(** Modelled from the spec: the breakpoint subsystem of breakpoints.c
    (section 4.3). The dictionary is kept; patching of the tracee's
    instruction bytes is recorded in the log only. *)
Definition breakpoints_of (leader : Z) : M world (gmap Z breakpoint) :=
  q <- get_proc leader ;;
  ret (proc_breakpoints q).

Definition dict_find_entry (leader ip : Z) : M world (option breakpoint) :=
  d <- breakpoints_of leader ;;
  ret (d !! ip).

Definition address2bpstruct (leader ip : Z) : M world (option breakpoint) :=
  dict_find_entry leader ip.

(** Reading through a [struct breakpoint *] held for task [task]. *)
Definition deref_bp (task bp : Z) : M world breakpoint :=
  q <- get_proc task ;;
  d <- breakpoints_of (proc_leader q) ;;
  deref (d !! bp).

Definition update_bp (task bp : Z) (f : breakpoint -> breakpoint) : M world unit :=
  q <- get_proc task ;;
  update_proc (proc_leader q) (with_breakpoints (alter f bp)).

Definition insert_breakpoint (proc addr : Z) (libsym : option library_symbol)
    : M world unit :=
  emit (Call "insert_breakpoint" [proc; addr]) ;;
  q <- get_proc proc ;;
  d <- breakpoints_of (proc_leader q) ;;
  match d !! addr with
  | Some b =>
      update_proc (proc_leader q)
        (with_breakpoints (insert addr (with_bp_enabled (bp_enabled b + 1) b)))
  | None =>
      update_proc (proc_leader q)
        (with_breakpoints (insert addr (mk_breakpoint addr 1 libsym None None)))
  end.

Definition enable_breakpoint (proc bp : Z) : M world unit :=
  emit (Call "enable_breakpoint" [proc; bp]).

Definition disable_breakpoint (proc bp : Z) : M world unit :=
  emit (Call "disable_breakpoint" [proc; bp]).

Definition delete_breakpoint (proc addr : Z) : M world unit :=
  emit (Call "delete_breakpoint" [proc; addr]) ;;
  q <- get_proc proc ;;
  d <- breakpoints_of (proc_leader q) ;;
  match d !! addr with
  | Some b =>
      if bp_enabled b - 1 =? 0
      then update_proc (proc_leader q) (with_breakpoints (delete addr))
      else update_proc (proc_leader q)
             (with_breakpoints (insert addr (with_bp_enabled (bp_enabled b - 1) b)))
  | None => ret tt
  end.

Definition disable_all_breakpoints (leader : Z) : M world unit :=
  emit (Call "disable_all_breakpoints" [leader]).

Definition breakpoint_on_retract (bp proc : Z) : M world unit :=
  emit (Call "breakpoint_on_retract" [bp; proc]).

(** Modelled from the spec: [remove_process] of proc.c takes a task out
    of the directory (section 4.7, step 5). *)
Definition remove_process (proc : Z) : M world unit :=
  emit (Call "remove_process" [proc]) ;;
  modify (set_procs (filter (fun q => proc_pid q <> proc))).

(** Modelled from the spec: [library_symbol_init] of library.c fills
    in the address, the name and the PLT kind of a fresh symbol; the
    fields of [arch] are set by the caller. *)
Definition library_symbol_init (addr : Z) (name : string) (plt_type : toplt)
    : library_symbol :=
  mk_library_symbol name addr plt_type PPC64PLT_STUB 0 0.

(** Modelled from the spec: the capacity of [sws_bp_addrs]; "a fixed
    small bound" (section 9). *)
Definition SWS_SLOTS : nat := 2.

(** * sysdeps/linux-gnu/ppc/plt.c *)

Definition host_powerpc64 : M world bool :=
  gets (fun w => os_host_powerpc64 (w_env w)).

Definition arch_plt_sym_val {S} (lte : ltelf) (ndx : Z) (rela : GElf_Rela) : M S Z :=
  if bool_decide (e_machine lte = EM_PPC) && arch_secure_plt lte then
    assert (negb (arch_plt_stub_vma lte =? 0)) ;;
    ret (wrap64 (arch_plt_stub_vma lte + wrap64 (PPC_PLT_STUB_SIZE * ndx)))
  else if bool_decide (e_machine lte = EM_PPC) then
    ret (r_offset rela)
  else
    assert (negb (arch_plt_stub_vma lte =? 0)) ;;
    ret (wrap64 (arch_plt_stub_vma lte + wrap64 (PPC64_PLT_STUB_SIZE * ndx))).

(** [None] is the answer -1; [Some v] is 0 with [*valp = v]. *)
Definition read_plt_slot_value (proc addr : Z) : M world (option Z) :=
  h <- host_powerpc64 ;;
  assert h ;;
  l <- ptrace_peektext proc addr ;;
  match l with
  | None =>
      emit (Stderr "ptrace .plt slot value @%#lx" [addr]) ;;
      ret None
  | Some v => ret (Some (wrap64 v))
  end.

(** [false] is the answer -1. *)
Definition unresolve_plt_slot (proc addr value : Z) : M world bool :=
  ok <- ptrace_poketext proc addr value ;;
  if ok : bool then ret true
  else emit (Stderr "unresolve .plt slot" []) ;; ret false.

(** The loop that re-chains the stubs named [a_name] from
    [lte->arch.stubs] to [chain]; answers the remaining stubs and the
    chain. *)
Fixpoint rechain_stubs (a_name : string) (stubs chain : list library_symbol)
    : list library_symbol * list library_symbol :=
  match stubs with
  | [] => ([], chain)
  | sym :: rest =>
      if bool_decide (ls_name sym = a_name)
      then rechain_stubs a_name rest (sym :: chain)
      else (sym :: fst (rechain_stubs a_name rest chain),
            snd (rechain_stubs a_name rest chain))
  end.

(** The condition of the [assert] on the .plt slot address. *)
Definition plt_slot_addr_asserted (lte : ltelf) (plt_slot_addr : Z) : bool :=
  (plt_addr lte <=? plt_slot_addr)
  || (plt_slot_addr <? wrap64 (plt_addr lte + plt_size lte)).

(** Answers the status, the ELF descriptor (whose stub list the call may
    shorten) and [*ret] when it was written. *)
Definition arch_elf_add_plt_entry (proc : Z) (lte : ltelf) (a_name : string)
    (rela : GElf_Rela) (ndx : Z)
    : M world (plt_status * ltelf * option (list library_symbol)) :=
  if bool_decide (e_machine lte = EM_PPC) then ret (plt_default, lte, None)
  else
    let r := rechain_stubs a_name (arch_stubs lte) [] in
    let lte := with_stubs (fst r) lte in
    match snd r with
    | _ :: _ => ret (plt_ok, lte, Some (snd r))
    | [] =>
        plt_entry_addr <- arch_plt_sym_val lte ndx rela ;;
        let plt_slot_addr := r_offset rela in
        assert (plt_slot_addr_asserted lte plt_slot_addr) ;;
        v <- read_plt_slot_value proc plt_slot_addr ;;
        match v with
        | None => ret (plt_fail, lte, None)
        | Some plt_slot_value =>
            name <- allocate ;;
            libsym <- allocate ;;
            if negb name || negb libsym then
              emit (Stderr "allocation for .plt slot" []) ;;
              ret (plt_fail, lte, None)
            else
              let sym := library_symbol_init plt_entry_addr a_name LS_TOPLT_EXEC in
              if (plt_slot_value =? plt_entry_addr) || (plt_slot_value =? 0) then
                ret (plt_ok, lte,
                     Some [with_arch PPC64PLT_UNRESOLVED plt_slot_addr plt_entry_addr sym])
              else
                ok <- unresolve_plt_slot proc plt_slot_addr plt_entry_addr ;;
                if ok : bool then
                  ret (plt_ok, lte,
                       Some [with_arch PPC64PLT_RESOLVED plt_slot_addr plt_slot_value sym])
                else ret (plt_fail, lte, None)
        end
    end.

Definition keep_stepping_p : M hstate callback_status :=
  teb <- getself task_enabling_breakpoint ;;
  proc <- deref teb ;;
  bbe <- getself breakpoint_being_enabled ;;
  bp <- deref bbe ;;
  b <- liftW (deref_bp proc bp) ;;
  libsym <- deref (bp_libsym b) ;;
  v <- liftW (read_plt_slot_value proc (arch_plt_slot_addr libsym)) ;;
  match v with
  | None => ret CBS_FAIL
  | Some value =>
      if value =? arch_resolved_value libsym then ret CBS_CONT
      else
        ok <- liftW (unresolve_plt_slot proc (arch_plt_slot_addr libsym)
                       (arch_resolved_value libsym)) ;;
        if ok : bool then
          liftW (update_bp proc bp
                   (with_bp_libsym
                      (Some (with_arch PPC64PLT_RESOLVED (arch_plt_slot_addr libsym)
                               value libsym)))) ;;
          ret CBS_STOP
        else ret CBS_FAIL
  end.

(** * sysdeps/freebsd/trace.c *)

Definition untrace_pid (p : Z) : M world unit :=
  debug "untrace_pid: pid=%d" [p] ;;
  ptrace PT_DETACH p 1 0.

Definition event_for_pid (event : Event) (data : Z) : M world ecb_status :=
  match ev_proc event with
  | Some p => if bool_decide (p = data) then ret ECB_YIELD else ret ECB_CONT
  | None => ret ECB_CONT
  end.

Definition have_events_for (p : Z) : M world bool :=
  e <- each_qd_event (fun ev => event_for_pid ev p) ;;
  ret (match e with Some _ => true | None => false end).

Definition apply_threads (p : Z) (suspend : bool) : M world unit :=
  ptrace PT_GETNUMLWPS p 0 0 ;;
  threads <- gets (fun w => os_numlwps (w_env w) p) ;;
  if threads =? -1 then perror "PT_GETNUMLWPS" ;; stop Exit1
  else if threads =? 1 then ret tt
  else
    lwpids <- allocate ;;
    if negb lwpids then perror "malloc" ;; stop Exit1
    else
      ptrace PT_GETLWPLIST p 0 threads ;;
      l <- gets (fun w => os_lwplist (w_env w) p) ;;
      match l with
      | None => perror "PT_GETLWPLIST" ;; stop Exit1
      | Some ids =>
          for_each (take (Z.to_nat threads) ids) (fun t =>
            cur <- gets w_curthread_tid ;;
            if bool_decide (cur <> t) then
              ptrace (if suspend then PT_SUSPEND else PT_RESUME) t 0 0 ;;
              fails <- gets (fun w => os_lwp_fails (w_env w) t) ;;
              if fails : bool then perror "PT_SUSPEND/PT_RESUME" ;; stop Exit1
              else ret tt
            else ret tt) ;;
          modify (set_onstep suspend)
      end.

Definition suspend_threads (p : Z) : M world unit := apply_threads p true.

Definition resume_threads (p : Z) : M world unit := apply_threads p false.

Definition continue_process (p : Z) : M world unit :=
  debug "continue_process: pid=%d" [p] ;;
  onstep <- gets w_curthread_onstep ;;
  when onstep (resume_threads p) ;;
  queued <- have_events_for p ;;
  if negb queued then ptrace PT_SYSCALL p 1 0
  else debug "putting off the continue, events in que." [].

Definition get_task_info {S} (ps : pid_set) (p : Z) : M S (option nat) :=
  assert (negb (p =? 0)) ;;
  ret (fst <$> list_find (fun t => pid t = p) (tasks ps)).

Definition set_row (i : nat) (f : pid_task -> pid_task) (ps : pid_set) : pid_set :=
  with_tasks (alter f i) ps.

(** Answers the new row ([None] when [realloc] fails) and the set. *)
Definition add_task_info (ps : pid_set) (p : Z) : M world (option nat * pid_set) :=
  grown <- (if bool_decide (length (tasks ps) = alloc ps) then
              let ns := if (2 * alloc ps =? 0)%nat then 4%nat else (2 * alloc ps)%nat in
              n <- allocate ;;
              if n : bool then ret (Some (mk_pid_set (tasks ps) ns)) else ret None
            else ret (Some ps)) ;;
  match grown with
  | None => ret (None, ps)
  | Some ps' =>
      ret (Some (length (tasks ps')),
           with_tasks (fun l => l ++ [mk_pid_task p false false false false false]) ps')
  end.

(** Answers the status too, which the C code stores through [data]. *)
Definition task_stopped (task : Z) : M world (callback_status * process_status) :=
  st <- process_status_of task ;;
  match st with
  | PS_INVALID | PS_TRACING_STOP | PS_ZOMBIE => ret (CBS_CONT, st)
  | PS_SLEEPING | PS_STOP | PS_OTHER => ret (CBS_STOP, st)
  end.

Definition task_blocked (task : Z) (ps : pid_set) : M world (callback_status * pid_set) :=
  task_info <- get_task_info ps task ;;
  match task_info ≫= (fun i => tasks ps !! i) with
  | Some row =>
      if vforked row then ret (CBS_CONT, ps)
      else r <- task_stopped task ;; ret (fst r, ps)
  | None => r <- task_stopped task ;; ret (fst r, ps)
  end.

Definition task_vforked (task : Z) (data : unit) : M world (callback_status * unit) :=
  q <- get_proc task ;;
  if bool_decide (proc_event_handler q = Some process_vfork_on_event_fn)
  then ret (CBS_STOP, tt)
  else ret (CBS_CONT, tt).

Definition is_vfork_parent (task : Z) : M world bool :=
  q <- get_proc task ;;
  r <- each_task (proc_leader q) task_vforked tt ;;
  ret (match fst r with Some _ => true | None => false end).

(** The statements of [send_sigstop] that follow the lookup of the
    row [i] of the task. *)
Definition send_sigstop_row (task : Z) (q : process) (i : nat) (ps : pid_set)
    : M world (callback_status * pid_set) :=
  if bool_decide (proc_state q = STATE_BEING_CREATED) then ret (CBS_CONT, ps)
  else
    st <- task_stopped task ;;
    if bool_decide (fst st = CBS_CONT) then ret (CBS_CONT, ps)
    else
      row <- deref (tasks ps !! i) ;;
      if sigstopped row && negb (delivered row) then ret (CBS_CONT, ps)
      else
        let ps := if sigstopped row then set_row i (with_delivered false) ps else ps in
        vf <- (if bool_decide (snd st = PS_SLEEPING) then is_vfork_parent task
               else ret false) ;;
        if vf : bool then ret (CBS_CONT, set_row i (with_vforked true) ps)
        else
          sent <- task_kill task SIGSTOP ;;
          if sent : bool then
            debug "send SIGSTOP to %d" [task] ;;
            ret (CBS_CONT, set_row i (with_sigstopped true) ps)
          else
            fprintf_stderr "Warning: couldn't send SIGSTOP to %d\n" [task] ;;
            ret (CBS_CONT, ps).

Definition send_sigstop (task : Z) (ps : pid_set) : M world (callback_status * pid_set) :=
  q <- get_proc task ;;
  let leader := proc_leader q in
  found <- get_task_info ps task ;;
  r <- match found with
       | Some i => ret (Some i, ps)
       | None => add_task_info ps task
       end ;;
  match fst r with
  | None =>
      perror "send_sigstop: add_task_info" ;;
      destroy_event_handler leader ;;
      ret (CBS_STOP, snd r)
  | Some i => send_sigstop_row task q i (snd r)
  end.

Definition ugly_workaround (proc : Z) : M world unit :=
  ip <- get_instruction_pointer proc ;;
  q <- get_proc proc ;;
  sbp <- dict_find_entry (proc_leader q) ip ;;
  match sbp with
  | Some _ => enable_breakpoint proc ip
  | None => insert_breakpoint proc ip None
  end ;;
  ptrace PT_CONTINUE proc 1 0.

Definition no : M hstate callback_status := ret CBS_STOP.

Definition run_predicate (cb : predicate_cb) : M hstate callback_status :=
  match cb with
  | cb_no => no
  | cb_keep_stepping_p => keep_stepping_p
  | cb_extern r => ret r
  end.

(** The statements under the label [ugly_workaround:]. *)
Definition goto_ugly_workaround : M hstate unit :=
  setself (with_state PSH_UGLY_WORKAROUND) ;;
  teb <- getself task_enabling_breakpoint ;;
  t <- deref teb ;;
  liftW (ugly_workaround t).

Definition process_stopping_done (leader : Z) : M hstate unit :=
  teb <- getself task_enabling_breakpoint ;;
  t <- deref teb ;;
  liftW (debug "process stopping done %d" [t]) ;;
  ex <- getself exiting ;;
  (if negb ex then
     rows <- getself (fun h => tasks (pids h)) ;;
     liftW (for_each rows (fun r =>
       if negb (pid r =? 0) && (delivered r || sysret r)
       then continue_process (pid r)
       else ret tt)) ;;
     liftW (continue_process t)
   else ret tt) ;;
  if ex : bool then goto_ugly_workaround
  else
    r <- (uw <- getself ugly_workaround_p ;; run_predicate uw) ;;
    match r with
    | CBS_CONT => goto_ugly_workaround
    | CBS_FAIL | CBS_STOP => liftW (destroy_event_handler leader)
    end.

Definition undo_breakpoint (event : option Event) (data : Z) : M world ecb_status :=
  match event with
  | Some e =>
      p <- deref (ev_proc e) ;;
      q <- get_proc p ;;
      when (bool_decide (proc_leader q = data)
            && bool_decide (ev_type e = EVENT_BREAKPOINT))
           (set_instruction_pointer p (e_un e))
  | None => ret tt
  end ;;
  ret ECB_CONT.

Definition untrace_task (data : option Z) (task : Z) (_ : unit)
    : M world (callback_status * unit) :=
  when (bool_decide (Some task <> data)) (untrace_pid task) ;;
  ret (CBS_CONT, tt).

Definition remove_task (data : option Z) (task : Z) (_ : unit)
    : M world (callback_status * unit) :=
  when (bool_decide (Some task <> data)) (remove_process task) ;;
  ret (CBS_CONT, tt).

Definition retract_breakpoint_cb (proc bp : Z) : M world callback_status :=
  breakpoint_on_retract bp proc ;;
  ret CBS_CONT.

(** Modelled from the spec: [proc_each_breakpoint] of proc.c, here with
    a callback that always answers [CBS_CONT]: every breakpoint of the
    dictionary is visited (section 4.7, step 3). *)
Definition proc_each_breakpoint (leader : Z) (cb : Z -> Z -> M world callback_status)
    : M world unit :=
  d <- breakpoints_of leader ;;
  for_each (map fst (map_to_list d)) (fun a => cb leader a ;; ret tt).

(** The loop of [detach_process] over [opt_p]. *)
Fixpoint untrace_attached (leader : Z) (its : list Z) : M world unit :=
  match its with
  | [] => ret tt
  | it :: rest =>
      proc <- gets (pid2proc it) ;;
      match proc with
      | None => untrace_attached leader rest
      | Some q =>
          if bool_decide (proc_leader q = leader)
          then each_task leader (untrace_task None) tt ;; ret tt
          else untrace_attached leader rest
      end
  end.

Definition detach_process (leader : Z) : M world unit :=
  each_qd_event (fun e => undo_breakpoint (Some e) leader) ;;
  disable_all_breakpoints leader ;;
  proc_each_breakpoint leader retract_breakpoint_cb ;;
  opt_p <- gets (fun w => os_opt_p (w_env w)) ;;
  untrace_attached leader opt_p ;;
  each_task leader (remove_task (Some leader)) tt ;;
  destroy_event_handler leader ;;
  remove_task None leader tt ;;
  ret tt.

(** Answers [*eventp] as the call leaves it, and the set. The record of
    the "suspicious" message keeps the pid only: the two flags it
    prints are bit-fields of [struct pid_task], which is declared
    outside these files, and what [%d] shows for a flag that is set
    depends on their declared type. *)
Definition handle_stopping_event (task_info : option nat) (event : Event) (ps : pid_set)
    : M world (option Event * pid_set) :=
  match task_info with
  | None => ret (Some event, ps)
  | Some i =>
      let ps := set_row i (with_got_event true) ps in
      if bool_decide (ev_type event = EVENT_SIGNAL) && (e_un event =? SIGSTOP) then
        row <- deref (tasks ps !! i) ;;
        debug "SIGSTOP delivered to %d" [pid row] ;;
        if sigstopped row && negb (delivered row)
        then ret (None, set_row i (with_delivered true) ps)
        else
          fprintf_stderr "suspicious: %d got SIGSTOP, but sigstopped=%d and delivered=%d\n"
            [pid row] ;;
          ret (Some event, ps)
      else ret (Some event, ps)
  end.

Definition continue_for_sigstop_delivery (ps : pid_set) : M world unit :=
  for_each (tasks ps) (fun r =>
    if negb (pid r =? 0) && sigstopped r && negb (delivered r) && got_event r then
      debug "continue %d for SIGSTOP delivery" [pid r] ;;
      ptrace PT_SYSCALL (pid r) 1 0
    else ret tt).

Definition event_exit_p (event : option Event) : bool :=
  match event with
  | Some e => bool_decide (ev_type e = EVENT_EXIT)
              || bool_decide (ev_type e = EVENT_EXIT_SIGNAL)
  | None => false
  end.

Definition event_exit_or_none_p (event : option Event) : bool :=
  match event with
  | None => true
  | Some e => event_exit_p event || bool_decide (ev_type e = EVENT_NONE)
  end.

Definition await_sigstop_delivery (ps : pid_set) (task_info : option nat)
    (event : option Event) : M world bool :=
  match event, task_info ≫= (fun i => tasks ps !! i) with
  | Some _, Some row =>
      if negb (event_exit_or_none_p event) && sigstopped row then
        debug "continue %d for SIGSTOP delivery" [pid row] ;;
        ptrace PT_SYSCALL (pid row) 1 0 ;;
        ret false
      else
        ret (forallb (fun r => negb (negb (pid r =? 0) && sigstopped r && negb (delivered r)))
               (tasks ps))
  | _, _ =>
      ret (forallb (fun r => negb (negb (pid r =? 0) && sigstopped r && negb (delivered r)))
             (tasks ps))
  end.

(** The loop of [all_stops_accountable]. *)
Fixpoint all_stops_accountable_in (rows : list pid_task) : M world bool :=
  match rows with
  | [] => ret true
  | r :: rest =>
      if negb (pid r =? 0) && negb (got_event r) then
        queued <- have_events_for (pid r) ;;
        if queued : bool then all_stops_accountable_in rest else ret false
      else all_stops_accountable_in rest
  end.

Definition all_stops_accountable (ps : pid_set) : M world bool :=
  all_stops_accountable_in (tasks ps).

(** Without [ARCH_HAVE_SW_SINGLESTEP]. *)
Definition arch_sw_singlestep (proc : Z) (bp : option Z) : sw_singlestep_status :=
  SWS_HW.

Definition remove_sw_breakpoints (proc : Z) : M hstate unit :=
  q <- liftW (get_proc proc) ;;
  l <- liftW (get_proc (proc_leader q)) ;;
  assert (bool_decide (proc_event_handler l <> None)) ;;
  assert (bool_decide (proc_event_handler l = Some process_stopping_on_event_fn)) ;;
  ct <- getself (fun h => length (sws_bp_addrs h)) ;;
  for_each (seq 0 ct) (fun i =>
    a <- getself (fun h => default 0 (sws_bp_addrs h !! i)) ;;
    if negb (a =? 0) then
      liftW (delete_breakpoint proc a) ;;
      setself (fun h => with_sws (<[i := 0]> (sws_bp_addrs h)) h)
    else ret tt).

Definition sw_singlestep_bp_on_hit (bp : breakpoint) (proc : Z) : M hstate unit :=
  remove_sw_breakpoints proc.

(** Modelled from the spec: [breakpoint_on_hit] of breakpoints.c
    invokes the [on_hit] callback of the breakpoint when one is
    registered (section 4.3, "Callback protocol"). *)
Definition breakpoint_on_hit (bp : breakpoint) (proc : Z) : M hstate unit :=
  match bp_on_hit bp with
  | Some cb_sw_singlestep_bp_on_hit => sw_singlestep_bp_on_hit bp proc
  | Some cb_on_hit_extern => liftW (emit (Call "on_hit" [bp_addr bp; proc]))
  | None => ret tt
  end.

(** [true] is the answer 0, [false] the answer -1. *)
Definition singlestep : M hstate bool :=
  teb <- getself task_enabling_breakpoint ;;
  bbe <- getself breakpoint_being_enabled ;;
  proc <- deref teb ;;
  match arch_sw_singlestep proc bbe with
  | SWS_HW =>
      liftW (suspend_threads proc) ;;
      liftW (debug "PT_STEP" []) ;;
      liftW (ptrace PT_STEP proc 0 0) ;;
      fails <- liftW (gets (fun w => os_step_fails (w_env w) proc)) ;;
      if fails : bool then liftW (perror "PT_STEP") ;; ret false
      else ret true
  | SWS_OK => ret true
  | SWS_FAIL => ret false
  end.

(** Answers [*eventp] as the call leaves it. *)
Definition post_singlestep (event : option Event) : M hstate (option Event) :=
  ps <- getself pids ;;
  liftW (continue_for_sigstop_delivery ps) ;;
  let event := match event with
               | Some e => if bool_decide (ev_type e = EVENT_BREAKPOINT)
                           then None else Some e
               | None => None
               end in
  teb <- getself task_enabling_breakpoint ;;
  proc <- deref teb ;;
  remove_sw_breakpoints proc ;;
  setself (with_bbe None) ;;
  ret event.

Definition singlestep_error : M hstate unit :=
  teb <- getself task_enabling_breakpoint ;;
  bbe <- getself breakpoint_being_enabled ;;
  t <- deref teb ;;
  sbp <- deref bbe ;;
  b <- liftW (deref_bp t sbp) ;;
  ip <- liftW (get_instruction_pointer t) ;;
  liftW (fprintf_stderr "%d couldn't continue when handling %s (%p) at %p\n"
           [t; bp_addr b; ip]) ;;
  q <- liftW (get_proc t) ;;
  liftW (delete_breakpoint (proc_leader q) (bp_addr b)).

Definition pt_continue : M hstate unit :=
  teb <- getself task_enabling_breakpoint ;;
  liftW (debug "PT_CONTINUE" []) ;;
  t <- deref teb ;;
  liftW (ptrace PT_CONTINUE t 1 0).

Definition pt_singlestep : M hstate unit :=
  ok <- singlestep ;;
  if ok : bool then ret tt else singlestep_error.

Definition disable_and (do_this : M hstate unit) : M hstate unit :=
  teb <- getself task_enabling_breakpoint ;;
  t <- deref teb ;;
  liftW (debug "all stopped, now singlestep/cont %d" [t]) ;;
  bbe <- getself breakpoint_being_enabled ;;
  sbp <- deref bbe ;;
  b <- liftW (deref_bp t sbp) ;;
  when (negb (bp_enabled b =? 0)) (liftW (disable_breakpoint t sbp)) ;;
  do_this ;;
  setself (with_state PSH_SINGLESTEP).

Definition ptrace_disable_and_singlestep : M hstate unit :=
  disable_and pt_singlestep.

Definition ptrace_disable_and_continue : M hstate unit :=
  disable_and pt_continue.

Definition run_all_stopped (cb : all_stopped_cb) : M hstate unit :=
  match cb with
  | cb_ptrace_disable_and_singlestep => ptrace_disable_and_singlestep
  | cb_ptrace_disable_and_continue => ptrace_disable_and_continue
  end.

(** [case PSH_SINKING:] of the switch of [process_stopping_on_event]. *)
Definition case_PSH_SINKING (leader : Z) (task_info : option nat) (event : option Event)
    : M hstate unit :=
  ps <- getself pids ;;
  clear <- liftW (await_sigstop_delivery ps task_info event) ;;
  if clear : bool then process_stopping_done leader else ret tt.

(** The label [psh_sinking:], which falls through to [PSH_SINKING]. *)
Definition goto_psh_sinking (leader : Z) (task_info : option nat) (event : option Event)
    : M hstate unit :=
  setself (with_state PSH_SINKING) ;;
  case_PSH_SINKING leader task_info event.

(** The label [do_singlestep:]; answers [event] as the switch leaves it. *)
Definition goto_do_singlestep (leader : Z) (task_info : option nat)
    (event : option Event) : M hstate (option Event) :=
  ok <- singlestep ;;
  if ok : bool then ret event
  else
    singlestep_error ;;
    event <- post_singlestep event ;;
    goto_psh_sinking leader task_info event ;;
    ret event.

Definition case_PSH_STOPPING (leader : Z) : M hstate unit :=
  ps <- getself pids ;;
  r <- liftW (each_task leader task_blocked ps) ;;
  match fst r with
  | None => cb <- getself on_all_stopped ;; run_all_stopped cb
  | Some _ => ret tt
  end.

Definition case_PSH_SINGLESTEP (leader task : Z) (teb : option Z)
    (task_info : option nat) (event : option Event) : M hstate (option Event) :=
  match event with
  | Some e =>
      if bool_decide (Some task = teb) then
        (if bool_decide (ev_type e = EVENT_BREAKPOINT) then
           ip <- liftW (get_instruction_pointer task) ;;
           other <- liftW (address2bpstruct leader ip) ;;
           match other with
           | Some b => breakpoint_on_hit b task
           | None => ret tt
           end
         else ret tt) ;;
        if bool_decide (ev_type e = EVENT_SIGNAL) then
          goto_do_singlestep leader task_info event
        else
          r <- (ks <- getself keep_stepping_p_cb ;; run_predicate ks) ;;
          match r with
          | CBS_CONT =>
              goto_do_singlestep leader task_info
                (if bool_decide (ev_type e = EVENT_BREAKPOINT) then None else event)
          | CBS_FAIL | CBS_STOP =>
              bbe <- getself breakpoint_being_enabled ;;
              sbp <- deref bbe ;;
              b <- liftW (deref_bp task sbp) ;;
              when (negb (bp_enabled b =? 0)) (liftW (enable_breakpoint task sbp)) ;;
              event <- post_singlestep event ;;
              goto_psh_sinking leader task_info event ;;
              ret event
          end
      else ret event
  | None => ret event
  end.

Definition case_PSH_UGLY_WORKAROUND (leader task : Z) (teb : option Z)
    (event : option Event) : M hstate (option Event) :=
  match event with
  | None => ret event
  | Some e =>
      (if bool_decide (ev_type e = EVENT_BREAKPOINT) then
         liftW (undo_breakpoint event leader) ;;
         when (bool_decide (Some task = teb)) (setself (with_teb None))
       else ret tt) ;;
      teb' <- getself task_enabling_breakpoint ;;
      match teb' with
      | Some _ => ret event
      | None =>
          ps <- getself pids ;;
          acc <- liftW (all_stops_accountable ps) ;;
          if acc : bool then
            liftW (undo_breakpoint event leader) ;;
            liftW (detach_process leader) ;;
            ret None
          else ret event
      end
  end.

(** The [switch (state)] of [process_stopping_on_event]; answers
    [event] as the switch leaves it. *)
Definition psh_switch (state : psh_state) (leader task : Z) (teb : option Z)
    (task_info : option nat) (event : option Event) : M hstate (option Event) :=
  match state with
  | PSH_STOPPING => case_PSH_STOPPING leader ;; ret event
  | PSH_SINGLESTEP => case_PSH_SINGLESTEP leader task teb task_info event
  | PSH_SINKING => case_PSH_SINKING leader task_info event ;; ret event
  | PSH_UGLY_WORKAROUND => case_PSH_UGLY_WORKAROUND leader task teb event
  end.

(** The end of [process_stopping_on_event]: queue the event or hand it
    back. *)
Definition queue_or_return (event : option Event) (event_to_queue : bool)
    : M hstate (option Event) :=
  match event with
  | Some e =>
      if event_to_queue then liftW (enque_event e) ;; ret None
      else ret event
  | None => ret event
  end.

(** The beginning of [process_stopping_on_event], up to the switch:
    answers [task_info], [event] and [event_to_queue].  The first debug
    record keeps the pid only: the numbers of the event type and of the
    state come from enums declared outside these files. *)
Definition psh_prelude (task : Z) (event : Event)
    : M hstate (option nat * option Event * bool) :=
  liftW (debug "process_stopping_on_event: pid %d" [task]) ;;
  ps <- getself pids ;;
  task_info <- get_task_info ps task ;;
  when (bool_decide (task_info = None)) (liftW (fprintf_stderr "new task??? %d\n" [task])) ;;
  r <- liftW (handle_stopping_event task_info event ps) ;;
  setself (with_pids (snd r)) ;;
  let event := fst r in
  let event_to_queue := negb (event_exit_or_none_p event) in
  when (event_exit_p event)
       (match task_info with
        | Some i => setself (fun h => with_pids (set_row i (with_pid 0) (pids h)) h)
        | None => ret tt
        end) ;;
  event_to_queue <-
    match event with
    | Some e =>
        if bool_decide (ev_type e = EVENT_SYSRET) then
          liftW (debug "%d LT_EV_SYSRET" [task]) ;;
          i <- deref task_info ;;
          setself (fun h => with_pids (set_row i (with_sysret true) (pids h)) h) ;;
          ret false
        else ret event_to_queue
    | None => ret event_to_queue
    end ;;
  ret (task_info, event, event_to_queue).

(** The local [state] is read here before the prelude; the source reads
    it after [handle_stopping_event], which does not write it. *)
Definition process_stopping_on_event (event : Event) : M hstate (option Event) :=
  task <- deref (ev_proc event) ;;
  tp <- liftW (get_proc task) ;;
  let leader := proc_leader tp in
  teb <- getself task_enabling_breakpoint ;;
  state <- getself state ;;
  pre <- psh_prelude task event ;;
  event <- psh_switch state leader task teb (fst (fst pre)) (snd (fst pre)) ;;
  queue_or_return event (snd pre).

(** Runs a handler computation on the handler object [h]; answers the
    object as the computation leaves it. *)
Definition with_handler {A} (h : process_stopping_handler) (m : M hstate A)
    : M world (A * process_stopping_handler) :=
  fun w => match m (mk_hstate h w) with
           | Ok a s => Ok (a, self s) (hw s)
           | Halt r s => Halt r (hw s)
           end.

(** Answers the C result and the handler object when one was set up;
    whether it is still installed shows in the leader's
    [proc_event_handler]. *)
Definition process_install_stopping_handler (proc : Z) (sbp : option Z)
    (as_ : option all_stopped_cb) (ks uw : option predicate_cb)
    : M world (Z * option process_stopping_handler) :=
  debug "process_install_stopping_handler: pid=%d" [proc] ;;
  handler <- allocate ;;
  if negb handler then ret (-1, None)
  else
    let h := mk_psh (Some proc) sbp
               (default cb_ptrace_disable_and_singlestep as_)
               (default cb_no ks) (default cb_no uw)
               PSH_STOPPING false (mk_pid_set [] 0) (replicate SWS_SLOTS 0) in
    q <- get_proc proc ;;
    install_event_handler (proc_leader q) process_stopping_on_event_fn ;;
    r <- each_task (proc_leader q) send_sigstop (pids h) ;;
    match fst r with
    | Some _ =>
        destroy_event_handler proc ;;
        ret (-1, None)
    | None =>
        r' <- with_handler (with_pids (snd r) h)
                (process_stopping_on_event (mk_Event EVENT_NONE (Some proc) 0)) ;;
        ret (0, Some (snd r'))
    end.


(** * plt.c, continued: the [on_continue] callback *)


(** * Vocabulary of the statements *)

(** A .plt section whose end wraps around the 64-bit address space. *)
Definition lte_wrapping : ltelf :=
  mk_ltelf EM_PPC64 (2 ^ 64 - 8) 16 false 0x10000 [].

Definition logged (e : effect) (w : world) : world :=
  set_log (fun l => l ++ [e]) w.

(** The next [n] allocations succeed. *)
Definition allocations_succeed (n : nat) (w : world) : Prop :=
  Forall (fun b => b = true) (take n (w_alloc w)).

(** The handler [s] is stepping task [proc] over the breakpoint of the
    PLT symbol [libsym]. *)
Definition symbol_being_stepped (s : hstate) (proc : Z) (libsym : library_symbol) : Prop :=
  exists bp q l b,
    task_enabling_breakpoint (self s) = Some proc /\
    breakpoint_being_enabled (self s) = Some bp /\
    pid2proc proc (hw s) = Some q /\
    pid2proc (proc_leader q) (hw s) = Some l /\
    proc_breakpoints l !! bp = Some b /\
    bp_libsym b = Some libsym.

(** What [keep_stepping_p] leaves when it resolves the symbol. *)
Definition resolved_state (s : hstate) (proc bp leader value : Z)
    (libsym : library_symbol) : hstate :=
  set_hw (fun w =>
    set_procs
      (map (fun q => if bool_decide (proc_pid q = leader)
                     then with_breakpoints
                            (alter (with_bp_libsym
                                      (Some (with_arch PPC64PLT_RESOLVED
                                               (arch_plt_slot_addr libsym) value libsym)))
                                   bp) q
                     else q))
      (set_mem (insert (proc, arch_plt_slot_addr libsym) (arch_resolved_value libsym))
         (logged (Ptrace PTRACE_POKETEXT proc (arch_plt_slot_addr libsym)
                    (arch_resolved_value libsym))
            (logged (Ptrace PTRACE_PEEKTEXT proc (arch_plt_slot_addr libsym) 0) w)))) s.

(** ** A resolution episode

    While the stopping handler is in [PSH_SINGLESTEP] with
    [keep_stepping_p] as its predicate, every single-step of the tracee
    is followed by one call of the predicate, and [CBS_CONT] makes the
    handler step again ([goto do_singlestep]). A step of the tracee is
    any change of its memory. *)

Definition tracee_step (f : gmap (Z * Z) Z -> gmap (Z * Z) Z) : M hstate unit :=
  modify (set_hw (set_mem f)).

Fixpoint stepping_episode (steps : list (gmap (Z * Z) Z -> gmap (Z * Z) Z))
    : M hstate callback_status :=
  match steps with
  | [] => ret CBS_CONT
  | f :: rest =>
      tracee_step f ;;
      r <- keep_stepping_p ;;
      match r with
      | CBS_CONT => stepping_episode rest
      | CBS_STOP | CBS_FAIL => ret r
      end
  end.

Definition mem_after (steps : list (gmap (Z * Z) Z -> gmap (Z * Z) Z))
    (m : gmap (Z * Z) Z) : gmap (Z * Z) Z :=
  foldl (fun m f => f m) m steps.

(** After each of the steps the slot still reads as [entry]. *)
Fixpoint unresolved_through (steps : list (gmap (Z * Z) Z -> gmap (Z * Z) Z))
    (m : gmap (Z * Z) Z) (proc slot entry : Z) : Prop :=
  match steps with
  | [] => True
  | f :: rest =>
      (exists v, f m !! (proc, slot) = Some v /\ wrap64 v = entry) /\
      unresolved_through rest (f m) proc slot entry
  end.

(** ** Sinking of expected SIGSTOPs

    The test of [handle_stopping_event]: the event is a SIGSTOP for a
    task whose row says that a SIGSTOP was sent and not yet delivered. *)
Definition expects_sigstop (ps : pid_set) (task_info : option nat) (event : Event)
    : bool :=
  match task_info with
  | Some i =>
      match tasks ps !! i with
      | Some row =>
          bool_decide (ev_type event = EVENT_SIGNAL) && (e_un event =? SIGSTOP)
          && (sigstopped row && negb (delivered row))
      | None => false
      end
  | None => false
  end.

(** The event is an expected SIGSTOP for the handler in state [s]. *)
Definition expected_sigstop (s : hstate) (event : Event) : bool :=
  match ev_proc event with
  | Some task =>
      expects_sigstop (pids (self s))
        (fst <$> list_find (fun t => pid t = task) (tasks (pids (self s)))) event
  | None => false
  end.

(** ** Observations on the event queue and on the log *)

(** The queue holds an event whose process has pid [p]. *)
Definition queued_for (p : Z) (w : world) : bool :=
  existsb (fun e => bool_decide (ev_proc e = Some p)) (w_queue w).

(** A request that sets the tracee [p] running. *)
Definition resume_request (p : Z) (e : effect) : bool :=
  match e with
  | Ptrace (PT_SYSCALL | PT_CONTINUE | PT_STEP) q _ _ => bool_decide (q = p)
  | _ => false
  end.

(** The requests of the log that set tracee [p] running, in order. *)
Definition resumes (p : Z) (l : list effect) : list effect :=
  List.filter (resume_request p) l.

(** The pids for which [continue_process] was called, in order, as its
    first statement records them. *)
Definition continued (l : list effect) : list Z :=
  flat_map (fun e => match e with
                     | Debug fmt [p] =>
                         if String.eqb fmt "continue_process: pid=%d" then [p] else []
                     | _ => []
                     end) l.

(** The event handler installed on each process of the directory. *)
Definition handlers (w : world) : list (Z * option on_event_fn) :=
  map (fun q => (proc_pid q, proc_event_handler q)) (w_procs w).

(** The tasks that [process_stopping_done] releases: the rows with a
    nonzero pid whose [delivered] or [sysret] flag is set. *)
Definition released (ps : pid_set) : list Z :=
  map pid (List.filter (fun r => negb (pid r =? 0) && (delivered r || sysret r))
             (tasks ps)).

(** The answer of a predicate that has no side effect. *)
Definition predicate_answer (cb : predicate_cb) : option callback_status :=
  match cb with
  | cb_no => Some CBS_STOP
  | cb_extern r => Some r
  | cb_keep_stepping_p => None
  end.

(** The signals the tracer sent, in order. *)
Definition kills (l : list effect) : list (Z * Z) :=
  flat_map (fun e => match e with Kill p sig => [(p, sig)] | _ => [] end) l.

(** ** Vfork parents

    The test of [is_vfork_parent]: some task of the thread group of
    [leader] has [process_vfork_on_event] as its event handler. *)
Definition group_has_vfork_handler (leader : Z) (w : world) : bool :=
  existsb (fun t => match pid2proc t w with
                    | Some q => bool_decide (proc_event_handler q
                                             = Some process_vfork_on_event_fn)
                    | None => false
                    end)
          (tasks_of leader w).


(** [task_stopped] answers [CBS_CONT] for this status. *)
Definition stopped_status (st : process_status) : bool :=
  match st with
  | PS_INVALID | PS_TRACING_STOP | PS_ZOMBIE => true
  | PS_SLEEPING | PS_STOP | PS_OTHER => false
  end.

(** How [send_sigstop] settles the row of the task: the row is found,
    or added (growing the array when it is full), or refused when the
    array cannot grow. Answers the row, the set and the world. *)
Inductive row_lookup (task : Z) (ps : pid_set) (w : world)
    : option nat -> pid_set -> world -> Prop :=
  | row_found i row :
      list_find (fun t => pid t = task) (tasks ps) = Some (i, row) ->
      row_lookup task ps w (Some i) ps w
  | row_added_in_place :
      list_find (fun t => pid t = task) (tasks ps) = None ->
      length (tasks ps) <> alloc ps ->
      row_lookup task ps w (Some (length (tasks ps)))
        (with_tasks (fun l => l ++ [mk_pid_task task false false false false false]) ps) w
  | row_added_grown w1 :
      list_find (fun t => pid t = task) (tasks ps) = None ->
      length (tasks ps) = alloc ps ->
      allocate w = Ok true w1 ->
      row_lookup task ps w (Some (length (tasks ps)))
        (mk_pid_set (tasks ps ++ [mk_pid_task task false false false false false])
           (if (2 * alloc ps =? 0)%nat then 4%nat else (2 * alloc ps)%nat)) w1
  | row_refused w1 :
      list_find (fun t => pid t = task) (tasks ps) = None ->
      length (tasks ps) = alloc ps ->
      allocate w = Ok false w1 ->
      row_lookup task ps w None ps w1.


(** The calls into collaborators outside trace.c and plt.c (the
    breakpoint subsystem, the process directory), in order. *)
Definition calls (l : list effect) : list effect :=
  List.filter (fun e => match e with Call _ _ => true | _ => false end) l.

(** ** What the stopping handler does with an event *)

(** The rows as [handle_stopping_event] marks them for an event of
    [task] that it does not sink. *)
Definition rows_after_event (ps : pid_set) (task : Z) : pid_set :=
  match list_find (fun t => pid t = task) (tasks ps) with
  | Some (i, _) => set_row i (with_got_event true) ps
  | None => ps
  end.

(** The answer of [all_stops_accountable]: every row with a nonzero
    pid has seen an event, or has one in the queue. *)
Definition accountable (ps : pid_set) (w : world) : bool :=
  forallb (fun r => (pid r =? 0) || got_event r || queued_for (pid r) w) (tasks ps).

(** The event is a breakpoint event of the task that is enabling the
    breakpoint: in SINGLESTEP the handler consumes it as the
    completion of the step, in UGLY_WORKAROUND it forgets the task. *)
Definition step_completed (s : hstate) (event : Event) : bool :=
  bool_decide (ev_proc event = task_enabling_breakpoint (self s))
  && bool_decide (ev_type event = EVENT_BREAKPOINT).

(** The test of [case PSH_UGLY_WORKAROUND] for an event that reaches
    it: no task is enabling a breakpoint any more and all stops are
    accountable; the handler then calls [detach_process] and drops the
    event. *)
Definition workaround_over (s : hstate) (event : Event) : bool :=
  match ev_proc event with
  | Some task =>
      bool_decide ((if step_completed s event then None
                    else task_enabling_breakpoint (self s)) = None)
      && accountable (rows_after_event (pids (self s)) task) (hw s)
  | None => false
  end.

(** What the handler does in its [switch] with an event that reaches
    it: [true] when the event is dropped there, [false] when it is
    left for the end of the handler. *)
Definition dropped_in_switch (s : hstate) (event : Event) : bool :=
  match state (self s) with
  | PSH_STOPPING | PSH_SINKING => false
  | PSH_SINGLESTEP => step_completed s event
  | PSH_UGLY_WORKAROUND => workaround_over s event
  end.

(** The row of the task of [event] has its [sysret] flag set in [s']. *)
Definition sysret_marked (s s' : hstate) (event : Event) : Prop :=
  exists task i row row',
    ev_proc event = Some task /\
    list_find (fun t => pid t = task) (tasks (pids (self s))) = Some (i, row) /\
    tasks (pids (self s')) !! i = Some row' /\
    pid row' = task /\ sysret row' = true.

(** ** The ugly workaround *)

(** The breakpoint that the leader of task [t] has at [addr]. *)
Definition leader_breakpoint (t addr : Z) (w : world) : option breakpoint :=
  match pid2proc t w with
  | Some q =>
      match pid2proc (proc_leader q) w with
      | Some l => proc_breakpoints l !! addr
      | None => None
      end
  | None => None
  end.

(** What [ugly_workaround] records for task [t] in the world [w]: the
    breakpoint at the instruction pointer of [t] is enabled, or one is
    inserted when the leader of [t] has none there; then [t] is set
    running with [PT_CONTINUE]. *)
Definition ugly_workaround_records (t : Z) (w : world) : list effect :=
  let ip := default 0 (w_ip w !! t) in
  [match leader_breakpoint t ip w with
   | Some _ => Call "enable_breakpoint" [t; ip]
   | None => Call "insert_breakpoint" [t; ip]
   end;
   Ptrace PT_CONTINUE t 1 0].

(** In [w'] the leader of [t] has a breakpoint where the instruction
    pointer of [t] was in [w]. *)
Definition breakpoint_at_ip (t : Z) (w w' : world) : Prop :=
  exists q l',
    pid2proc t w = Some q /\
    pid2proc (proc_leader q) w' = Some l' /\
    is_Some (proc_breakpoints l' !! default 0 (w_ip w !! t)).

(** Allocations are only ever consumed: the answers still to come are
    a suffix of those of the start. *)
Definition alloc_suffix : relation world :=
  fun w w' => w_alloc w' `suffix_of` w_alloc w.


(** * Frame reasoning

    [respects R m]: whatever way [m] ends, the state it ends in is
    related by [R] to the state it started from. *)

Definition respects {S A} (R : relation S) (m : M S A) : Prop :=
  forall s, R s (final (m s)).

(** [proj] has the same value in both states. *)
Definition keeps {S X} (proj : S -> X) : relation S :=
  fun s s' => proj s' = proj s.

(** A relation on worlds, as a relation on handler states. *)
Definition on_world (R : relation world) : relation hstate :=
  fun s s' => R (hw s) (hw s').

(** What the stopping handler leaves alone between its prelude and its
    last statement: the event queue and the rows of its pid set. *)
Definition psh_frame : relation hstate :=
  keeps (fun s => (w_queue (hw s), pids (self s))).

(** [ensures m Q]: when [m] returns, its result satisfies [Q]. *)
Definition ensures {S A} (m : M S A) (Q : A -> Prop) : Prop :=
  forall s a s', m s = Ok a s' -> Q a.

(** * Concrete scenarios

    Section 8 of the specification, scenario 2: a leader 2001 with a
    second thread 2002, a breakpoint at the PLT entry 0x401000 whose
    .plt slot is at 0x600100; and scenario 3: a parent 3001 that
    vforked the child 3002. *)

Definition env_of (status : Z -> process_status) (kill_fails : Z -> bool) : os_env :=
  mk_os_env status kill_fails (fun _ => 1) (fun _ => Some []) (fun _ => false)
            (fun _ => false) (fun _ _ => false) true [].

Definition sym_puts (t : ppc64_plt_type) (rv : Z) : library_symbol :=
  mk_library_symbol "puts" 0x401000 LS_TOPLT_EXEC t 0x600100 rv.

Definition bp_puts (t : ppc64_plt_type) (rv : Z) : breakpoint :=
  mk_breakpoint 0x401000 1 (Some (sym_puts t rv)) None (Some cb_ppc64_plt_bp_continue).

Definition procs_2001 (t : ppc64_plt_type) (rv : Z) : list process :=
  [mk_process 2001 2001 None STATE_ATTACHED EM_PPC64
     (Some process_stopping_on_event_fn) {[ 0x401000 := bp_puts t rv ]};
   mk_process 2002 2001 None STATE_ATTACHED EM_PPC64 None ∅].

(** Thread 2002 is running, the leader is in a tracing stop. *)
Definition status_2002_running (p : Z) : process_status :=
  if p =? 2002 then PS_OTHER else PS_TRACING_STOP.

Definition world_2001 (t : ppc64_plt_type) (rv slot_value : Z) (queue : list Event)
    (kill_fails : Z -> bool) : world :=
  mk_world (procs_2001 t rv) queue 2001 false {[ (2001, 0x600100) := slot_value ]}
           ∅ [] (env_of status_2002_running kill_fails) [].

Definition rows_2001 : pid_set :=
  mk_pid_set [mk_pid_task 2001 false true false false false;
              mk_pid_task 2002 true true true false false] 4.

Definition handler_2001 (st : psh_state) (ks : predicate_cb) : process_stopping_handler :=
  mk_psh (Some 2001) (Some 0x401000) cb_ptrace_disable_and_singlestep ks cb_no
         st false rows_2001 [0; 0].

(** The handler single-steps 2001 through the resolver of [puts]. *)
Definition s_resolving : hstate :=
  mk_hstate (handler_2001 PSH_SINGLESTEP cb_keep_stepping_p)
            (world_2001 PPC64PLT_UNRESOLVED 0x401000 0x401000 [] (fun _ => false)).

(** The dynamic linker writes the callee into the slot. *)
Definition linker_resolves (m : gmap (Z * Z) Z) : gmap (Z * Z) Z :=
  <[ (2001, 0x600100) := 0x7f00abcd ]> m.

(** The handler waits for the threads to stop. *)
Definition s_stopping : hstate :=
  mk_hstate (handler_2001 PSH_STOPPING cb_no)
            (world_2001 PPC64PLT_UNRESOLVED 0x401000 0x401000 [] (fun _ => false)).

(** All SIGSTOPs are delivered. *)
Definition s_sinking : hstate :=
  mk_hstate (handler_2001 PSH_SINKING cb_no)
            (world_2001 PPC64PLT_UNRESOLVED 0x401000 0x401000 [] (fun _ => false)).

Definition ev_sysret_2002 : Event := mk_Event EVENT_SYSRET (Some 2002) 4.

Definition ev_breakpoint_2002 : Event := mk_Event EVENT_BREAKPOINT (Some 2002) 0x401000.

Definition ev_exit_2002 : Event := mk_Event EVENT_EXIT (Some 2002) 0.

(** No handler is installed yet, and 2002 cannot be sent a signal. *)
Definition w_kill_fails : world :=
  set_procs (map (with_event_handler None))
    (world_2001 PPC64PLT_UNRESOLVED 0x401000 0x401000 [] (fun p => p =? 2002)).

(** The vforked child 3002 runs in the thread group of its parent 3001,
    which sleeps in the kernel. *)
Definition w_vfork : world :=
  mk_world
    [mk_process 3001 3001 None STATE_ATTACHED EM_PPC64
       (Some process_stopping_on_event_fn) ∅;
     mk_process 3002 3001 (Some 3001) STATE_ATTACHED EM_PPC64
       (Some process_vfork_on_event_fn) ∅]
    [] 3002 false ∅ ∅ []
    (env_of (fun p => if p =? 3001 then PS_SLEEPING else PS_OTHER) (fun _ => false)) [].

(** A PPC64 image without stub symbols whose second PLT entry is at
    0x401000. *)
Definition lte_puts : ltelf := mk_ltelf EM_PPC64 0x600000 0x1000 true 0x400ff8 [].

Definition rela_puts : GElf_Rela := mk_rela 0x600100 0 0.

(** * The rest of plt.c and trace.c *)

(** ** C strings

    The functions of [<string.h>] that plt.c uses, on the characters of
    a string; a pointer into a string is the offset from its start. *)

Fixpoint strstr (s needle : string) : option nat :=
  if String.prefix needle s then Some 0%nat
  else match s with
       | EmptyString => None
       | String _ s' => S <$> strstr s' needle
       end.

Fixpoint strchr (s : string) (c : Strings.Ascii.ascii) : option nat :=
  match s with
  | EmptyString => None
  | String a s' => if Strings.Ascii.eqb a c then Some 0%nat else S <$> strchr s' c
  end.

Fixpoint strrchr (s : string) (c : Strings.Ascii.ascii) : option nat :=
  match s with
  | EmptyString => None
  | String a s' =>
      match strrchr s' c with
      | Some n => Some (S n)
      | None => if Strings.Ascii.eqb a c then Some 0%nat else None
      end
  end.

(** The string at [s + n]. *)
Fixpoint str_at (s : string) (n : nat) : string :=
  match n, s with
  | O, _ => s
  | S n', String _ s' => str_at s' n'
  | S _, EmptyString => EmptyString
  end.

Fixpoint strndup (s : string) (n : nat) : string :=
  match n, s with
  | O, _ => EmptyString
  | S n', String a s' => String a (strndup s' n')
  | S _, EmptyString => EmptyString
  end.

(** ** The ELF file, as the ELF library answers

    [arch_elf_init] reads the file through libelf and through the
    front-end of ltrace-elf.c; what they answer is data here. *)

Definition wrap32 (z : Z) : Z := z mod 2 ^ 32.

(** An [Elf_Data] buffer: its size and what [elf_read_u32] reads at an
    offset, [None] being a negative answer. *)
Record Elf_Data := mk_Elf_Data {
  d_size : Z;
  read_u32 : Z -> option Z;
}.

(** A section with its header: [sh_addr], and what [elf_loaddata]
    answers for it. *)
Record Elf_Scn := mk_Elf_Scn {
  sh_addr : Z;
  scn_data : option Elf_Data;
}.

(** The [SHT_DYNAMIC] section: [sh_size] and [sh_entsize] of its
    header and what [gelf_getdyn] answers at an index, [d_tag] and
    [d_un.d_ptr]. *)
Record Elf_Dynamic := mk_Elf_Dynamic {
  dyn_sh_size : Z;
  dyn_sh_entsize : Z;
  getdyn : nat -> option (Z * Z);
}.

(** The members of [struct ltelf] that only [arch_elf_init] reads, and
    the sections behind them.
    - [section_covering a]: whether [elf_get_section_covering] answers a
      negative number for the address [a], and the section it stores;
    - [section_dynamic]: the section that [elf_get_section_type] and
      [elf_loaddata] give for [SHT_DYNAMIC], [None] when either fails
      or there is no such section;
    - [symtab]: [None] when [symtab] or [strtab] is [NULL]; else what
      [gelf_getsym] answers for each of the [symtab_count] indices, as
      the string at [strtab + st_name] and [st_value]. *)
Record elf_file := mk_elf_file {
  plt_flags : Z;
  relplt_size : Z;
  bias : Z;
  plt_data : option Elf_Data;
  section_covering : Z -> bool * option Elf_Scn;
  section_dynamic : option Elf_Dynamic;
  symtab : option (list (option (string * Z)));
}.

(** [<elf.h>]. *)
Definition SHF_EXECINSTR : Z := 4.
Definition DT_PPC_GOT : Z := 0x70000000.
Definition DT_PPC64_GLINK : Z := 0x70000000.

Definition with_secure_plt (v : bool) (lte : ltelf) : ltelf :=
  mk_ltelf (e_machine lte) (plt_addr lte) (plt_size lte) v
           (arch_plt_stub_vma lte) (arch_stubs lte).

Definition with_plt_stub_vma (v : Z) (lte : ltelf) : ltelf :=
  mk_ltelf (e_machine lte) (plt_addr lte) (plt_size lte) (arch_secure_plt lte)
           v (arch_stubs lte).

Definition with_arch_type (t : ppc64_plt_type) (l : library_symbol) : library_symbol :=
  with_arch t (arch_plt_slot_addr l) (arch_resolved_value l) l.

(** ** plt.c: address translation *)

(** [None] is the answer -1; [Some a] is 0 with [*ret = a]. *)
Definition arch_translate_address (proc addr : Z) : M world (option Z) :=
  q <- get_proc proc ;;
  if bool_decide (proc_e_machine q = EM_PPC64) then
    h <- host_powerpc64 ;;
    assert h ;;
    l <- ptrace_peektext proc addr ;;
    match l with
    | None =>
        emit (Stderr ".opd translation of %p" [addr]) ;;
        ret None
    | Some v => ret (Some (wrap64 v))
    end
  else ret (Some addr).

Definition sym2addr (proc : Z) (sym : library_symbol) : Z :=
  ls_enter_addr sym.

(** ** plt.c: [arch_elf_init] *)

Definition get_glink_vma (elf : elf_file) (ppcgot : Z) (plt_data : option Elf_Data)
    : M world Z :=
  ppcgot_sec <-
    (if negb (ppcgot =? 0) then
       when (fst (section_covering elf ppcgot))
            (emit (Stderr "DT_PPC_GOT=%#lx, but no such section found" [ppcgot])) ;;
       ret (snd (section_covering elf ppcgot))
     else ret None) ;;
  found <-
    match ppcgot_sec with
    | Some sec =>
        match scn_data sec with
        | None => emit (Stderr "couldn't read GOT data" []) ;; ret None
        | Some data =>
            if d_size data <? 8 then
              emit (Stderr "couldn't read GOT data" []) ;; ret None
            else
              let offset := wrap64 (ppcgot - sh_addr sec) in
              assert (offset mod 4 =? 0) ;;
              match read_u32 data (wrap64 (offset + 4)) with
              | None =>
                  emit (Stderr "couldn't read glink VMA address at %zd@GOT" [offset]) ;;
                  ret (Some 0)
              | Some glink_vma =>
                  if negb (wrap32 glink_vma =? 0) then
                    debug "PPC GOT glink_vma address: %#x" [wrap32 glink_vma] ;;
                    ret (Some (wrap32 glink_vma))
                  else ret None
              end
        end
    | None => ret None
    end ;;
  match found with
  | Some v => ret v
  | None =>
      match plt_data with
      | Some data =>
          match read_u32 data 0 with
          | None =>
              emit (Stderr "couldn't read glink VMA address" []) ;;
              ret 0
          | Some glink_vma =>
              debug ".plt glink_vma address: %#x" [wrap32 glink_vma] ;;
              ret (wrap32 glink_vma)
          end
      | None => ret 0
      end
  end.

(** The loop of [load_dynamic_entry], from index [j] with [n] entries
    to go. *)
Fixpoint load_dynamic_entry_from (d : Elf_Dynamic) (tag : Z) (j n : nat)
    : M world (option Z) :=
  match n with
  | O => ret None
  | S n' =>
      match getdyn d j with
      | None =>
          emit (Stderr "Couldn't get SHT_DYNAMIC: %s" []) ;;
          ret None
      | Some (d_tag, d_ptr) =>
          if d_tag =? tag then ret (Some (wrap64 d_ptr))
          else load_dynamic_entry_from d tag (S j) n'
      end
  end.

(** [None] is the answer -1; [Some v] is 0 with [*valuep = v]. A zero
    [sh_entsize] makes the division of the loop bound trap. *)
Definition load_dynamic_entry (elf : elf_file) (tag : Z) : M world (option Z) :=
  match section_dynamic elf with
  | None =>
      emit (Stderr "Couldn't get SHT_DYNAMIC: %s" []) ;;
      ret None
  | Some d =>
      if dyn_sh_entsize d =? 0 then stop Crash
      else load_dynamic_entry_from d tag 0
             (Z.to_nat (dyn_sh_size d / dyn_sh_entsize d))
  end.

Definition load_ppcgot (elf : elf_file) : M world (option Z) :=
  load_dynamic_entry elf DT_PPC_GOT.

Definition load_ppc64_glink (elf : elf_file) : M world (option Z) :=
  load_dynamic_entry elf DT_PPC64_GLINK.

Definition STUBN : string := ".plt_call.".

(** The length of the callee name in a stub symbol name, [name] being
    the string after [STUBN]. *)
Section stub_names.
Import Stdlib.Strings.Ascii.

Definition stub_name_length {S} (name : string) : M S nat :=
  match strchr name "@"%char with
  | Some ver => ret ver
  | None =>
      match strrchr name "+"%char with
      | Some add =>
          assert (String.eqb (str_at name add) "+0") ;;
          ret add
      | None => ret (String.length name)
      end
  end.

End stub_names.

(** The loop of [arch_elf_init] over the symbol table; answers
    [lte->arch.stubs]. The label [fail:] destroys every stub collected
    so far and leaves the loop. *)
Fixpoint arch_elf_init_stubs (syms : list (option (string * Z))) (bias : Z)
    (stubs : list library_symbol) : M world (list library_symbol) :=
  match syms with
  | [] => ret stubs
  | None :: _ => ret []
  | Some (name, st_value) :: rest =>
      match strstr name STUBN with
      | None => arch_elf_init_stubs rest bias stubs
      | Some at_stubn =>
          let name := str_at name (at_stubn + String.length STUBN) in
          len <- stub_name_length name ;;
          sym_name <- allocate ;;
          libsym <- allocate ;;
          if negb sym_name || negb libsym then ret []
          else
            let addr := wrap64 (st_value + bias) in
            let sym := library_symbol_init addr (strndup name len) LS_TOPLT_EXEC in
            arch_elf_init_stubs rest bias (with_arch_type PPC64PLT_STUB sym :: stubs)
      end
  end.

(** Answers the C result and the descriptor as the call leaves it. *)
Definition arch_elf_init (elf : elf_file) (lte : ltelf) : M world (Z * ltelf) :=
  let lte := with_secure_plt (Z.land (plt_flags elf) SHF_EXECINSTR =? 0) lte in
  r <- (if bool_decide (e_machine lte = EM_PPC) && arch_secure_plt lte then
          ppcgot <- load_ppcgot elf ;;
          match ppcgot with
          | None =>
              emit (Stderr "couldn't find DT_PPC_GOT" []) ;;
              ret (-1, lte)
          | Some ppcgot =>
              glink_vma <- get_glink_vma elf ppcgot (plt_data elf) ;;
              assert (relplt_size elf mod 12 =? 0) ;;
              let count := relplt_size elf / 12 in
              let lte := with_plt_stub_vma
                           (wrap64 (glink_vma - wrap64 (count * PPC_PLT_STUB_SIZE)))
                           lte in
              debug "stub_vma is %#lx" [arch_plt_stub_vma lte] ;;
              ret (0, lte)
          end
        else if bool_decide (e_machine lte = EM_PPC64) then
          glink_vma <- load_ppc64_glink elf ;;
          match glink_vma with
          | None =>
              emit (Stderr "couldn't find DT_PPC64_GLINK" []) ;;
              ret (-1, lte)
          | Some glink_vma => ret (0, with_plt_stub_vma (wrap64 (glink_vma + 32)) lte)
          end
        else ret (0, lte)) ;;
  if fst r <? 0 then ret r
  else
    let lte := snd r in
    match symtab elf with
    | Some syms =>
        if bool_decide (e_machine lte = EM_PPC64) then
          stubs <- arch_elf_init_stubs syms (bias elf) (arch_stubs lte) ;;
          ret (0, with_stubs stubs lte)
        else ret (0, lte)
    | None => ret (0, lte)
    end.

(** ** plt.c: [arch_breakpoint_init] *)

(** Modelled from the spec: [breakpoint_set_callbacks] of breakpoints.c
    attaches a callback table to a breakpoint (section 4.3, "Callback
    protocol"); the table of [arch_breakpoint_init] has [on_continue]
    only. *)
Definition breakpoint_set_callbacks (on_hit : option on_hit_cb)
    (on_continue : option on_continue_cb) (bp : breakpoint) : breakpoint :=
  with_bp_on_continue on_continue (with_bp_on_hit on_hit bp).

(** The breakpoint is the one being set up, which no dictionary holds
    yet; answers the C result and the breakpoint. *)
Definition arch_breakpoint_init (proc : Z) (bp : breakpoint) : M world (Z * breakpoint) :=
  q <- get_proc proc ;;
  if bool_decide (proc_e_machine q = EM_PPC) then ret (0, bp)
  else
    match bp_libsym bp with
    | None => ret (0, bp)
    | Some libsym =>
        if bool_decide (ls_plt_type libsym <> LS_TOPLT_EXEC)
           || bool_decide (arch_type libsym = PPC64PLT_STUB)
        then ret (0, bp)
        else ret (0, breakpoint_set_callbacks None (Some cb_ppc64_plt_bp_continue) bp)
    end.

(** ** trace.c: software single-step slots *)

(** Answers 0; [abort()] when every slot is taken. *)
Definition sw_singlestep_add_bp (addr : Z) : M hstate Z :=
  teb <- getself task_enabling_breakpoint ;;
  slots <- getself sws_bp_addrs ;;
  match list_find (fun a => a = 0) slots with
  | Some (i, _) =>
      setself (fun h => with_sws (<[i := addr]> (sws_bp_addrs h)) h) ;;
      proc <- deref teb ;;
      liftW (insert_breakpoint proc addr None) ;;
      liftW (update_bp proc addr
               (breakpoint_set_callbacks (Some cb_sw_singlestep_bp_on_hit) None)) ;;
      ret 0
  | None => stop Abort
  end.

(** ** trace.c: continuing after an event *)

Definition continue_after_signal (p signum : Z) : M world unit :=
  debug "continue_after_signal: pid=%d, signum=%d" [p; signum] ;;
  ptrace PT_SYSCALL p 1 signum.

(** [proc] is [None] for [NULL]. *)
Definition is_mid_stopping (proc : option Z) : M world bool :=
  match proc with
  | None => ret false
  | Some p =>
      q <- get_proc p ;;
      ret (bool_decide (proc_event_handler q = Some process_stopping_on_event_fn))
  end.

Definition continue_after_syscall (proc sysnum ret_p : Z) : M world unit :=
  mid <- (if negb (ret_p =? 0) then
            m <- is_mid_stopping (Some proc) ;;
            if m : bool then ret true
            else
              q <- get_proc proc ;;
              is_mid_stopping (Some (proc_leader q))
          else ret false) ;;
  if mid : bool then debug "continue_after_syscall: don't continue %d" [proc]
  else continue_process proc.

Definition continue_after_exec (proc : Z) : M world unit :=
  continue_process proc.

(** ** trace.c: the exiting handler *)

(** A handler object beside the world: the state of the handlers other
    than the stopping handler. *)
Definition liftS {X A} (m : M world A) : M (X * world) A :=
  fun s => match m (snd s) with
           | Ok a w' => Ok a (fst s, w')
           | Halt h w' => Halt h (fst s, w')
           end.

Definition with_exiting (v : bool) (h : process_stopping_handler) :=
  mk_psh (task_enabling_breakpoint h) (breakpoint_being_enabled h) (on_all_stopped h)
         (keep_stepping_p_cb h) (ugly_workaround_p h) (state h) v (pids h)
         (sws_bp_addrs h).

(** The state is the [pids] of the [struct ltrace_exiting_handler] and
    the world. The debug record keeps the pid only, as in
    [process_stopping_on_event]. *)
Definition ltrace_exiting_on_event (event : Event) : M (pid_set * world) (option Event) :=
  task <- deref (ev_proc event) ;;
  tp <- liftS (get_proc task) ;;
  let leader := proc_leader tp in
  liftS (debug "ltrace_exiting_on_event: pid %d" [task]) ;;
  ps <- gets fst ;;
  task_info <- get_task_info ps task ;;
  r <- liftS (handle_stopping_event task_info event ps) ;;
  modify (fun s => (snd r, snd s)) ;;
  let event := fst r in
  match event with
  | Some e =>
      if bool_decide (ev_type e = EVENT_BREAKPOINT)
      then liftS (undo_breakpoint event leader) ;; ret tt
      else ret tt
  | None => ret tt
  end ;;
  ps <- gets fst ;;
  clear <- liftS (await_sigstop_delivery ps task_info event) ;;
  acc <- (if clear : bool then liftS (all_stops_accountable ps) else ret false) ;;
  when acc (liftS (detach_process leader)) ;;
  if event_exit_or_none_p event then ret event else ret None.

(** The handler object is the stopping handler of [proc], which is
    looked at only when [proc] has one. Answers the C result and the
    [pids] of the exiting handler when one was allocated. *)
Definition ltrace_exiting_install_handler (proc : Z) : M hstate (Z * option pid_set) :=
  q <- liftW (get_proc proc) ;;
  if bool_decide (proc_leader q <> proc) then ret (0, None)
  else if bool_decide (proc_event_handler q = Some ltrace_exiting_on_event_fn)
  then ret (0, None)
  else
    match proc_event_handler q with
    | Some on_event =>
        assert (bool_decide (on_event = process_stopping_on_event_fn)) ;;
        setself (with_exiting true) ;;
        ret (0, None)
    | None =>
        handler <- liftW allocate ;;
        if negb handler then
          liftW (perror "malloc exiting handler") ;;
          ret (-1, None)
        else
          liftW (install_event_handler (proc_leader q) ltrace_exiting_on_event_fn) ;;
          r <- liftW (each_task (proc_leader q) send_sigstop (mk_pid_set [] 0)) ;;
          match fst r with
          | Some _ => ret (-1, Some (snd r))
          | None => ret (0, Some (snd r))
          end
    end.

(** ** trace.c: vfork *)

Definition with_leader (v : Z) (p : process) : process :=
  mk_process (proc_pid p) v (proc_parent p) (proc_state p)
             (proc_e_machine p) (proc_event_handler p) (proc_breakpoints p).

(** Modelled from the spec: [change_process_leader] of proc.c makes
    [leader] the leader of [proc] (section 4.6, "changes
    child.leader := parent.leader"). *)
Definition change_process_leader (proc leader : Z) : M world unit :=
  _ <- get_proc proc ;;
  update_proc proc (with_leader leader).

(** [proc->next]: the process that follows in the directory. *)
Fixpoint next_process (p : Z) (l : list process) : option process :=
  match l with
  | [] => None
  | q :: rest => if bool_decide (proc_pid q = p) then head rest else next_process p rest
  end.

(** The state is the [bp_addr] of the [struct process_vfork_handler]
    and the world. The debug record keeps the pid only. *)
Definition process_vfork_on_event (event : Event) : M (Z * world) (option Event) :=
  p <- deref (ev_proc event) ;;
  liftS (debug "process_vfork_on_event: pid %d" [p]) ;;
  match ev_type event with
  | EVENT_BREAKPOINT =>
      bp_addr <- gets fst ;;
      when (bp_addr =? 0) (modify (fun s => (e_un event, snd s)))
  | EVENT_EXIT | EVENT_EXIT_SIGNAL | EVENT_EXEC =>
      bp_addr <- gets fst ;;
      q <- liftS (get_proc p) ;;
      (if negb (bp_addr =? 0) then
         sbp <- liftS (dict_find_entry (proc_leader q) bp_addr) ;;
         match sbp with
         | Some b => assert (bool_decide (bp_libsym b = None))
         | None => ret tt
         end ;;
         parent <- deref (proc_parent q) ;;
         liftS (insert_breakpoint parent bp_addr None)
       else ret tt) ;;
      parent <- deref (proc_parent q) ;;
      liftS (continue_process parent) ;;
      liftS (change_process_leader p p) ;;
      liftS (destroy_event_handler p)
  | _ => ret tt
  end ;;
  ret (Some event).

(** Answers the [bp_addr] of the vfork handler when one was set up.
    Every process of the directory has a leader, so the last assertion,
    [proc->parent->leader != NULL], holds once the parent is found. *)
Definition continue_after_vfork (proc : Z) : M world (option Z) :=
  debug "continue_after_vfork: pid=%d" [proc] ;;
  handler <- allocate ;;
  if negb handler then
    perror "malloc vfork handler" ;;
    q <- get_proc proc ;;
    parent <- deref (proc_parent q) ;;
    continue_process parent ;;
    ret None
  else
    install_event_handler proc process_vfork_on_event_fn ;;
    q <- get_proc proc ;;
    assert (bool_decide (proc_leader q = proc)) ;;
    next <- gets (fun w => next_process proc (w_procs w)) ;;
    assert (match next with
            | None => true
            | Some n => bool_decide (proc_leader n <> proc)
            end) ;;
    assert (bool_decide (proc_parent q <> None)) ;;
    parent <- deref (proc_parent q) ;;
    pq <- get_proc parent ;;
    change_process_leader proc (proc_leader pq) ;;
    ret (Some 0).

(** * Vocabulary of the further statements *)

(** The three tests of [send_sigstop] that end it before any signal:
    the task is being created, it is stopped already, or a SIGSTOP is
    on its way. *)
Definition send_sigstop_row_skips (q : process) (row : pid_task) (w : world) (task : Z)
    : bool :=
  bool_decide (proc_state q = STATE_BEING_CREATED)
  || stopped_status (os_status (w_env w) task)
  || (sigstopped row && negb (delivered row)).

(** A relation on worlds, as a relation on a handler object with the
    world. *)
Definition on_snd {X} (R : relation world) : relation (X * world) :=
  fun s s' => R (snd s) (snd s').

(** The pids for which a [PT_DETACH] request was issued, in order. *)
Definition detaches (l : list effect) : list Z :=
  flat_map (fun e => match e with Ptrace PT_DETACH p _ _ => [p] | _ => [] end) l.

(** Some pid given with -p is a process of the thread group of
    [leader]: the test of the loop of [detach_process] over [opt_p]. *)
Definition attached_with_p (leader : Z) (w : world) : bool :=
  existsb (fun it => match pid2proc it w with
                     | Some q => bool_decide (proc_leader q = leader)
                     | None => false
                     end) (os_opt_p (w_env w)).

(** ** Stub symbols of a symbol table *)

Section stub_symbol_names.
Import Stdlib.Strings.Ascii.

(** Where the callee ends in the text that follows ".plt_call.": at
    the first "@", else at the last "+", else at the end. *)
Definition stub_name_end (name : string) : nat :=
  match strchr name "@"%char with
  | Some ver => ver
  | None =>
      match strrchr name "+"%char with
      | Some add => add
      | None => String.length name
      end
  end.

End stub_symbol_names.

(** The callee that a symbol name stands for; [None] for a name
    without ".plt_call.". *)
Definition stub_callee (name : string) : option string :=
  match strstr name STUBN with
  | None => None
  | Some at_stubn =>
      let name := str_at name (at_stubn + String.length STUBN) in
      Some (strndup name (stub_name_end name))
  end.

Definition stub_of (bias : Z) (sym : string * Z) : option library_symbol :=
  match stub_callee (fst sym) with
  | None => None
  | Some callee =>
      Some (mk_library_symbol callee (wrap64 (snd sym + bias)) LS_TOPLT_EXEC
              PPC64PLT_STUB 0 0)
  end.

(** One stub for every symbol of the table that has ".plt_call." in
    its name, the stub of the last such symbol first. *)
Definition stubs_of (bias : Z) (syms : list (string * Z)) : list library_symbol :=
  rev (omap (stub_of bias) syms).

(** The breakpoint that [insert_breakpoint] leaves at [addr] with no
    symbol, [old] being what the dictionary held there. *)
Definition reinserted (addr : Z) (old : option breakpoint) : breakpoint :=
  match old with
  | Some b => with_bp_enabled (bp_enabled b + 1) b
  | None => mk_breakpoint addr 1 None None None
  end.

(** * Further concrete scenarios *)

(** A dynamic section of two entries, [DT_NEEDED] and then
    [DT_PPC64_GLINK] at 0x400fd8, and one without the second entry. *)
Definition dyn_glink : Elf_Dynamic :=
  mk_Elf_Dynamic 32 16
    (fun i => match i with
              | 0%nat => Some (1, 0)
              | 1%nat => Some (DT_PPC64_GLINK, 0x400fd8)
              | _ => None
              end).

Definition dyn_plain : Elf_Dynamic :=
  mk_Elf_Dynamic 16 16 (fun i => match i with 0%nat => Some (1, 0) | _ => None end).

Definition elf_of (d : Elf_Dynamic) (syms : option (list (option (string * Z))))
    : elf_file :=
  mk_elf_file SHF_EXECINSTR 0 0 None (fun _ => (true, None)) (Some d) syms.

(** A stripped-down symbol table with the stub of [puts]. *)
Definition syms_puts : list (option (string * Z)) :=
  [Some ("main", 0x400800); Some ("0000001a.plt_call.puts+0", 0x400900)].

(** A 32-bit image with a secure PLT of two entries: [DT_PPC_GOT] is
    0x10010000, and the word after it holds the glink address
    0x10000800. *)
Definition dyn_ppcgot : Elf_Dynamic :=
  mk_Elf_Dynamic 8 8 (fun i => match i with
                               | 0%nat => Some (DT_PPC_GOT, 0x10010000)
                               | _ => None
                               end).

Definition got_section : Elf_Scn :=
  mk_Elf_Scn 0x10010000
    (Some (mk_Elf_Data 16 (fun off => if off =? 4 then Some 0x10000800 else None))).

Definition elf_ppc32 : elf_file :=
  mk_elf_file 3 24 0 None
    (fun a => if a =? 0x10010000 then (false, Some got_section) else (true, None))
    (Some dyn_ppcgot) None.

Definition lte_ppc32 : ltelf := mk_ltelf EM_PPC 0x10010100 0x20 false 0 [].

Definition w_plain : world := world_2001 PPC64PLT_UNRESOLVED 0 0 [] (fun _ => false).

(** The rows after the SIGSTOP was sent to 2002 and before it is
    delivered. *)
Definition rows_sent_2002 : pid_set :=
  mk_pid_set [mk_pid_task 2001 false false false false false;
              mk_pid_task 2002 true false false false false] 4.

Definition ev_sigstop_2002 : Event := mk_Event EVENT_SIGNAL (Some 2002) SIGSTOP.

(** The child 3002 right after the vfork: its own leader, without a
    handler, last in the directory. *)
Definition proc_3001 : process :=
  mk_process 3001 3001 None STATE_ATTACHED EM_PPC64 None ∅.

Definition proc_3002 : process :=
  mk_process 3002 3002 (Some 3001) STATE_ATTACHED EM_PPC64 None ∅.

Definition w_before_vfork : world :=
  mk_world [proc_3001; proc_3002] [] 3002 false ∅ ∅ []
    (env_of (fun p => if p =? 3001 then PS_SLEEPING else PS_OTHER) (fun _ => false)) [].

Definition ev_exit_3002 : Event := mk_Event EVENT_EXIT (Some 3002) 0.

Definition ev_breakpoint_3002 (addr : Z) : Event :=
  mk_Event EVENT_BREAKPOINT (Some 3002) addr.

(** The handler of 2001 with the first of its two slots taken by a
    software single-step breakpoint at 0x401004. *)
Definition s_sw_singlestep : hstate :=
  mk_hstate
    (with_sws [0x401004; 0] (handler_2001 PSH_SINGLESTEP cb_keep_stepping_p))
    (world_2001 PPC64PLT_UNRESOLVED 0x401000 0x401000 [] (fun _ => false)).

(** ltrace was attached to the thread 2002 with -p. *)
Definition w_attached : world :=
  mk_world (procs_2001 PPC64PLT_UNRESOLVED 0) [] 2001 false
           {[ (2001, 0x600100) := 0 ]} ∅ []
           (mk_os_env status_2002_running (fun _ => false) (fun _ => 1) (fun _ => Some [])
                      (fun _ => false) (fun _ => false) (fun _ _ => false) true [2002])
           [].

(** Both slots of the handler of 2001 are taken. *)
Definition s_sw_full : hstate :=
  set_self (with_sws [0x401004; 0x40100c]) s_sw_singlestep.

(** The handler of 2001 at the end of an episode, ltrace being about
    to exit; 2001 stands at 0x401004. *)
Definition s_exiting : hstate :=
  set_hw (set_ip (insert 2001 0x401004)) (set_self (with_exiting true) s_sinking).

(** The handler can be allocated, the first row of its pid set not. *)
Definition w_no_rows : world :=
  set_alloc (fun _ => [true; false]) w_kill_fails.






(** * Proofs *)

(** * Reasoning about computations *)

Lemma bind_Ok {S A B} (m : M S A) (k : A -> M S B) s b s' :
  bind m k s = Ok b s' <-> exists a s1, m s = Ok a s1 /\ k a s1 = Ok b s'.
Proof.
  unfold bind. destruct (m s) as [a s1|h s1]; split.
  - intros H. by exists a, s1.
  - by intros (a' & s2 & [= -> ->] & H).
  - discriminate.
  - by intros (a' & s2 & [=] & _).
Qed.

Lemma bind_eval {S A B} (m : M S A) (k : A -> M S B) s a s1 :
  m s = Ok a s1 -> bind m k s = k a s1.
Proof. unfold bind. by intros ->. Qed.

Lemma liftW_eval {A} (m : M world A) s a w' :
  m (hw s) = Ok a w' -> liftW m s = Ok a (mk_hstate (self s) w').
Proof. unfold liftW. by intros ->. Qed.

Lemma liftW_Ok {A} (m : M world A) s a s' :
  liftW m s = Ok a s' <-> m (hw s) = Ok a (hw s') /\ self s' = self s.
Proof.
  unfold liftW. destruct (m (hw s)) as [a' w'|h w']; split.
  - by intros [= -> <-].
  - destruct s' as [h' w'']. simpl. by intros [[= -> ->] ->].
  - discriminate.
  - by intros [[=] _].
Qed.

(** * plt.c: the assertion on the .plt slot address *)

Lemma wrap64_small z : 0 <= z < 2 ^ 64 -> wrap64 z = z.
Proof. intros H. unfold wrap64. by apply Z.mod_small. Qed.

(** C10, as stated, fails: for this section of positive size the
    asserted condition is false at slot address 100, and
    [arch_elf_add_plt_entry] aborts on the assertion. *)
Lemma plt_slot_assert_fires_on_wrap :
  0 < plt_size lte_wrapping /\
  plt_slot_addr_asserted lte_wrapping 100 = false /\
  forall w, arch_elf_add_plt_entry 1 lte_wrapping "puts" (mk_rela 100 0 0) 0 w
            = Halt Abort w.
Proof. split; [done|]. split; [done|]. intros w. reflexivity. Qed.

(** C10 (amended): when [plt_addr + plt_size] does not wrap around
    2^64, the asserted condition [plt_slot_addr >= plt_addr ||
    plt_slot_addr < plt_addr + plt_size] holds for every slot address,
    whatever [plt_size]: the assertion never fires, also for a slot
    address outside the .plt section. *)
Theorem plt_slot_assert_vacuous (lte : ltelf) (plt_slot_addr : Z) :
  0 <= plt_addr lte -> 0 <= plt_size lte ->
  plt_addr lte + plt_size lte < 2 ^ 64 ->
  plt_slot_addr_asserted lte plt_slot_addr = true /\
  forall w : world, assert (plt_slot_addr_asserted lte plt_slot_addr) w = Ok tt w.
Proof.
  intros Ha Hs Hsum.
  assert (Hc : plt_slot_addr_asserted lte plt_slot_addr = true).
  { unfold plt_slot_addr_asserted. rewrite wrap64_small by lia.
    destruct (Z.leb_spec (plt_addr lte) plt_slot_addr) as [|Hlt]; [done|].
    simpl. apply Z.ltb_lt. lia. }
  split; [done|]. intros w. by rewrite Hc.
Qed.

Lemma plt_slot_assert_vacuous_witness :
  plt_slot_addr_asserted (mk_ltelf EM_PPC64 0x10010000 0x100 false 0x10000 []) 7 = true /\
  forall w : world,
    assert (plt_slot_addr_asserted
              (mk_ltelf EM_PPC64 0x10010000 0x100 false 0x10000 []) 7) w = Ok tt w.
Proof.
  apply (plt_slot_assert_vacuous (mk_ltelf EM_PPC64 0x10010000 0x100 false 0x10000 []) 7);
    simpl; lia.
Defined.

(** * plt.c: reading and rewriting a .plt slot *)

Lemma read_plt_slot_value_Some proc addr v w :
  os_host_powerpc64 (w_env w) = true ->
  w_mem w !! (proc, addr) = Some v ->
  read_plt_slot_value proc addr w
  = Ok (Some (wrap64 v)) (logged (Ptrace PTRACE_PEEKTEXT proc addr 0) w).
Proof.
  intros Hh Hm. unfold read_plt_slot_value, host_powerpc64, ptrace_peektext,
    ptrace, emit, assert, bind, gets, modify, ret. simpl.
  by rewrite Hh, Hm.
Qed.

Lemma unresolve_plt_slot_true proc addr value w :
  os_poke_fails (w_env w) proc addr = false ->
  unresolve_plt_slot proc addr value w
  = Ok true (set_mem (insert (proc, addr) value)
               (logged (Ptrace PTRACE_POKETEXT proc addr value) w)).
Proof.
  intros Hp. unfold unresolve_plt_slot, ptrace_poketext, ptrace, emit, bind,
    gets, modify, ret. simpl. by rewrite Hp.
Qed.

Lemma rechain_stubs_none a_name stubs chain :
  Forall (fun s => ls_name s <> a_name) stubs ->
  rechain_stubs a_name stubs chain = (stubs, chain).
Proof.
  induction 1 as [|sym rest Hne _ IH]; [done|]. simpl.
  rewrite bool_decide_eq_false_2 by done. by rewrite IH.
Qed.

Lemma allocate_succeeds n w :
  allocations_succeed (S n) w ->
  exists w', allocate w = Ok true w' /\ allocations_succeed n w' /\
             w' = set_alloc (drop 1) w.
Proof.
  unfold allocations_succeed, allocate. destruct w as [pr qu ti on me ip al en lo].
  simpl. destruct al as [|b rest]; simpl.
  - intros _. eexists. split; [done|]. split; [|done]. simpl.
    by rewrite take_nil.
  - intros H. apply Forall_cons in H as [-> H]. eexists. by split.
Qed.

(** C6: on PPC64 without stub symbols for the name,
    [arch_elf_add_plt_entry] classifies the symbol from the process
    image. When the .plt slot holds the PLT entry address or zero the
    symbol is UNRESOLVED with [resolved_value] the PLT entry address and
    the tracee's memory is untouched; otherwise the slot is rewritten to
    the PLT entry address and the symbol is RESOLVED with
    [resolved_value] the value read. *)
Theorem arch_elf_add_plt_entry_classifies
    (proc : Z) (lte : ltelf) (a_name : string) (rela : GElf_Rela) (ndx v : Z) (w : world) :
  e_machine lte <> EM_PPC ->
  Forall (fun s => ls_name s <> a_name) (arch_stubs lte) ->
  arch_plt_stub_vma lte <> 0 ->
  plt_slot_addr_asserted lte (r_offset rela) = true ->
  os_host_powerpc64 (w_env w) = true ->
  w_mem w !! (proc, r_offset rela) = Some v ->
  allocations_succeed 2 w ->
  let plt_entry_addr :=
    wrap64 (arch_plt_stub_vma lte + wrap64 (PPC64_PLT_STUB_SIZE * ndx)) in
  (wrap64 v = plt_entry_addr \/ wrap64 v = 0 ->
   exists sym w',
     arch_elf_add_plt_entry proc lte a_name rela ndx w = Ok (plt_ok, lte, Some [sym]) w' /\
     arch_type sym = PPC64PLT_UNRESOLVED /\
     arch_resolved_value sym = plt_entry_addr /\
     arch_plt_slot_addr sym = r_offset rela /\
     w_mem w' = w_mem w) /\
  (wrap64 v <> plt_entry_addr -> wrap64 v <> 0 ->
   os_poke_fails (w_env w) proc (r_offset rela) = false ->
   exists sym w',
     arch_elf_add_plt_entry proc lte a_name rela ndx w = Ok (plt_ok, lte, Some [sym]) w' /\
     arch_type sym = PPC64PLT_RESOLVED /\
     arch_resolved_value sym = wrap64 v /\
     arch_plt_slot_addr sym = r_offset rela /\
     w_mem w' !! (proc, r_offset rela) = Some plt_entry_addr).
Proof.
  intros Hm Hstubs Hvma Hassert Hhost Hmem Halloc entry.
  assert (Hlte : with_stubs (arch_stubs lte) lte = lte) by (by destruct lte).
  destruct (allocate_succeeds 1 (logged (Ptrace PTRACE_PEEKTEXT proc (r_offset rela) 0) w))
    as (w1 & Ha1 & Hal1 & Hw1).
  { exact Halloc. }
  destruct (allocate_succeeds 0 w1) as (w2 & Ha2 & _ & Hw2); [done|].
  assert (Hrun : arch_elf_add_plt_entry proc lte a_name rela ndx w
    = (let sym := library_symbol_init entry a_name LS_TOPLT_EXEC in
       if (wrap64 v =? entry) || (wrap64 v =? 0) then
         ret (plt_ok, lte,
              Some [with_arch PPC64PLT_UNRESOLVED (r_offset rela) entry sym])
       else
         ok <- unresolve_plt_slot proc (r_offset rela) entry ;;
         if ok : bool then
           ret (plt_ok, lte,
                Some [with_arch PPC64PLT_RESOLVED (r_offset rela) (wrap64 v) sym])
         else ret (plt_fail, lte, None)) w2).
  { unfold arch_elf_add_plt_entry, arch_plt_sym_val.
    rewrite !(bool_decide_eq_false_2 (e_machine lte = EM_PPC)) by done. simpl.
    rewrite rechain_stubs_none by done. simpl. rewrite Hlte.
    rewrite ?(bool_decide_eq_false_2 (e_machine lte = EM_PPC)) by done. simpl.
    unfold bind at 1. unfold bind at 1.
    replace (arch_plt_stub_vma lte =? 0) with false by (symmetry; by apply Z.eqb_neq).
    simpl. unfold bind at 1. rewrite Hassert. simpl.
    erewrite bind_eval by (by apply read_plt_slot_value_Some).
    cbv beta iota.
    erewrite bind_eval by exact Ha1.
    erewrite bind_eval by exact Ha2. done. }
  split.
  - intros Hv. eexists _, w2. rewrite Hrun. simpl.
    replace ((wrap64 v =? entry) || (wrap64 v =? 0)) with true.
    2:{ symmetry. apply orb_true_iff. destruct Hv; [left|right]; by apply Z.eqb_eq. }
    split; [done|]. repeat split; try done. by rewrite Hw2, Hw1.
  - intros Hne Hnz Hpoke. eexists _, _. rewrite Hrun. simpl.
    replace ((wrap64 v =? entry) || (wrap64 v =? 0)) with false.
    2:{ symmetry. apply orb_false_iff. split; by apply Z.eqb_neq. }
    erewrite bind_eval.
    2:{ apply unresolve_plt_slot_true. by rewrite Hw2, Hw1. }
    split; [done|]. repeat split; try done. simpl. by rewrite lookup_insert_eq.
Qed.

(** * The process directory *)

Lemma pid2proc_set_log p f w : pid2proc p (set_log f w) = pid2proc p w.
Proof. done. Qed.

Lemma pid2proc_set_mem p f w : pid2proc p (set_mem f w) = pid2proc p w.
Proof. done. Qed.

Lemma pid2proc_update p x f w :
  (forall q, proc_pid (f q) = proc_pid q) ->
  pid2proc p (set_procs
                (map (fun q => if bool_decide (proc_pid q = x) then f q else q)) w)
  = (fun q => if bool_decide (proc_pid q = x) then f q else q) <$> pid2proc p w.
Proof.
  intros Hf. unfold pid2proc. simpl. induction (w_procs w) as [|q l IH]; [done|].
  simpl. assert (Hpid : proc_pid (if bool_decide (proc_pid q = x) then f q else q)
                        = proc_pid q) by (case_bool_decide; [apply Hf|done]).
  rewrite Hpid. destruct (bool_decide (proc_pid q = p)); [done|apply IH].
Qed.

Lemma pid2proc_pid p w q : pid2proc p w = Some q -> proc_pid q = p.
Proof.
  unfold pid2proc. intros H. apply find_some in H as [_ H].
  by apply bool_decide_eq_true in H.
Qed.

(** * plt.c: [keep_stepping_p] *)

Lemma keep_stepping_p_eval s proc libsym bp q :
  task_enabling_breakpoint (self s) = Some proc ->
  breakpoint_being_enabled (self s) = Some bp ->
  pid2proc proc (hw s) = Some q ->
  (exists l b, pid2proc (proc_leader q) (hw s) = Some l /\
               proc_breakpoints l !! bp = Some b /\ bp_libsym b = Some libsym) ->
  os_host_powerpc64 (w_env (hw s)) = true ->
  keep_stepping_p s =
  match w_mem (hw s) !! (proc, arch_plt_slot_addr libsym) with
  | None =>
      Ok CBS_FAIL
        (set_hw (fun w =>
           logged (Stderr "ptrace .plt slot value @%#lx" [arch_plt_slot_addr libsym])
             (logged (Ptrace PTRACE_PEEKTEXT proc (arch_plt_slot_addr libsym) 0) w)) s)
  | Some v =>
      if wrap64 v =? arch_resolved_value libsym then
        Ok CBS_CONT
          (set_hw (logged (Ptrace PTRACE_PEEKTEXT proc (arch_plt_slot_addr libsym) 0)) s)
      else if os_poke_fails (w_env (hw s)) proc (arch_plt_slot_addr libsym) then
        Ok CBS_FAIL
          (set_hw (fun w =>
             logged (Stderr "unresolve .plt slot" [])
               (logged (Ptrace PTRACE_POKETEXT proc (arch_plt_slot_addr libsym)
                          (arch_resolved_value libsym))
                  (logged (Ptrace PTRACE_PEEKTEXT proc (arch_plt_slot_addr libsym) 0) w)))
             s)
      else Ok CBS_STOP (resolved_state s proc bp (proc_leader q) (wrap64 v) libsym)
  end.
Proof.
  intros Hteb Hbbe Hq (l & b & Hl & Hb & Hsym) Hhost.
  destruct s as [h w]. simpl in *.
  unfold keep_stepping_p, getself, liftW, deref_bp, breakpoints_of, get_proc, deref,
    read_plt_slot_value, host_powerpc64, ptrace_peektext, unresolve_plt_slot,
    ptrace_poketext, update_bp, update_proc, get_proc, ptrace, emit, assert, bind,
    gets, modify, ret, stop. simpl.
  repeat (progress (rewrite ?Hteb, ?Hbbe, ?Hq, ?Hl, ?Hb, ?Hsym, ?Hhost); simpl).
  destruct (w_mem w !! (proc, arch_plt_slot_addr libsym)) as [v|]; [|done].
  destruct (wrap64 v =? arch_resolved_value libsym); [done|].
  simpl. destruct (os_poke_fails (w_env w) proc (arch_plt_slot_addr libsym)); [done|].
  simpl. unfold pid2proc in *. simpl. by rewrite Hq.
Qed.

Lemma symbol_being_stepped_frame s s' proc libsym :
  self s' = self s -> w_procs (hw s') = w_procs (hw s) ->
  symbol_being_stepped s proc libsym -> symbol_being_stepped s' proc libsym.
Proof.
  intros Hself Hprocs (bp & q & l & b & H). exists bp, q, l, b.
  unfold pid2proc in *. by rewrite Hself, Hprocs.
Qed.

Lemma resolved_state_spec s proc bp q l b value libsym :
  task_enabling_breakpoint (self s) = Some proc ->
  breakpoint_being_enabled (self s) = Some bp ->
  pid2proc proc (hw s) = Some q ->
  pid2proc (proc_leader q) (hw s) = Some l ->
  proc_breakpoints l !! bp = Some b ->
  let s' := resolved_state s proc bp (proc_leader q) value libsym in
  w_mem (hw s') !! (proc, arch_plt_slot_addr libsym) = Some (arch_resolved_value libsym) /\
  symbol_being_stepped s' proc
    (with_arch PPC64PLT_RESOLVED (arch_plt_slot_addr libsym) value libsym).
Proof.
  intros Hteb Hbbe Hq Hl Hb s'. split.
  { subst s'. destruct s as [h w]. simpl. by rewrite lookup_insert_eq. }
  pose proof (pid2proc_pid _ _ _ Hl) as Hlpid.
  set (upd := with_breakpoints
                (alter (with_bp_libsym
                          (Some (with_arch PPC64PLT_RESOLVED
                                   (arch_plt_slot_addr libsym) value libsym))) bp)).
  assert (Hfind : forall p, pid2proc p (hw s')
    = (fun q0 => if bool_decide (proc_pid q0 = proc_leader q) then upd q0 else q0)
        <$> pid2proc p (hw s)).
  { intros p. subst s'. destruct s as [h w]. simpl.
    by rewrite (pid2proc_update p (proc_leader q) upd). }
  exists bp, (if bool_decide (proc_pid q = proc_leader q) then upd q else q), (upd l),
    (with_bp_libsym (Some (with_arch PPC64PLT_RESOLVED
                             (arch_plt_slot_addr libsym) value libsym)) b).
  assert (Hlead : proc_leader (if bool_decide (proc_pid q = proc_leader q)
                               then upd q else q) = proc_leader q)
    by (by case_bool_decide).
  rewrite Hlead, !Hfind, Hq, Hl. simpl.
  rewrite (bool_decide_eq_true_2 _ Hlpid).
  repeat split; try (subst s'; destruct s; done).
  by rewrite lookup_alter_eq, Hb.
Qed.

Lemma stepping_episode_resolves pre :
  forall s proc libsym f rest v,
  symbol_being_stepped s proc libsym ->
  os_host_powerpc64 (w_env (hw s)) = true ->
  os_poke_fails (w_env (hw s)) proc (arch_plt_slot_addr libsym) = false ->
  unresolved_through pre (w_mem (hw s)) proc (arch_plt_slot_addr libsym)
    (arch_resolved_value libsym) ->
  f (mem_after pre (w_mem (hw s))) !! (proc, arch_plt_slot_addr libsym) = Some v ->
  wrap64 v <> arch_resolved_value libsym ->
  exists s',
    stepping_episode (pre ++ f :: rest) s = Ok CBS_STOP s' /\
    w_mem (hw s') !! (proc, arch_plt_slot_addr libsym) = Some (arch_resolved_value libsym) /\
    symbol_being_stepped s' proc
      (with_arch PPC64PLT_RESOLVED (arch_plt_slot_addr libsym) (wrap64 v) libsym).
Proof.
  induction pre as [|g pre IH]; intros s proc libsym f rest v Hsym Hhost Hpoke Hpre Hv Hne.
  - simpl in Hv. simpl.
    set (s1 := set_hw (set_mem f) s).
    assert (Hsym1 : symbol_being_stepped s1 proc libsym)
      by (by apply (symbol_being_stepped_frame s); destruct s).
    destruct Hsym1 as (bp & q & l & b & Hteb & Hbbe & Hq & Hl & Hb & Hls).
    unfold bind, tracee_step, modify. fold s1.
    rewrite (keep_stepping_p_eval s1 proc libsym bp q) by (destruct s; eauto).
    replace (w_mem (hw s1)) with (f (w_mem (hw s))) by (by destruct s).
    rewrite Hv. rewrite (proj2 (Z.eqb_neq _ _) Hne).
    replace (os_poke_fails (w_env (hw s1))) with (os_poke_fails (w_env (hw s)))
      by (by destruct s).
    rewrite Hpoke. eexists. split; [done|].
    by apply (resolved_state_spec s1 proc bp q l b).
  - simpl in Hpre, Hv. destruct Hpre as [(v0 & Hv0 & Heq) Hpre]. simpl.
    set (s1 := set_hw (set_mem g) s).
    assert (Hsym1 : symbol_being_stepped s1 proc libsym)
      by (by apply (symbol_being_stepped_frame s); destruct s).
    pose proof Hsym1 as (bp & q & l & b & Hteb & Hbbe & Hq & Hl & Hb & Hls).
    unfold bind at 1. unfold tracee_step, modify. fold s1.
    unfold bind at 1.
    rewrite (keep_stepping_p_eval s1 proc libsym bp q) by (destruct s; eauto).
    replace (w_mem (hw s1)) with (g (w_mem (hw s))) by (by destruct s).
    rewrite Hv0. rewrite (proj2 (Z.eqb_eq _ _) Heq).
    apply IH.
    + by apply (symbol_being_stepped_frame s1); destruct s.
    + by destruct s.
    + by destruct s.
    + by destruct s.
    + by destruct s.
    + done.
Qed.

(** C1: for a PLT symbol in UNRESOLVED state, an invocation of
    [keep_stepping_p] reads the .plt slot of the tracee and answers
    [CBS_CONT] while the slot equals [resolved_value] (the PLT entry
    address), changing nothing; when the slot differs, it writes the PLT
    entry address back into the slot, stores the value read in
    [resolved_value], makes the symbol RESOLVED and answers [CBS_STOP].
    Hence an episode in which the slot keeps the PLT entry address
    through the steps [pre] and changes at the next step ends with
    [CBS_STOP], the slot holding the PLT entry address again and not
    the callee. *)
Theorem keep_stepping_p_resolution (s : hstate) (proc : Z) (libsym : library_symbol) :
  symbol_being_stepped s proc libsym ->
  arch_type libsym = PPC64PLT_UNRESOLVED ->
  os_host_powerpc64 (w_env (hw s)) = true ->
  os_poke_fails (w_env (hw s)) proc (arch_plt_slot_addr libsym) = false ->
  let slot := arch_plt_slot_addr libsym in
  let plt_entry_addr := arch_resolved_value libsym in
  (forall v, w_mem (hw s) !! (proc, slot) = Some v -> wrap64 v = plt_entry_addr ->
     keep_stepping_p s
     = Ok CBS_CONT (set_hw (logged (Ptrace PTRACE_PEEKTEXT proc slot 0)) s)) /\
  (forall v, w_mem (hw s) !! (proc, slot) = Some v -> wrap64 v <> plt_entry_addr ->
     exists s',
       keep_stepping_p s = Ok CBS_STOP s' /\
       In (Ptrace PTRACE_POKETEXT proc slot plt_entry_addr) (w_log (hw s')) /\
       w_mem (hw s') !! (proc, slot) = Some plt_entry_addr /\
       symbol_being_stepped s' proc
         (with_arch PPC64PLT_RESOLVED slot (wrap64 v) libsym)) /\
  (forall pre f rest v,
     unresolved_through pre (w_mem (hw s)) proc slot plt_entry_addr ->
     f (mem_after pre (w_mem (hw s))) !! (proc, slot) = Some v ->
     wrap64 v <> plt_entry_addr ->
     exists s',
       stepping_episode (pre ++ f :: rest) s = Ok CBS_STOP s' /\
       w_mem (hw s') !! (proc, slot) = Some plt_entry_addr /\
       wrap64 v <> plt_entry_addr /\
       symbol_being_stepped s' proc
         (with_arch PPC64PLT_RESOLVED slot (wrap64 v) libsym)).
Proof.
  intros Hsym _ Hhost Hpoke slot entry.
  pose proof Hsym as (bp & q & l & b & Hteb & Hbbe & Hq & Hl & Hb & Hls).
  split; [|split].
  - intros v Hv Heq.
    rewrite (keep_stepping_p_eval s proc libsym bp q) by eauto.
    fold slot. rewrite Hv. fold entry. by rewrite (proj2 (Z.eqb_eq _ _) Heq).
  - intros v Hv Hne.
    rewrite (keep_stepping_p_eval s proc libsym bp q) by eauto.
    fold slot. rewrite Hv. fold entry. rewrite (proj2 (Z.eqb_neq _ _) Hne).
    fold slot in Hpoke. rewrite Hpoke. eexists. split; [done|]. split.
    { destruct s as [h w]. simpl. apply in_app_iff. right. by left. }
    by apply (resolved_state_spec s proc bp q l b).
  - intros pre f rest v Hpre Hv Hne.
    destruct (stepping_episode_resolves pre s proc libsym f rest v) as (s' & H1 & H2 & H3);
      try done.
    by exists s'.
Qed.

Global Instance keeps_preorder {S X} (proj : S -> X) : PreOrder (keeps proj).
Proof.
  split; [by intros s|]. intros s1 s2 s3 H1 H2. unfold keeps in *. congruence.
Qed.

Global Instance on_world_preorder R `{!PreOrder R} : PreOrder (on_world R).
Proof.
  split; [intros s; unfold on_world; reflexivity|].
  intros s1 s2 s3 H1 H2. unfold on_world in *. by transitivity (hw s2).
Qed.

Lemma respects_ret {S A} (R : relation S) `{!PreOrder R} (a : A) : respects R (ret a).
Proof. intros s. simpl. reflexivity. Qed.

Lemma respects_stop {S A} (R : relation S) `{!PreOrder R} h : respects R (stop h : M S A).
Proof. intros s. simpl. reflexivity. Qed.

Lemma respects_gets {S A} (R : relation S) `{!PreOrder R} (f : S -> A) :
  respects R (gets f).
Proof. intros s. simpl. reflexivity. Qed.

Lemma respects_modify {S} (R : relation S) (f : S -> S) :
  (forall s, R s (f s)) -> respects R (modify f).
Proof. intros H s. apply H. Qed.

Lemma respects_bind {S A B} (R : relation S) `{!PreOrder R} (m : M S A) (k : A -> M S B) :
  respects R m -> (forall a, respects R (k a)) -> respects R (bind m k).
Proof.
  intros Hm Hk s. unfold bind. specialize (Hm s).
  destruct (m s) as [a s1|h s1]; simpl in *; [|done].
  by transitivity s1; [|apply Hk].
Qed.

Lemma respects_assert {S} (R : relation S) `{!PreOrder R} b : respects R (assert b).
Proof. destruct b; [apply respects_ret|apply respects_stop]; done. Qed.

Lemma respects_deref {S A} (R : relation S) `{!PreOrder R} (o : option A) :
  respects R (deref o).
Proof. destruct o; [apply respects_ret|apply respects_stop]; done. Qed.

Lemma respects_when {S} (R : relation S) `{!PreOrder R} b m :
  respects R m -> respects R (when b m).
Proof. intros H. destruct b; [done|by apply respects_ret]. Qed.

Lemma respects_for_each {S A} (R : relation S) `{!PreOrder R} (l : list A) body :
  (forall x, respects R (body x)) -> respects R (for_each l body).
Proof.
  intros H. induction l as [|x l IH]; simpl; [by apply respects_ret|].
  by apply respects_bind.
Qed.

Lemma respects_get_task_info {S} (R : relation S) `{!PreOrder R} ps p :
  respects R (get_task_info ps p).
Proof.
  unfold get_task_info. apply respects_bind; [done|by apply respects_assert|].
  intros _. by apply respects_ret.
Qed.

Lemma respects_liftW {A} (R : relation world) (m : M world A) :
  respects R m -> respects (on_world R) (liftW m).
Proof.
  intros H s. unfold on_world, liftW. specialize (H (hw s)).
  by destruct (m (hw s)).
Qed.

Lemma respects_liftW_self {A X} (f : process_stopping_handler -> X) (m : M world A) :
  respects (keeps (fun s => f (self s))) (liftW m).
Proof. intros s. unfold liftW, keeps. by destruct (m (hw s)). Qed.

Lemma respects_setself R `{!PreOrder R} f : respects (on_world R) (setself f).
Proof. intros s. unfold on_world. simpl. reflexivity. Qed.

Lemma respects_with_handler {A} (R : relation world) h (m : M hstate A) :
  respects (on_world R) m -> respects R (with_handler h m).
Proof.
  intros H w. unfold with_handler. specialize (H (mk_hstate h w)).
  unfold on_world in H. by destruct (m (mk_hstate h w)).
Qed.

Lemma respects_get_proc R `{!PreOrder R} p : respects R (get_proc p).
Proof. intros w. unfold get_proc. destruct (pid2proc p w); simpl; reflexivity. Qed.

Ltac solve_preorder :=
  try (match goal with |- PreOrder _ => apply _ end).

(** Decomposes a goal [respects R m] along the structure of [m]. *)
Ltac frame_step :=
  match goal with
  | |- respects _ (bind _ _) => apply respects_bind; solve_preorder; [|intros ?]
  | |- respects _ (ret _) => apply respects_ret; solve_preorder
  | |- respects _ (stop _) => apply respects_stop; solve_preorder
  | |- respects _ (gets _) => apply respects_gets; solve_preorder
  | |- respects _ (getself _) => apply respects_gets; solve_preorder
  | |- respects _ (assert _) => apply respects_assert; solve_preorder
  | |- respects _ (deref _) => apply respects_deref; solve_preorder
  | |- respects _ (when _ _) => apply respects_when; solve_preorder
  | |- respects _ (for_each _ _) => apply respects_for_each; solve_preorder; intros ?
  | |- respects _ (get_task_info _ _) => apply respects_get_task_info; solve_preorder
  | |- respects _ (get_proc _) => apply respects_get_proc; solve_preorder
  | |- respects (on_world _) (liftW _) => apply respects_liftW
  | |- respects (keeps (fun s => _ (self s))) (liftW _) => apply respects_liftW_self
  | |- respects (on_world _) (setself _) => apply respects_setself; solve_preorder
  | |- respects _ (modify _) => apply respects_modify; intros ?
  | |- respects _ (with_handler _ _) => apply respects_with_handler
  | |- respects _ (if ?b then _ else _) => destruct b
  | |- respects _ (match ?x with _ => _ end) => destruct x
  | |- respects _ (let _ := _ in _) => cbv zeta
  end.

Create HintDb frame discriminated.


Lemma respects_allocate R `{!PreOrder R} :
  (forall f w, R w (set_alloc f w)) -> respects R allocate.
Proof.
  intros H w. unfold allocate. destruct (w_alloc w); simpl; [reflexivity|apply H].
Qed.

Lemma respects_each_task_in R `{!PreOrder R} {D} ts
    (cb : Z -> D -> M world (callback_status * D)) d :
  (forall t d', respects R (cb t d')) -> respects R (each_task_in ts cb d).
Proof.
  intros H. revert d. induction ts as [|t ts IH]; intros d; simpl; [frame_step|].
  frame_step; [apply H|]. destruct (fst a); try frame_step. apply IH.
Qed.

Lemma respects_each_task R `{!PreOrder R} {D} leader
    (cb : Z -> D -> M world (callback_status * D)) d :
  (forall t d', respects R (cb t d')) -> respects R (each_task leader cb d).
Proof.
  intros H. unfold each_task. frame_step; [frame_step|].
  by apply respects_each_task_in.
Qed.

Lemma respects_each_qd_event_in R `{!PreOrder R} q cb :
  (forall e, respects R (cb e)) -> respects R (each_qd_event_in q cb).
Proof.
  intros H. induction q as [|e q IH]; simpl; [frame_step|].
  frame_step; [apply H|]. destruct a; [done|frame_step].
Qed.

Lemma respects_each_qd_event R `{!PreOrder R} cb :
  (forall e, respects R (cb e)) -> respects R (each_qd_event cb).
Proof.
  intros H. unfold each_qd_event. frame_step; [frame_step|].
  by apply respects_each_qd_event_in.
Qed.

Lemma respects_event_for_pid R `{!PreOrder R} e p : respects R (event_for_pid e p).
Proof. unfold event_for_pid. repeat frame_step. Qed.

Lemma respects_have_events_for R `{!PreOrder R} p : respects R (have_events_for p).
Proof.
  unfold have_events_for. frame_step; [|frame_step].
  apply respects_each_qd_event; [done|]. intros e. by apply respects_event_for_pid.
Qed.

Lemma respects_all_stops_accountable R `{!PreOrder R} ps :
  respects R (all_stops_accountable ps).
Proof.
  unfold all_stops_accountable. induction (tasks ps) as [|r rows IH]; simpl; [frame_step|].
  destruct (negb (pid r =? 0) && negb (got_event r)); [|done].
  frame_step; [by apply respects_have_events_for|]. destruct a; [done|frame_step].
Qed.

Lemma respects_liftW_frame {A} (m : M world A) :
  respects (keeps w_queue) m -> respects psh_frame (liftW m).
Proof.
  intros H s. unfold psh_frame, keeps, liftW. specialize (H (hw s)).
  unfold keeps in H. destruct (m (hw s)); simpl in *; by rewrite H.
Qed.

Ltac frame_psh :=
  match goal with
  | |- respects psh_frame (liftW _) => apply respects_liftW_frame
  | |- respects psh_frame (setself _) =>
      apply respects_modify; intros ?; unfold psh_frame, keeps; simpl; done
  end.

Ltac frame_known :=
  match goal with
  | |- respects _ (have_events_for _) => apply respects_have_events_for; solve_preorder
  | |- respects _ (all_stops_accountable _) =>
      apply respects_all_stops_accountable; solve_preorder
  | |- respects _ (event_for_pid _ _) => apply respects_event_for_pid; solve_preorder
  | |- respects _ allocate => apply respects_allocate; solve_preorder; intros ? ?
  | |- respects _ (each_task _ _ _) => apply respects_each_task; solve_preorder; intros ? ?
  | |- respects _ (each_qd_event _) => apply respects_each_qd_event; solve_preorder; intros ?
  end.

(** Leaves of the decomposition: a field update that the relation does
    not look at. *)
Ltac frame_leaf :=
  lazymatch goal with
  | |- keeps _ _ _ => unfold keeps; simpl; done
  | |- on_world _ _ _ => unfold on_world, keeps; simpl; done
  end.

Ltac frame_go :=
  unfold debug, perror, fprintf_stderr, ptrace, emit;
  repeat (first
    [ solve [eauto with frame nocore]
    | frame_known
    | frame_psh
    | frame_step
    | frame_leaf ]).

(** ** Nothing but [enque_event] touches the event queue *)


Lemma queue_update_proc p f : respects (keeps w_queue) (update_proc p f).
Proof. unfold update_proc. frame_go. Qed.
#[global] Hint Resolve queue_update_proc : frame.

Lemma queue_destroy_event_handler p : respects (keeps w_queue) (destroy_event_handler p).
Proof. unfold destroy_event_handler. frame_go. Qed.

Lemma queue_install_event_handler p h : respects (keeps w_queue) (install_event_handler p h).
Proof. unfold install_event_handler. frame_go. Qed.

Lemma queue_ptrace_peektext p a : respects (keeps w_queue) (ptrace_peektext p a).
Proof. unfold ptrace_peektext. frame_go. Qed.

Lemma queue_ptrace_poketext p a d : respects (keeps w_queue) (ptrace_poketext p a d).
Proof. unfold ptrace_poketext. frame_go. Qed.
#[global] Hint Resolve queue_destroy_event_handler queue_install_event_handler
  queue_ptrace_peektext queue_ptrace_poketext : frame.

Lemma queue_task_kill p sig : respects (keeps w_queue) (task_kill p sig).
Proof. unfold task_kill. frame_go. Qed.

Lemma queue_get_instruction_pointer p : respects (keeps w_queue) (get_instruction_pointer p).
Proof. unfold get_instruction_pointer. frame_go. Qed.

Lemma queue_set_instruction_pointer p a : respects (keeps w_queue) (set_instruction_pointer p a).
Proof. unfold set_instruction_pointer. frame_go. Qed.

Lemma queue_breakpoints_of l : respects (keeps w_queue) (breakpoints_of l).
Proof. unfold breakpoints_of. frame_go. Qed.
#[global] Hint Resolve queue_task_kill queue_get_instruction_pointer
  queue_set_instruction_pointer queue_breakpoints_of : frame.

Lemma queue_dict_find_entry l ip : respects (keeps w_queue) (dict_find_entry l ip).
Proof. unfold dict_find_entry. frame_go. Qed.
#[global] Hint Resolve queue_dict_find_entry : frame.

Lemma queue_address2bpstruct l ip : respects (keeps w_queue) (address2bpstruct l ip).
Proof. unfold address2bpstruct. frame_go. Qed.

Lemma queue_deref_bp t bp : respects (keeps w_queue) (deref_bp t bp).
Proof. unfold deref_bp. frame_go. Qed.

Lemma queue_update_bp t bp f : respects (keeps w_queue) (update_bp t bp f).
Proof. unfold update_bp. frame_go. Qed.

Lemma queue_insert_breakpoint p a l : respects (keeps w_queue) (insert_breakpoint p a l).
Proof. unfold insert_breakpoint. frame_go. Qed.

Lemma queue_enable_breakpoint p a : respects (keeps w_queue) (enable_breakpoint p a).
Proof. unfold enable_breakpoint. frame_go. Qed.

Lemma queue_disable_breakpoint p a : respects (keeps w_queue) (disable_breakpoint p a).
Proof. unfold disable_breakpoint. frame_go. Qed.

Lemma queue_delete_breakpoint p a : respects (keeps w_queue) (delete_breakpoint p a).
Proof. unfold delete_breakpoint. frame_go. Qed.

Lemma queue_disable_all_breakpoints l : respects (keeps w_queue) (disable_all_breakpoints l).
Proof. unfold disable_all_breakpoints. frame_go. Qed.

Lemma queue_breakpoint_on_retract b p : respects (keeps w_queue) (breakpoint_on_retract b p).
Proof. unfold breakpoint_on_retract. frame_go. Qed.

Lemma queue_remove_process p : respects (keeps w_queue) (remove_process p).
Proof. unfold remove_process. frame_go. Qed.
#[global] Hint Resolve queue_address2bpstruct queue_deref_bp queue_update_bp
  queue_insert_breakpoint queue_enable_breakpoint queue_disable_breakpoint
  queue_delete_breakpoint queue_disable_all_breakpoints
  queue_breakpoint_on_retract queue_remove_process : frame.

Lemma queue_read_plt_slot_value p a : respects (keeps w_queue) (read_plt_slot_value p a).
Proof. unfold read_plt_slot_value, host_powerpc64. frame_go. Qed.

Lemma queue_unresolve_plt_slot p a v : respects (keeps w_queue) (unresolve_plt_slot p a v).
Proof. unfold unresolve_plt_slot. frame_go. Qed.

Lemma queue_untrace_pid p : respects (keeps w_queue) (untrace_pid p).
Proof. unfold untrace_pid. frame_go. Qed.

Lemma queue_apply_threads p b : respects (keeps w_queue) (apply_threads p b).
Proof. unfold apply_threads. frame_go. Qed.
#[global] Hint Resolve queue_read_plt_slot_value queue_unresolve_plt_slot queue_untrace_pid
  queue_apply_threads : frame.

Lemma queue_continue_process p : respects (keeps w_queue) (continue_process p).
Proof. unfold continue_process, resume_threads. frame_go. Qed.
#[global] Hint Resolve queue_continue_process : frame.

Lemma queue_task_stopped t : respects (keeps w_queue) (task_stopped t).
Proof. unfold task_stopped, process_status_of. frame_go. Qed.
#[global] Hint Resolve queue_task_stopped : frame.

Lemma queue_task_blocked t ps : respects (keeps w_queue) (task_blocked t ps).
Proof. unfold task_blocked. frame_go. Qed.

Lemma queue_ugly_workaround p : respects (keeps w_queue) (ugly_workaround p).
Proof. unfold ugly_workaround. frame_go. Qed.

Lemma queue_undo_breakpoint e l : respects (keeps w_queue) (undo_breakpoint e l).
Proof. unfold undo_breakpoint. frame_go. Qed.
#[global] Hint Resolve queue_task_blocked queue_ugly_workaround queue_undo_breakpoint : frame.

Lemma queue_untrace_task d t u : respects (keeps w_queue) (untrace_task d t u).
Proof. unfold untrace_task. frame_go. Qed.

Lemma queue_remove_task d t u : respects (keeps w_queue) (remove_task d t u).
Proof. unfold remove_task. frame_go. Qed.

Lemma queue_proc_each_breakpoint l :
  respects (keeps w_queue) (proc_each_breakpoint l retract_breakpoint_cb).
Proof. unfold proc_each_breakpoint, retract_breakpoint_cb. frame_go. Qed.
#[global] Hint Resolve queue_untrace_task queue_remove_task queue_proc_each_breakpoint : frame.

Lemma queue_untrace_attached l its : respects (keeps w_queue) (untrace_attached l its).
Proof. induction its as [|it its IH]; simpl; frame_go. Qed.
#[global] Hint Resolve queue_untrace_attached : frame.

Lemma queue_detach_process l : respects (keeps w_queue) (detach_process l).
Proof. unfold detach_process. frame_go. Qed.

Lemma queue_handle_stopping_event ti e ps :
  respects (keeps w_queue) (handle_stopping_event ti e ps).
Proof. unfold handle_stopping_event. frame_go. Qed.

Lemma queue_continue_for_sigstop_delivery ps :
  respects (keeps w_queue) (continue_for_sigstop_delivery ps).
Proof. unfold continue_for_sigstop_delivery. frame_go. Qed.

Lemma queue_await_sigstop_delivery ps ti e :
  respects (keeps w_queue) (await_sigstop_delivery ps ti e).
Proof. unfold await_sigstop_delivery. frame_go. Qed.
#[global] Hint Resolve queue_detach_process queue_handle_stopping_event
  queue_continue_for_sigstop_delivery queue_await_sigstop_delivery : frame.

Lemma queue_keep_stepping_p : respects psh_frame keep_stepping_p.
Proof. unfold keep_stepping_p. frame_go. Qed.
#[global] Hint Resolve queue_keep_stepping_p : frame.

Lemma queue_run_predicate cb : respects psh_frame (run_predicate cb).
Proof. unfold run_predicate, no. frame_go. Qed.
#[global] Hint Resolve queue_run_predicate : frame.

Lemma queue_goto_ugly_workaround : respects psh_frame goto_ugly_workaround.
Proof. unfold goto_ugly_workaround. frame_go. Qed.
#[global] Hint Resolve queue_goto_ugly_workaround : frame.

Lemma queue_process_stopping_done l :
  respects psh_frame (process_stopping_done l).
Proof. unfold process_stopping_done. frame_go. Qed.

Lemma queue_remove_sw_breakpoints p :
  respects psh_frame (remove_sw_breakpoints p).
Proof. unfold remove_sw_breakpoints. frame_go. Qed.
#[global] Hint Resolve queue_process_stopping_done queue_remove_sw_breakpoints : frame.

Lemma queue_breakpoint_on_hit b p :
  respects psh_frame (breakpoint_on_hit b p).
Proof. unfold breakpoint_on_hit, sw_singlestep_bp_on_hit. frame_go. Qed.

Lemma queue_singlestep : respects psh_frame singlestep.
Proof. unfold singlestep, suspend_threads. frame_go. Qed.

Lemma queue_post_singlestep e : respects psh_frame (post_singlestep e).
Proof. unfold post_singlestep. frame_go. Qed.

Lemma queue_singlestep_error : respects psh_frame singlestep_error.
Proof. unfold singlestep_error. frame_go. Qed.

Lemma queue_pt_continue : respects psh_frame pt_continue.
Proof. unfold pt_continue. frame_go. Qed.
#[global] Hint Resolve queue_breakpoint_on_hit queue_singlestep queue_post_singlestep
  queue_singlestep_error queue_pt_continue : frame.

Lemma queue_pt_singlestep : respects psh_frame pt_singlestep.
Proof. unfold pt_singlestep. frame_go. Qed.
#[global] Hint Resolve queue_pt_singlestep : frame.

Lemma queue_disable_and m :
  respects psh_frame m ->
  respects psh_frame (disable_and m).
Proof. intros H. unfold disable_and. frame_go. Qed.

Lemma queue_run_all_stopped cb : respects psh_frame (run_all_stopped cb).
Proof.
  unfold run_all_stopped, ptrace_disable_and_singlestep, ptrace_disable_and_continue.
  destruct cb; apply queue_disable_and; frame_go.
Qed.

Lemma queue_case_PSH_SINKING l ti e :
  respects psh_frame (case_PSH_SINKING l ti e).
Proof. unfold case_PSH_SINKING. frame_go. Qed.
#[global] Hint Resolve queue_run_all_stopped queue_case_PSH_SINKING : frame.

Lemma queue_goto_psh_sinking l ti e :
  respects psh_frame (goto_psh_sinking l ti e).
Proof. unfold goto_psh_sinking. frame_go. Qed.
#[global] Hint Resolve queue_goto_psh_sinking : frame.

Lemma queue_goto_do_singlestep l ti e :
  respects psh_frame (goto_do_singlestep l ti e).
Proof. unfold goto_do_singlestep. frame_go. Qed.

Lemma queue_case_PSH_STOPPING l : respects psh_frame (case_PSH_STOPPING l).
Proof. unfold case_PSH_STOPPING. frame_go. Qed.
#[global] Hint Resolve queue_goto_do_singlestep queue_case_PSH_STOPPING : frame.

Lemma queue_case_PSH_SINGLESTEP l t teb ti e :
  respects psh_frame (case_PSH_SINGLESTEP l t teb ti e).
Proof. unfold case_PSH_SINGLESTEP. frame_go. Qed.

Lemma queue_case_PSH_UGLY_WORKAROUND l t teb e :
  respects psh_frame (case_PSH_UGLY_WORKAROUND l t teb e).
Proof. unfold case_PSH_UGLY_WORKAROUND. frame_go. Qed.
#[global] Hint Resolve queue_case_PSH_SINGLESTEP queue_case_PSH_UGLY_WORKAROUND : frame.

Lemma queue_psh_switch st l t teb ti e : respects psh_frame (psh_switch st l t teb ti e).
Proof. unfold psh_switch. frame_go. Qed.

(** * Results of computations

    [ensures m Q]: when [m] returns, its result satisfies [Q]. *)

Lemma ensures_ret {S A} (a : A) (Q : A -> Prop) : Q a -> ensures (ret a : M S A) Q.
Proof. intros H s a' s' [= <- _]. done. Qed.

Lemma ensures_bind {S A B} (m : M S A) (k : A -> M S B) (Q : B -> Prop) :
  (forall a, ensures (k a) Q) -> ensures (bind m k) Q.
Proof.
  intros H s b s' Hb. apply bind_Ok in Hb as (a & s1 & _ & Hk). by eapply H.
Qed.

Lemma ensures_bind_with {S A B} (P : A -> Prop) (m : M S A) (k : A -> M S B)
    (Q : B -> Prop) :
  ensures m P -> (forall a, P a -> ensures (k a) Q) -> ensures (bind m k) Q.
Proof.
  intros Hm H s b s' Hb. apply bind_Ok in Hb as (a & s1 & Ha & Hk).
  eapply H; [|done]. by eapply Hm.
Qed.

Lemma ensures_stop {S A} h (Q : A -> Prop) : ensures (stop h : M S A) Q.
Proof. intros s a s' [=]. Qed.

Lemma respects_Ok {S A} (R : relation S) (m : M S A) s a s' :
  respects R m -> m s = Ok a s' -> R s s'.
Proof. intros H Hm. specialize (H s). by rewrite Hm in H. Qed.

Ltac ensures_go :=
  repeat (match goal with
          | |- ensures (ret _) _ => apply ensures_ret
          | |- ensures (stop _) _ => apply ensures_stop
          | |- ensures (bind _ _) _ => apply ensures_bind; intros ?
          | |- ensures (if ?b then _ else _) _ => destruct b eqn:?
          | |- ensures (match ?x with _ => _ end) _ => destruct x eqn:?
          end).

(** ** What the switch of [process_stopping_on_event] does to [event] *)

Lemma post_singlestep_result event :
  ensures (post_singlestep event) (fun ev' =>
    ev' = match event with
          | Some e => if bool_decide (ev_type e = EVENT_BREAKPOINT) then None else Some e
          | None => None
          end).
Proof. unfold post_singlestep. ensures_go; done. Qed.

Lemma goto_do_singlestep_result leader task_info event :
  ensures (goto_do_singlestep leader task_info event)
    (fun ev' => ev' = event \/ ev' = None).
Proof.
  unfold goto_do_singlestep. apply ensures_bind. intros [|]; [by apply ensures_ret; left|].
  apply ensures_bind. intros _.
  eapply ensures_bind_with; [apply post_singlestep_result|].
  intros ev' ->. ensures_go.
  destruct event as [e|]; [|by right]. case_bool_decide; [by right|by left].
Qed.

Lemma goto_do_singlestep_keeps leader task_info e :
  ev_type e <> EVENT_BREAKPOINT ->
  ensures (goto_do_singlestep leader task_info (Some e)) (fun ev' => ev' = Some e).
Proof.
  intros Hne. unfold goto_do_singlestep. apply ensures_bind.
  intros [|]; [by apply ensures_ret|].
  apply ensures_bind. intros _.
  eapply ensures_bind_with; [apply post_singlestep_result|].
  intros ev' ->. ensures_go. by rewrite bool_decide_eq_false_2.
Qed.

Lemma psh_switch_result st leader task teb task_info event :
  ensures (psh_switch st leader task teb task_info event)
    (fun ev' => ev' = event \/ ev' = None).
Proof.
  unfold psh_switch. destruct st.
  - ensures_go. by left.
  - unfold case_PSH_SINGLESTEP. destruct event as [e|]; [|by apply ensures_ret; left].
    case_bool_decide; [|by apply ensures_ret; left].
    apply ensures_bind. intros _. case_bool_decide.
    { apply goto_do_singlestep_result. }
    apply ensures_bind. intros [| |].
    + do 4 (apply ensures_bind; intros ?).
      eapply ensures_bind_with; [apply post_singlestep_result|].
      intros ev' ->. ensures_go. case_bool_decide; [by right|by left].
    + case_bool_decide.
      * intros s a s' Hgo. right.
        by destruct (goto_do_singlestep_result _ _ _ _ _ _ Hgo).
      * apply goto_do_singlestep_result.
    + do 4 (apply ensures_bind; intros ?).
      eapply ensures_bind_with; [apply post_singlestep_result|].
      intros ev' ->. ensures_go. case_bool_decide; [by right|by left].
  - ensures_go. by left.
  - unfold case_PSH_UGLY_WORKAROUND. ensures_go; (by left) || (by right).
Qed.

Lemma psh_switch_keeps st leader task teb task_info event :
  st = PSH_STOPPING \/ st = PSH_SINKING \/
  (st = PSH_SINGLESTEP /\ forall e, event = Some e -> ev_type e <> EVENT_BREAKPOINT) ->
  ensures (psh_switch st leader task teb task_info event) (fun ev' => ev' = event).
Proof.
  unfold psh_switch. intros [->|[->|[-> Hne]]].
  - ensures_go. done.
  - ensures_go. done.
  - unfold case_PSH_SINGLESTEP. destruct event as [e|]; [|by apply ensures_ret].
    specialize (Hne e eq_refl).
    case_bool_decide; [|by apply ensures_ret].
    apply ensures_bind. intros _. case_bool_decide.
    { by apply goto_do_singlestep_keeps. }
    apply ensures_bind. intros [| |].
    + do 4 (apply ensures_bind; intros ?).
      eapply ensures_bind_with; [apply post_singlestep_result|].
      intros ev' ->. ensures_go. by rewrite bool_decide_eq_false_2.
    + rewrite bool_decide_eq_false_2 by done. by apply goto_do_singlestep_keeps.
    + do 4 (apply ensures_bind; intros ?).
      eapply ensures_bind_with; [apply post_singlestep_result|].
      intros ev' ->. ensures_go. by rewrite bool_decide_eq_false_2.
Qed.

(** Inversion of a computation that returned. *)
Ltac inv_ok H :=
  lazymatch type of H with
  | bind _ _ _ = Ok _ _ =>
      let a := fresh "a" in let s1 := fresh "s" in
      let H1 := fresh "Hm" in let H2 := fresh "Hk" in
      apply bind_Ok in H as (a & s1 & H1 & H2); inv_ok H1; inv_ok H2
  | ret _ _ = Ok _ _ => injection H as ? ?; subst
  | gets _ _ = Ok _ _ => injection H as ? ?; subst
  | getself _ _ = Ok _ _ => injection H as ? ?; subst
  | modify _ _ = Ok _ _ => injection H as ? ?; subst
  | setself _ _ = Ok _ _ => injection H as ? ?; subst
  | stop _ _ = Ok _ _ => discriminate H
  | Halt _ _ = Ok _ _ => discriminate H
  | Ok _ _ = Ok _ _ => injection H as ? ?; subst
  | deref ?o _ = Ok _ _ => destruct o eqn:?; [injection H as ? ?; subst|discriminate H]
  | assert ?b _ = Ok _ _ => destruct b eqn:?; [injection H as ? ?; subst|discriminate H]
  | when ?b _ _ = Ok _ _ => destruct b eqn:?; simpl in H; inv_ok H
  | (if ?b then _ else _) _ = Ok _ _ => destruct b eqn:?; inv_ok H
  | (match ?x with _ => _ end) _ = Ok _ _ => destruct x eqn:?; inv_ok H
  | get_task_info _ _ _ = Ok _ _ => unfold get_task_info in H; inv_ok H
  | _ => idtac
  end.

(** Whether [handle_stopping_event] sinks the event: a SIGSTOP for a
    task whose row says one was sent and not yet delivered. *)
Lemma handle_stopping_event_result task_info event ps :
  ensures (handle_stopping_event task_info event ps)
    (fun r => fst r = if expects_sigstop ps task_info event then None else Some event).
Proof.
  intros w r w' H. unfold handle_stopping_event, expects_sigstop in *.
  destruct task_info as [i|]; [|by inv_ok H].
  destruct (bool_decide (ev_type event = EVENT_SIGNAL) && (e_un event =? SIGSTOP)) eqn:Hsig.
  2:{ inv_ok H. cbn [fst]. by destruct (tasks ps !! i). }
  apply bind_Ok in H as (row & w1 & Hrow & H).
  unfold set_row in Hrow. cbn [tasks with_tasks] in Hrow.
  rewrite list_lookup_alter_eq in Hrow.
  destruct (tasks ps !! i) as [row0|]; simpl in Hrow; [|discriminate Hrow].
  injection Hrow as <- <-. cbn [sigstopped delivered with_got_event andb] in *.
  destruct (sigstopped row0 && negb (delivered row0)); by inv_ok H.
Qed.

Lemma psh_prelude_result task event s task_info ev1 event_to_queue s1 :
  psh_prelude task event s = Ok (task_info, ev1, event_to_queue) s1 ->
  task_info = fst <$> list_find (fun t => pid t = task) (tasks (pids (self s))) /\
  ev1 = (if expects_sigstop (pids (self s)) task_info event then None else Some event) /\
  event_to_queue = negb (event_exit_or_none_p ev1)
                   && negb (bool_decide (ev_type event = EVENT_SYSRET)).
Proof.
  intros H. unfold psh_prelude in H.
  apply bind_Ok in H as (? & s2 & Hdbg & H). apply liftW_Ok in Hdbg as [_ Hself].
  apply bind_Ok in H as (ps & s3 & Hps & H). inv_ok Hps.
  apply bind_Ok in H as (ti & s4 & Hti & H). inv_ok Hti.
  apply bind_Ok in H as (? & s5 & _ & H).
  apply bind_Ok in H as (r & s6 & Hr & H).
  apply liftW_Ok in Hr as [Hr _].
  apply handle_stopping_event_result in Hr.
  apply bind_Ok in H as (? & s7 & _ & H).
  apply bind_Ok in H as (? & s8 & _ & H).
  apply bind_Ok in H as (etq & s9 & Hetq & H).
  injection H as <- <- <- <-. rewrite Hself in *.
  split; [done|]. split; [done|]. rewrite Hr in *.
  destruct (expects_sigstop _ _ _).
  - by inv_ok Hetq.
  - case_bool_decide; inv_ok Hetq.
    + by rewrite andb_false_r.
    + simpl. by rewrite andb_true_r.
Qed.

Lemma queue_psh_prelude task event :
  respects (on_world (keeps w_queue)) (psh_prelude task event).
Proof. unfold psh_prelude. frame_go. Qed.

Lemma queue_or_return_result event event_to_queue s r s' :
  queue_or_return event event_to_queue s = Ok r s' ->
  match event with
  | Some e =>
      if event_to_queue
      then r = None /\ w_queue (hw s') = w_queue (hw s) ++ [e]
      else r = Some e /\ w_queue (hw s') = w_queue (hw s)
  | None => r = None /\ w_queue (hw s') = w_queue (hw s)
  end.
Proof.
  unfold queue_or_return. intros H. destruct event as [e|]; [|by inv_ok H].
  destruct event_to_queue; [|by inv_ok H].
  apply bind_Ok in H as (? & s1 & Hq & H). injection H as <- <-.
  apply liftW_Ok in Hq as [Hq _]. unfold enque_event, modify in Hq.
  injection Hq as _ Hq. split; [done|]. by rewrite <- Hq.
Qed.

(** What one call of the handler does with an event, in terms of the
    state the call starts in. *)
Lemma process_stopping_on_event_steps event s r s' :
  process_stopping_on_event event s = Ok r s' ->
  exists task ev1 etq ev2 s2,
    ev_proc event = Some task /\
    ev1 = (if expected_sigstop s event then None else Some event) /\
    etq = negb (event_exit_or_none_p ev1)
          && negb (bool_decide (ev_type event = EVENT_SYSRET)) /\
    (ev2 = ev1 \/ ev2 = None) /\
    (state (self s) = PSH_STOPPING \/ state (self s) = PSH_SINKING \/
     (state (self s) = PSH_SINGLESTEP /\
      forall e, ev1 = Some e -> ev_type e <> EVENT_BREAKPOINT) -> ev2 = ev1) /\
    w_queue (hw s2) = w_queue (hw s) /\
    queue_or_return ev2 etq s2 = Ok r s'.
Proof.
  intros H. unfold process_stopping_on_event in H.
  apply bind_Ok in H as (task & s0 & Htask & H).
  destruct (ev_proc event) as [task'|] eqn:Hproc; [|discriminate Htask].
  injection Htask as <- <-.
  apply bind_Ok in H as (tp & s0 & Htp & H). apply liftW_Ok in Htp as [Htp Hself0].
  assert (Hq0 : w_queue (hw s0) = w_queue (hw s)).
  { unfold get_proc in Htp. destruct (pid2proc task' (hw s)); [|discriminate Htp].
    by injection Htp as _ <-. }
  apply bind_Ok in H as (teb & s0' & Hteb & H). injection Hteb as <- <-.
  apply bind_Ok in H as (st & s0' & Hst & H). injection Hst as <- <-.
  apply bind_Ok in H as ([[ti ev1] etq] & s1 & Hpre & H).
  apply bind_Ok in H as (ev2 & s2 & Hsw & H).
  pose proof (respects_Ok _ _ _ _ _ (queue_psh_prelude task' event) Hpre) as Hq1.
  pose proof (respects_Ok _ _ _ _ _ (queue_psh_switch _ _ _ _ _ _) Hsw) as Hq2.
  apply psh_prelude_result in Hpre as (Hti & Hev1 & Hetq).
  unfold on_world, keeps in Hq1. unfold psh_frame, keeps in Hq2.
  injection Hq2 as Hq2 _. cbn [fst snd] in *.
  exists task', ev1, etq, ev2, s2.
  unfold expected_sigstop. rewrite Hproc, <- Hself0, <- Hti.
  split; [done|]. split; [done|]. split; [done|].
  split; [by eapply psh_switch_result|].
  split; [|split; [congruence|done]].
  intros Hstate. eapply psh_switch_keeps; [|done]. exact Hstate.
Qed.


(** * trace.c: [continue_process] *)

Lemma have_events_for_eval p w : have_events_for p w = Ok (queued_for p w) w.
Proof.
  unfold have_events_for, each_qd_event, queued_for, bind, gets.
  assert (H : forall q, each_qd_event_in q (fun ev => event_for_pid ev p) w
    = Ok (List.find (fun e => bool_decide (ev_proc e = Some p)) q) w).
  { induction q as [|e q IH]; [done|]. simpl. unfold bind, event_for_pid.
    destruct (ev_proc e) as [p'|] eqn:He; simpl.
    - destruct (decide (p' = p)) as [->|Hne].
      + by rewrite !bool_decide_eq_true_2.
      + rewrite (bool_decide_eq_false_2 (p' = p)) by done.
        rewrite (bool_decide_eq_false_2 (Some p' = Some p)) by congruence. apply IH.
    - apply IH. }
  rewrite H. unfold ret. f_equal.
  induction (w_queue w) as [|e q IH]; [done|]. simpl.
  by destruct (bool_decide (ev_proc e = Some p)).
Qed.

Lemma queued_for_spec p w :
  queued_for p w = true <-> exists e, e ∈ w_queue w /\ ev_proc e = Some p.
Proof.
  unfold queued_for. rewrite existsb_exists. split.
  - intros (e & Hin & He). exists e. split; [by apply list_elem_of_In|].
    by apply bool_decide_eq_true in He.
  - intros (e & Hin & He). exists e. split; [by apply list_elem_of_In|].
    by apply bool_decide_eq_true.
Qed.

Lemma resumes_app p l1 l2 : resumes p (l1 ++ l2) = resumes p l1 ++ resumes p l2.
Proof. apply List.filter_app. Qed.

Lemma apply_threads_resumes p q b :
  respects (keeps (fun w => (w_queue w, resumes p (w_log w)))) (apply_threads q b).
Proof.
  destruct b; unfold apply_threads, perror, ptrace, emit;
  repeat (first
    [ frame_known | frame_step
    | match goal with
      | |- keeps _ _ _ =>
          unfold keeps; simpl; rewrite ?resumes_app; simpl; rewrite ?app_nil_r; done
      end ]).
Qed.

Lemma continue_process_outcome p w :
  match continue_process p w with
  | Ok _ w' =>
      w_queue w' = w_queue w /\
      resumes p (w_log w')
      = resumes p (w_log w) ++ (if queued_for p w then [] else [Ptrace PT_SYSCALL p 1 0])
  | Halt _ w' =>
      w_queue w' = w_queue w /\ resumes p (w_log w') = resumes p (w_log w)
  end.
Proof.
  set (w1 := logged (Debug "continue_process: pid=%d" [p]) w).
  assert (Hw1 : resumes p (w_log w1) = resumes p (w_log w)).
  { subst w1. simpl. rewrite resumes_app. simpl. by rewrite app_nil_r. }
  assert (Htail : forall w2,
    w_queue w2 = w_queue w -> resumes p (w_log w2) = resumes p (w_log w) ->
    exists w3,
      (queued <- have_events_for p ;;
       if negb queued then ptrace PT_SYSCALL p 1 0
       else debug "putting off the continue, events in que." []) w2 = Ok tt w3 /\
      w_queue w3 = w_queue w /\
      resumes p (w_log w3)
      = resumes p (w_log w) ++ (if queued_for p w then [] else [Ptrace PT_SYSCALL p 1 0])).
  { intros w2 Hq Hr. unfold bind. rewrite have_events_for_eval.
    replace (queued_for p w2) with (queued_for p w) by (unfold queued_for; by rewrite Hq).
    destruct (queued_for p w); simpl.
    - eexists. split; [done|]. simpl. rewrite resumes_app, Hr. done.
    - eexists. split; [done|]. simpl. rewrite resumes_app, Hr. simpl.
      by rewrite bool_decide_eq_true_2. }
  assert (Hrun : continue_process p w
    = (when (w_curthread_onstep w1) (resume_threads p) ;;
       queued <- have_events_for p ;;
       if negb queued then ptrace PT_SYSCALL p 1 0
       else debug "putting off the continue, events in que." []) w1) by done.
  rewrite Hrun. clear Hrun.
  destruct (w_curthread_onstep w1); simpl.
  - pose proof (apply_threads_resumes p p false w1) as Hres.
    unfold keeps, resume_threads in *. unfold bind at 1.
    destruct (apply_threads p false w1) as [[] w2|h w2]; simpl in Hres.
    + injection Hres as Hq Hr.
      destruct (Htail w2) as (w3 & Hrun & Hlog);
        [exact Hq|by etrans; [exact Hr|exact Hw1]|].
      by rewrite Hrun.
    + injection Hres as Hq Hr. split; [done|]. by etrans; [exact Hr|exact Hw1].
  - unfold bind at 1. unfold ret at 1.
    destruct (Htail w1) as (w3 & Hrun & Hlog); [done|done|]. by rewrite Hrun.
Qed.

(** C2: [continue_process(pid)] issues the syscall-mode continue
    [PT_SYSCALL] when the event queue holds no event whose process has
    that pid, and only then: with such an event queued, no request that
    sets the tracee running is issued, however the call ends. *)
Theorem continue_process_policy (p : Z) (w : world) :
  (queued_for p w = true <-> exists e, e ∈ w_queue w /\ ev_proc e = Some p) /\
  (queued_for p w = true ->
   resumes p (w_log (final (continue_process p w))) = resumes p (w_log w)) /\
  (forall w', continue_process p w = Ok tt w' ->
   resumes p (w_log w')
   = resumes p (w_log w) ++ (if queued_for p w then [] else [Ptrace PT_SYSCALL p 1 0])).
Proof.
  split; [apply queued_for_spec|].
  pose proof (continue_process_outcome p w) as H.
  destruct (continue_process p w) as [[] w1|h w1]; simpl; destruct H as [Hq Hr].
  - split.
    + intros Hqd. rewrite Hr, Hqd. by rewrite app_nil_r.
    + by intros w' [= <-].
  - split; [done|]. intros w' [=].
Qed.

(** * trace.c: exits during a stopping episode *)

Lemma final_bind {S A B} (m : M S A) (k : A -> M S B) s a s1 :
  m s = Ok a s1 -> final (bind m k s) = final (k a s1).
Proof. intros H. unfold bind. by rewrite H. Qed.

Lemma psh_prelude_exit task event s i row :
  task <> 0 ->
  list_find (fun t => pid t = task) (tasks (pids (self s))) = Some (i, row) ->
  ev_type event = EVENT_EXIT \/ ev_type event = EVENT_EXIT_SIGNAL ->
  exists s1,
    psh_prelude task event s = Ok (Some i, Some event, false) s1 /\
    pids (self s1)
    = set_row i (with_pid 0) (set_row i (with_got_event true) (pids (self s))).
Proof.
  intros Hnz Hfind Htype.
  unfold psh_prelude, get_task_info, handle_stopping_event.
  unfold bind, liftW, debug, emit, modify, getself, gets, assert, ret, when, setself.
  destruct event as [ty pr un]. simpl in *.
  rewrite (proj2 (Z.eqb_neq _ _) Hnz). simpl. rewrite Hfind. simpl.
  destruct Htype as [-> | ->]; simpl; by eexists.
Qed.

Lemma frame_switch_then_return st l t teb ti e :
  respects psh_frame (ev <- psh_switch st l t teb ti e ;; queue_or_return ev false).
Proof.
  frame_step; [apply queue_psh_switch|].
  unfold queue_or_return. destruct a; frame_go.
Qed.

Lemma process_stopping_on_event_exit event s task tp i row :
  ev_proc event = Some task ->
  task <> 0 ->
  pid2proc task (hw s) = Some tp ->
  list_find (fun t => pid t = task) (tasks (pids (self s))) = Some (i, row) ->
  ev_type event = EVENT_EXIT \/ ev_type event = EVENT_EXIT_SIGNAL ->
  pids (self (final (process_stopping_on_event event s)))
  = set_row i (with_pid 0) (set_row i (with_got_event true) (pids (self s))).
Proof.
  intros Hproc Hnz Htp Hfind Htype.
  unfold process_stopping_on_event. rewrite Hproc.
  erewrite final_bind by done.
  erewrite final_bind by (apply liftW_eval; unfold get_proc; by rewrite Htp).
  erewrite final_bind by done.
  erewrite final_bind by done.
  destruct (psh_prelude_exit task event (mk_hstate (self s) (hw s)) i row)
    as (s1 & Hpre & Hpids); [done..|].
  erewrite final_bind by exact Hpre.
  pose proof (frame_switch_then_return (state (self s)) (proc_leader tp) task
                (task_enabling_breakpoint (self s)) (Some i) (Some event) s1) as Hfr.
  unfold psh_frame, keeps in Hfr. injection Hfr as _ Hfr.
  simpl in *. by rewrite Hfr, Hpids.
Qed.

Lemma all_stops_accountable_eval ps w :
  all_stops_accountable ps w
  = Ok (forallb (fun r => (pid r =? 0) || got_event r || queued_for (pid r) w) (tasks ps)) w.
Proof.
  unfold all_stops_accountable. induction (tasks ps) as [|r rows IH]; [done|].
  simpl. destruct (pid r =? 0); simpl; [apply IH|].
  destruct (got_event r); simpl; [apply IH|].
  unfold bind. rewrite have_events_for_eval.
  destruct (queued_for (pid r) w); [apply IH|done].
Qed.

(** C9: when a task of the stopping set exits during an episode, the
    handler sets the [pid] of its row to 0, however the call ends; and
    [all_stops_accountable] ignores every row whose [pid] is 0: its
    answer is the same without such a row, so that a row of an exited
    task never makes it answer false. *)
Theorem exited_task_is_accounted (event : Event) (s : hstate) (task : Z) (tp : process)
    (i : nat) (row : pid_task) :
  ev_proc event = Some task ->
  task <> 0 ->
  pid2proc task (hw s) = Some tp ->
  list_find (fun t => pid t = task) (tasks (pids (self s))) = Some (i, row) ->
  ev_type event = EVENT_EXIT \/ ev_type event = EVENT_EXIT_SIGNAL ->
  let s' := final (process_stopping_on_event event s) in
  (exists row', tasks (pids (self s')) !! i = Some row' /\ pid row' = 0) /\
  (forall (ps : pid_set) (w : world) (j : nat) (r : pid_task),
     tasks ps !! j = Some r -> pid r = 0 ->
     all_stops_accountable ps w = all_stops_accountable (with_tasks (delete j) ps) w) /\
  (forall (ps : pid_set) (w : world),
     Forall (fun r => pid r = 0) (tasks ps) -> all_stops_accountable ps w = Ok true w) /\
  all_stops_accountable (pids (self s')) (hw s')
  = all_stops_accountable (with_tasks (delete i) (pids (self s'))) (hw s').
Proof.
  intros Hproc Hnz Htp Hfind Htype s'.
  assert (Hignore : forall (ps : pid_set) (w : world) (j : nat) (r : pid_task),
     tasks ps !! j = Some r -> pid r = 0 ->
     all_stops_accountable ps w = all_stops_accountable (with_tasks (delete j) ps) w).
  { intros ps w j r Hj Hr. rewrite !all_stops_accountable_eval. f_equal.
    destruct ps as [rows al]. simpl in *.
    revert j Hj. induction rows as [|r0 rows IH]; intros j Hj; [done|].
    destruct j as [|j]; simpl in *.
    - injection Hj as ->. by rewrite Hr.
    - by rewrite (IH j Hj). }
  assert (Hrow : exists row', tasks (pids (self s')) !! i = Some row' /\ pid row' = 0).
  { subst s'. rewrite (process_stopping_on_event_exit event s task tp i row) by done.
    apply list_find_Some in Hfind as (Hi & _ & _).
    exists (with_pid 0 (with_got_event true row)). split; [|done].
    unfold set_row. simpl. by rewrite !list_lookup_alter_eq, Hi. }
  split; [done|]. split; [done|]. split.
  - intros ps w Hall. rewrite all_stops_accountable_eval. f_equal.
    induction Hall as [|r rows Hr _ IH]; [done|]. simpl. by rewrite Hr.
  - destruct Hrow as (row' & Hi & Hz). by apply (Hignore _ _ i row').
Qed.

(** * trace.c: [process_stopping_done] *)

Lemma continued_app l1 l2 : continued (l1 ++ l2) = continued l1 ++ continued l2.
Proof. apply flat_map_app. Qed.

Lemma handlers_update p f w :
  (forall q, proc_pid (f q) = proc_pid q) ->
  (forall q, proc_event_handler (f q) = proc_event_handler q) ->
  handlers (set_procs (map (fun q => if bool_decide (proc_pid q = p) then f q else q)) w)
  = handlers w.
Proof.
  intros Hpid Hh. unfold handlers. simpl. rewrite map_map. apply map_ext.
  intros q. case_bool_decide; [|done]. by rewrite Hpid, Hh.
Qed.

(** Leaves of the decomposition for relations that look at the log or
    at the handlers. *)
Ltac log_leaf :=
  lazymatch goal with
  | |- keeps _ _ _ =>
      unfold keeps; simpl;
      rewrite ?resumes_app, ?continued_app, ?handlers_update by done;
      simpl; rewrite ?app_nil_r; done
  end.

Ltac frame_log :=
  unfold debug, perror, fprintf_stderr, ptrace, emit;
  repeat (first [ solve [eauto with frame nocore]
                | frame_known | frame_step | log_leaf ]).

Lemma apply_threads_quiet q b :
  respects (keeps (fun w => (handlers w, continued (w_log w)))) (apply_threads q b).
Proof. destruct b; unfold apply_threads; frame_log. Qed.

Lemma continue_process_continued p w w' :
  continue_process p w = Ok tt w' ->
  handlers w' = handlers w /\ continued (w_log w') = continued (w_log w) ++ [p].
Proof.
  intros H. unfold continue_process in H.
  apply bind_Ok in H as (? & w1 & Hdbg & H).
  unfold debug, emit, modify in Hdbg. injection Hdbg as _ <-.
  assert (Hrest : respects (keeps (fun w => (handlers w, continued (w_log w))))
    (onstep <- gets w_curthread_onstep ;;
     when onstep (resume_threads p) ;;
     queued <- have_events_for p ;;
     if negb queued then ptrace PT_SYSCALL p 1 0
     else debug "putting off the continue, events in que." [])).
  { unfold resume_threads. frame_log. apply apply_threads_quiet. }
  apply (respects_Ok _ _ _ _ _ Hrest) in H. unfold keeps in H.
  injection H as Hh Hc. split; [done|]. rewrite Hc. simpl.
  by rewrite continued_app.
Qed.

Lemma release_rows_continued rows w w' :
  for_each rows (fun r =>
    if negb (pid r =? 0) && (delivered r || sysret r)
    then continue_process (pid r) else ret tt) w = Ok tt w' ->
  handlers w' = handlers w /\
  continued (w_log w')
  = continued (w_log w)
    ++ map pid (List.filter (fun r => negb (pid r =? 0) && (delivered r || sysret r)) rows).
Proof.
  revert w. induction rows as [|r rows IH]; intros w H; simpl in *.
  - injection H as <-. by rewrite app_nil_r.
  - apply bind_Ok in H as ([] & w1 & Hr & H). apply IH in H as [Hh Hc].
    destruct (negb (pid r =? 0) && (delivered r || sysret r)).
    + apply continue_process_continued in Hr as [Hh1 Hc1].
      split; [congruence|]. rewrite Hc, Hc1. simpl. by rewrite <- app_assoc.
    + injection Hr as <-. done.
Qed.


(** * trace.c: [send_sigstop] and [task_blocked] *)

Lemma get_proc_eval p w q : pid2proc p w = Some q -> get_proc p w = Ok q w.
Proof. unfold get_proc. by intros ->. Qed.

Lemma task_stopped_eval t w :
  task_stopped t w
  = Ok (if stopped_status (os_status (w_env w) t) then CBS_CONT else CBS_STOP,
        os_status (w_env w) t) w.
Proof.
  unfold task_stopped, process_status_of, bind, gets.
  by destruct (os_status (w_env w) t).
Qed.

Lemma pid2proc_tasks_of leader w :
  Forall (fun t => is_Some (pid2proc t w)) (tasks_of leader w).
Proof.
  unfold tasks_of. apply Forall_forall. intros t Ht.
  apply list_elem_of_fmap in Ht as (q & -> & Hq).
  apply list_elem_of_filter in Hq as [_ Hq].
  unfold pid2proc. destruct (List.find _ _) eqn:Hf; [done|].
  apply list_elem_of_In in Hq. eapply find_none in Hf; [|exact Hq].
  by rewrite bool_decide_eq_true_2 in Hf.
Qed.

Lemma each_task_in_vforked ts w :
  Forall (fun t => is_Some (pid2proc t w)) ts ->
  exists r,
    each_task_in ts task_vforked tt w = Ok (r, tt) w /\
    (match r with Some _ => true | None => false end)
    = existsb (fun t => match pid2proc t w with
                        | Some q => bool_decide (proc_event_handler q
                                                 = Some process_vfork_on_event_fn)
                        | None => false
                        end) ts.
Proof.
  induction 1 as [|t ts [q Hq] _ (r & IH & Hr)]; [by exists None|].
  simpl. unfold bind at 1. unfold task_vforked at 1. unfold bind at 1.
  rewrite (get_proc_eval _ _ _ Hq), Hq.
  destruct (bool_decide _); simpl; [by eexists|]. by exists r.
Qed.

Lemma is_vfork_parent_eval task w q :
  pid2proc task w = Some q ->
  is_vfork_parent task w = Ok (group_has_vfork_handler (proc_leader q) w) w.
Proof.
  intros Hq. unfold is_vfork_parent, each_task, group_has_vfork_handler.
  unfold bind at 1. rewrite (get_proc_eval _ _ _ Hq).
  unfold bind at 1. unfold bind at 1. unfold gets.
  destruct (each_task_in_vforked (tasks_of (proc_leader q) w) w) as (r & -> & Hr);
    [apply pid2proc_tasks_of|].
  simpl. by rewrite <- Hr.
Qed.

Lemma kills_app l1 l2 : kills (l1 ++ l2) = kills l1 ++ kills l2.
Proof. apply flat_map_app. Qed.




Lemma send_sigstop_row_eval task q i ps row w :
  pid2proc task w = Some q ->
  tasks ps !! i = Some row ->
  send_sigstop_row task q i ps w =
  if bool_decide (proc_state q = STATE_BEING_CREATED) then Ok (CBS_CONT, ps) w
  else if stopped_status (os_status (w_env w) task) then Ok (CBS_CONT, ps) w
  else if sigstopped row && negb (delivered row) then Ok (CBS_CONT, ps) w
  else
    let ps1 := if sigstopped row then set_row i (with_delivered false) ps else ps in
    if bool_decide (os_status (w_env w) task = PS_SLEEPING)
       && group_has_vfork_handler (proc_leader q) w
    then Ok (CBS_CONT, set_row i (with_vforked true) ps1) w
    else if os_kill_fails (w_env w) task
    then Ok (CBS_CONT, ps1)
           (logged (Stderr "Warning: couldn't send SIGSTOP to %d\n" [task])
              (logged (Kill task SIGSTOP) w))
    else Ok (CBS_CONT, set_row i (with_sigstopped true) ps1)
           (logged (Debug "send SIGSTOP to %d" [task]) (logged (Kill task SIGSTOP) w)).
Proof.
  intros Hq Hrow. unfold send_sigstop_row.
  destruct (bool_decide (proc_state q = STATE_BEING_CREATED)); [done|].
  unfold bind at 1. rewrite task_stopped_eval. cbn [fst snd].
  destruct (stopped_status (os_status (w_env w) task)) eqn:Hst.
  { by rewrite bool_decide_eq_true_2. }
  rewrite bool_decide_eq_false_2 by done.
  unfold bind at 1. rewrite Hrow. simpl.
  destruct (sigstopped row && negb (delivered row)); [done|].
  unfold bind at 1.
  destruct (bool_decide (os_status (w_env w) task = PS_SLEEPING)); simpl.
  - rewrite (is_vfork_parent_eval _ _ _ Hq).
    destruct (group_has_vfork_handler (proc_leader q) w); [done|].
    unfold bind, task_kill, fprintf_stderr, debug, emit, modify, gets, ret. simpl.
    by destruct (os_kill_fails (w_env w) task).
  - unfold bind, task_kill, fprintf_stderr, debug, emit, modify, gets, ret. simpl.
    by destruct (os_kill_fails (w_env w) task).
Qed.

Lemma send_sigstop_eval task ps w q :
  pid2proc task w = Some q -> task <> 0 ->
  exists ti ps1 w1,
    row_lookup task ps w ti ps1 w1 /\
    send_sigstop task ps w =
    match ti with
    | Some i => send_sigstop_row task q i ps1 w1
    | None =>
        (perror "send_sigstop: add_task_info" ;;
         destroy_event_handler (proc_leader q) ;;
         ret (CBS_STOP, ps1)) w1
    end.
Proof.
  intros Hq Hnz. unfold send_sigstop, get_task_info.
  unfold bind at 1. rewrite (get_proc_eval _ _ _ Hq).
  unfold bind at 1. unfold bind at 1. unfold assert.
  rewrite (proj2 (Z.eqb_neq _ _) Hnz). simpl.
  destruct (list_find _ _) as [[i row]|] eqn:Hf; simpl.
  - exists (Some i), ps, w. split; [by eapply row_found|done].
  - unfold bind at 1. unfold add_task_info. unfold bind at 1.
    case_bool_decide as Hlen.
    + unfold bind at 1. destruct (allocate w) as [[|] w1|] eqn:Ha.
      * eexists (Some _), _, w1. split; [by apply row_added_grown|done].
      * exists None, ps, w1. split; [by apply row_refused|done].
      * unfold allocate in Ha. by destruct (w_alloc w).
    + eexists (Some _), _, w. split; [by apply row_added_in_place|done].
Qed.

Lemma allocate_frame w b w1 :
  allocate w = Ok b w1 ->
  w_procs w1 = w_procs w /\ w_log w1 = w_log w /\ w_env w1 = w_env w.
Proof.
  unfold allocate. destruct (w_alloc w); intros [= _ <-]; done.
Qed.

Lemma row_lookup_frame task ps w ti ps1 w1 :
  row_lookup task ps w ti ps1 w1 ->
  w_procs w1 = w_procs w /\ w_log w1 = w_log w /\ w_env w1 = w_env w.
Proof. destruct 1; try done; by eapply allocate_frame. Qed.

Lemma row_lookup_row task ps w i ps1 w1 :
  row_lookup task ps w (Some i) ps1 w1 ->
  exists row, tasks ps1 !! i = Some row /\ pid row = task /\
    (list_find (fun t => pid t = task) (tasks ps) = None ->
     row = mk_pid_task task false false false false false).
Proof.
  intros H. inversion H as [i' row Hf | Hf Hlen | w0 Hf Hlen Ha | ]; subst.
  - exists row. apply list_find_Some in Hf as Hf'. destruct Hf' as (Hi & Hp & _).
    split; [done|]. split; [done|]. intros Hn. congruence.
  - exists (mk_pid_task task false false false false false). split; [|done]. simpl.
    rewrite lookup_app_r by lia. by rewrite Nat.sub_diag.
  - exists (mk_pid_task task false false false false false). split; [|done]. simpl.
    rewrite lookup_app_r by lia. by rewrite Nat.sub_diag.
Qed.

Lemma app_singleton_neq {A} (l : list A) x : l <> l ++ [x].
Proof.
  intros H. apply (f_equal length) in H. rewrite length_app in H. simpl in H. lia.
Qed.



(** The outcomes of one call of [send_sigstop]: a failed [task_kill]
    is logged and the walk goes on; the walk is stopped only when no
    row can be allocated. *)
Lemma send_sigstop_outcomes (task : Z) (ps : pid_set) (w : world) (q : process)
    (r : callback_status) (ps' : pid_set) (w' : world) :
  pid2proc task w = Some q ->
  task <> 0 ->
  send_sigstop task ps w = Ok (r, ps') w' ->
  (kills (w_log w') = kills (w_log w) ++ [(task, SIGSTOP)] ->
   os_kill_fails (w_env w) task = true ->
   r = CBS_CONT /\ handlers w' = handlers w /\
   w_log w' = w_log w ++ [Kill task SIGSTOP;
                          Stderr "Warning: couldn't send SIGSTOP to %d\n" [task]]) /\
  (r = CBS_CONT -> handlers w' = handlers w) /\
  (r = CBS_STOP ->
   list_find (fun t => pid t = task) (tasks ps) = None /\
   length (tasks ps) = alloc ps /\
   (exists w1, allocate w = Ok false w1) /\
   kills (w_log w') = kills (w_log w) /\
   w_log w' = w_log w ++ [Stderr "send_sigstop: add_task_info" []] /\
   exists l, pid2proc (proc_leader q) w' = Some l /\ proc_event_handler l = None) /\
  r <> CBS_FAIL.
Proof.
  intros Hq Hnz H.
  destruct (send_sigstop_eval task ps w q Hq Hnz) as (ti & ps1 & w1 & Hlk & Heq).
  rewrite Heq in H. clear Heq.
  pose proof (row_lookup_frame _ _ _ _ _ _ Hlk) as (Hprocs & Hlog & Henv).
  assert (Hq1 : pid2proc task w1 = Some q) by (unfold pid2proc in *; by rewrite Hprocs).
  assert (Hh1 : handlers w1 = handlers w) by (unfold handlers; by rewrite Hprocs).
  destruct ti as [i|].
  - destruct (row_lookup_row _ _ _ _ _ _ Hlk) as (row & Hrow & _).
    rewrite (send_sigstop_row_eval task q i ps1 row w1 Hq1 Hrow) in H.
    rewrite Henv in H.
    assert (Hskip : forall ps2, Ok (CBS_CONT, ps2) w1 = Ok (r, ps') w' ->
      (kills (w_log w') = kills (w_log w) ++ [(task, SIGSTOP)] ->
       os_kill_fails (w_env w) task = true ->
       r = CBS_CONT /\ handlers w' = handlers w /\
       w_log w' = w_log w ++ [Kill task SIGSTOP;
                              Stderr "Warning: couldn't send SIGSTOP to %d\n" [task]]) /\
      (r = CBS_CONT -> handlers w' = handlers w) /\
      (r = CBS_STOP ->
       list_find (fun t => pid t = task) (tasks ps) = None /\
       length (tasks ps) = alloc ps /\
       (exists w1, allocate w = Ok false w1) /\
       kills (w_log w') = kills (w_log w) /\
       w_log w' = w_log w ++ [Stderr "send_sigstop: add_task_info" []] /\
       exists l, pid2proc (proc_leader q) w' = Some l /\ proc_event_handler l = None) /\
      r <> CBS_FAIL).
    { intros ps2 [= <- <- <-]. split; [|by repeat split].
      intros Hk _. rewrite Hlog in Hk. by apply app_singleton_neq in Hk. }
    destruct (bool_decide (proc_state q = STATE_BEING_CREATED)); [by eapply Hskip|].
    destruct (stopped_status _); [by eapply Hskip|].
    destruct (sigstopped row && negb (delivered row)); [by eapply Hskip|].
    cbv zeta in H.
    destruct (bool_decide _ && group_has_vfork_handler _ _); [by eapply Hskip|].
    destruct (os_kill_fails (w_env w) task) eqn:Hkill.
    + injection H as <- <- <-. simpl. rewrite Hlog. rewrite <- !app_assoc. simpl.
      by repeat split.
    + injection H as <- <- <-. by repeat split.
  - inversion Hlk as [ | | | w0 Hf Hlen Ha]; subst.
    apply bind_Ok in H as ([] & w2 & Hp & H).
    unfold perror, emit, modify in Hp. injection Hp as <-.
    apply bind_Ok in H as ([] & w3 & Hd & H). injection H as <- <- <-.
    unfold destroy_event_handler in Hd.
    apply bind_Ok in Hd as (l & w4 & Hg & Hd). unfold get_proc in Hg.
    destruct (pid2proc (proc_leader q) _) as [l'|] eqn:Hl; [|discriminate Hg].
    injection Hg as <- <-. unfold update_proc, modify in Hd. injection Hd as <-.
    split; [|split; [done|split; [|done]]].
    + intros Hk _. exfalso. simpl in Hk. rewrite Hlog, kills_app in Hk. simpl in Hk.
      rewrite app_nil_r in Hk. by apply app_singleton_neq in Hk.
    + intros _. split; [done|]. split; [done|]. split; [by eexists|].
      simpl. rewrite Hlog, kills_app. simpl. rewrite app_nil_r.
      split; [done|]. split; [done|].
      rewrite pid2proc_update by done. rewrite Hl. simpl.
      rewrite bool_decide_eq_true_2 by (by eapply pid2proc_pid). by eexists.
Qed.


(** * plt.c: the RESOLVED branch of [ppc64_plt_bp_continue] *)

Lemma calls_app l1 l2 : calls (l1 ++ l2) = calls l1 ++ calls l2.
Proof. apply List.filter_app. Qed.

Lemma continue_process_frame p w :
  let w' := final (continue_process p w) in
  w_procs w' = w_procs w /\ w_ip w' = w_ip w /\
  calls (w_log w') = calls (w_log w) /\
  continued (w_log w') = continued (w_log w) ++ [p].
Proof.
  set (R := keeps (fun w => (w_procs w, w_ip w, calls (w_log w), continued (w_log w)))).
  assert (Hleaf : forall e w0,
    calls [e] = [] -> continued [e] = [] -> R w0 (logged e w0)).
  { intros e w0 Hc Hd. unfold R, keeps. simpl.
    by rewrite calls_app, continued_app, Hc, Hd, !app_nil_r. }
  assert (Hthreads : respects R (apply_threads p false)).
  { unfold apply_threads, perror, ptrace, emit.
    repeat (first [ frame_known | frame_step | by apply Hleaf | done ]). }
  assert (Hrest : respects R
    (onstep <- gets w_curthread_onstep ;;
     when onstep (resume_threads p) ;;
     queued <- have_events_for p ;;
     if negb queued then ptrace PT_SYSCALL p 1 0
     else debug "putting off the continue, events in que." [])).
  { unfold resume_threads, debug, ptrace, emit.
    repeat (first [ exact Hthreads | frame_known | frame_step | by apply Hleaf ]). }
  specialize (Hrest (logged (Debug "continue_process: pid=%d" [p]) w)).
  unfold R, keeps in Hrest. injection Hrest as Hp Hi Hc Hd.
  change (continue_process p w) with
    ((onstep <- gets w_curthread_onstep ;;
      when onstep (resume_threads p) ;;
      queued <- have_events_for p ;;
      if negb queued then ptrace PT_SYSCALL p 1 0
      else debug "putting off the continue, events in que." [])
       (logged (Debug "continue_process: pid=%d" [p]) w)).
  cbv zeta. rewrite Hp, Hi, Hc, Hd. simpl.
  by rewrite calls_app, continued_app, app_nil_r.
Qed.


(** * plt.c: PLT entry addresses *)

Lemma wrap64_add_inj v x y :
  0 <= x < 2 ^ 64 -> 0 <= y < 2 ^ 64 ->
  wrap64 (v + wrap64 x) = wrap64 (v + wrap64 y) -> x = y.
Proof.
  intros Hx Hy. rewrite !(wrap64_small x), !(wrap64_small y) by done.
  unfold wrap64. intros H.
  assert (Hd : ((v + x) - (v + y)) mod 2 ^ 64 = 0).
  { rewrite Zminus_mod, H, Z.sub_diag. done. }
  apply Z.mod_divide in Hd; [|lia]. destruct Hd as [c Hc]. nia.
Qed.

(** X1: when [plt_stub_vma] is set, [arch_plt_sym_val] answers
    without side effect, and two different PLT indices below 2^60 get
    two different entry addresses, on PPC64 and with the secure PLT of
    PPC32. *)
Theorem arch_plt_sym_val_distinct (lte : ltelf) (rela : GElf_Rela) (i j : Z) (w : world) :
  e_machine lte <> EM_PPC \/ arch_secure_plt lte = true ->
  arch_plt_stub_vma lte <> 0 ->
  0 <= i < 2 ^ 60 -> 0 <= j < 2 ^ 60 -> i <> j ->
  exists a b,
    arch_plt_sym_val lte i rela w = Ok a w /\
    arch_plt_sym_val lte j rela w = Ok b w /\
    a <> b.
Proof.
  intros Hm Hv Hi Hj Hij. unfold arch_plt_sym_val.
  assert (Hnz : negb (arch_plt_stub_vma lte =? 0) = true).
  { apply negb_true_iff, Z.eqb_neq. done. }
  unfold PPC_PLT_STUB_SIZE, PPC64_PLT_STUB_SIZE.
  destruct (bool_decide (e_machine lte = EM_PPC)) eqn:He; simpl.
  - destruct Hm as [Hm| ->]; [by apply bool_decide_eq_true_1 in He|].
    unfold bind. rewrite Hnz. simpl. eexists _, _. split; [done|]. split; [done|].
    intros Heq. apply wrap64_add_inj in Heq; lia.
  - unfold bind. rewrite Hnz. simpl. eexists _, _. split; [done|]. split; [done|].
    intros Heq. apply wrap64_add_inj in Heq; lia.
Qed.

Lemma arch_plt_sym_val_distinct_witness :
  exists a b,
    arch_plt_sym_val lte_puts 1 rela_puts (world_2001 PPC64PLT_UNRESOLVED 0 0 [] (fun _ => false))
      = Ok a (world_2001 PPC64PLT_UNRESOLVED 0 0 [] (fun _ => false)) /\
    arch_plt_sym_val lte_puts 2 rela_puts (world_2001 PPC64PLT_UNRESOLVED 0 0 [] (fun _ => false))
      = Ok b (world_2001 PPC64PLT_UNRESOLVED 0 0 [] (fun _ => false)) /\
    a <> b.
Proof.
  apply (arch_plt_sym_val_distinct lte_puts rela_puts 1 2); simpl;
    [left; unfold EM_PPC, EM_PPC64|..]; lia.
Defined.

(** * plt.c: the stub chain of [arch_elf_add_plt_entry] *)

Lemma rechain_stubs_filter a_name stubs chain :
  rechain_stubs a_name stubs chain
  = (filter (fun s => ls_name s <> a_name) stubs,
     rev (filter (fun s => ls_name s = a_name) stubs) ++ chain).
Proof.
  revert chain. induction stubs as [|sym rest IH]; intros chain; [done|].
  simpl. rewrite !filter_cons. case_bool_decide as Hn.
  - rewrite IH. rewrite decide_False by (by intros ?). rewrite decide_True by done.
    simpl. by rewrite <- app_assoc.
  - rewrite IH. simpl. rewrite decide_True by done. by rewrite decide_False by done.
Qed.

(** X2: on PPC64, when the stub list has symbols named [a_name],
    [arch_elf_add_plt_entry] answers [plt_ok] with exactly these stubs,
    the last one of the list first, takes them out of the list and
    keeps the other stubs in their order; it does not look at the
    tracee. *)
Theorem arch_elf_add_plt_entry_stub_chain
    (proc : Z) (lte : ltelf) (a_name : string) (rela : GElf_Rela) (ndx : Z) (w : world) :
  e_machine lte <> EM_PPC ->
  Exists (fun s => ls_name s = a_name) (arch_stubs lte) ->
  arch_elf_add_plt_entry proc lte a_name rela ndx w
  = Ok (plt_ok,
        with_stubs (filter (fun s => ls_name s <> a_name) (arch_stubs lte)) lte,
        Some (rev (filter (fun s => ls_name s = a_name) (arch_stubs lte)))) w.
Proof.
  intros Hm Hex. unfold arch_elf_add_plt_entry.
  rewrite bool_decide_eq_false_2 by done. cbv zeta.
  rewrite rechain_stubs_filter, app_nil_r. cbn [fst snd].
  destruct (rev _) as [|sym chain] eqn:Hrev; [|done].
  exfalso. apply (f_equal (@rev library_symbol)) in Hrev.
  rewrite rev_involutive in Hrev. simpl in Hrev.
  apply Exists_exists in Hex as (s & Hin & Hs).
  assert (s ∈ filter (fun s => ls_name s = a_name) (arch_stubs lte)) as Hf.
  { by apply list_elem_of_filter. }
  rewrite Hrev in Hf. by apply elem_of_nil in Hf.
Qed.

Lemma arch_elf_add_plt_entry_stub_chain_witness :
  arch_elf_add_plt_entry 2001
    (with_stubs [sym_puts PPC64PLT_STUB 0] lte_puts) "puts" rela_puts 33
    (world_2001 PPC64PLT_UNRESOLVED 0 0 [] (fun _ => false))
  = Ok (plt_ok, with_stubs [] lte_puts, Some [sym_puts PPC64PLT_STUB 0])
       (world_2001 PPC64PLT_UNRESOLVED 0 0 [] (fun _ => false)).
Proof.
  apply (arch_elf_add_plt_entry_stub_chain 2001
           (with_stubs [sym_puts PPC64PLT_STUB 0] lte_puts) "puts" rela_puts 33).
  - simpl. unfold EM_PPC, EM_PPC64. lia.
  - apply Exists_cons_hd. reflexivity.
Defined.

Lemma filter_other_name a_name b_name (l : list library_symbol) :
  b_name <> a_name ->
  filter (fun s => ls_name s = b_name) (filter (fun s => ls_name s <> a_name) l)
  = filter (fun s => ls_name s = b_name) l.
Proof.
  intros Hb. induction l as [|s rest IH]; [done|].
  rewrite !filter_cons. destruct (decide (ls_name s <> a_name)) as [Hs|Hs].
  - rewrite filter_cons. destruct (decide (ls_name s = b_name)); by rewrite IH.
  - rewrite decide_False; [done|]. intros Hsb. apply Hs. congruence.
Qed.

(** X3: on PPC64, however [arch_elf_add_plt_entry] returns, no stub
    named [a_name] is left in the stub list, so that a later call for
    the same name is not answered from the stubs again; the stubs of
    every other name are all still there, in the same order. *)
Theorem arch_elf_add_plt_entry_stubs_once
    (proc : Z) (lte lte' : ltelf) (a_name : string) (rela : GElf_Rela) (ndx : Z)
    (w w' : world) (st : plt_status) (syms : option (list library_symbol)) :
  e_machine lte <> EM_PPC ->
  arch_elf_add_plt_entry proc lte a_name rela ndx w = Ok (st, lte', syms) w' ->
  Forall (fun s => ls_name s <> a_name) (arch_stubs lte') /\
  (forall b_name, b_name <> a_name ->
     filter (fun s => ls_name s = b_name) (arch_stubs lte')
     = filter (fun s => ls_name s = b_name) (arch_stubs lte)) /\
  rechain_stubs a_name (arch_stubs lte') [] = (arch_stubs lte', []).
Proof.
  intros Hm H. unfold arch_elf_add_plt_entry in H.
  rewrite bool_decide_eq_false_2 in H by done. cbv zeta in H.
  rewrite rechain_stubs_filter, app_nil_r in H. cbn [fst snd] in H.
  assert (Hl : arch_stubs lte' = filter (fun s => ls_name s <> a_name) (arch_stubs lte)).
  { destruct (rev _) as [|? ?]; [|by injection H as _ <- _ _].
    repeat match type of H with
           | bind _ _ _ = Ok _ _ =>
               let Hm := fresh in apply bind_Ok in H as (? & ? & Hm & H)
           | (match ?x with _ => _ end) _ = Ok _ _ => destruct x
           | (if ?b then _ else _) _ = Ok _ _ => destruct b
           | ret _ _ = Ok _ _ => injection H as _ <- _ _
           end; done. }
  rewrite Hl. assert (Hall : Forall (fun s => ls_name s <> a_name)
                    (filter (fun s => ls_name s <> a_name) (arch_stubs lte))).
  { apply Forall_forall. intros s Hs. by apply list_elem_of_filter in Hs as [? _]. }
  split; [done|]. split; [|by apply rechain_stubs_none].
  intros b_name Hb. by apply filter_other_name.
Qed.

Lemma arch_elf_add_plt_entry_stubs_once_witness :
  Forall (fun s => ls_name s <> "puts") (arch_stubs (with_stubs [] lte_puts)) /\
  (forall b_name, b_name <> "puts" ->
     filter (fun s => ls_name s = b_name) (arch_stubs (with_stubs [] lte_puts))
     = filter (fun s => ls_name s = b_name)
         (arch_stubs (with_stubs [sym_puts PPC64PLT_STUB 0] lte_puts))) /\
  rechain_stubs "puts" (arch_stubs (with_stubs [] lte_puts)) []
  = (arch_stubs (with_stubs [] lte_puts), []).
Proof.
  apply (arch_elf_add_plt_entry_stubs_once 2001
           (with_stubs [sym_puts PPC64PLT_STUB 0] lte_puts) (with_stubs [] lte_puts)
           "puts" rela_puts 33
           (world_2001 PPC64PLT_UNRESOLVED 0 0 [] (fun _ => false))
           (world_2001 PPC64PLT_UNRESOLVED 0 0 [] (fun _ => false))
           plt_ok (Some [sym_puts PPC64PLT_STUB 0])).
  - simpl. unfold EM_PPC, EM_PPC64. lia.
  - reflexivity.
Defined.

(** * plt.c: what [arch_elf_add_plt_entry] answers and writes *)

Ltac run_plt_in H :=
  unfold arch_plt_sym_val, read_plt_slot_value, unresolve_plt_slot, host_powerpc64,
    ptrace_peektext, ptrace_poketext, ptrace, allocate, emit, assert, bind, gets,
    modify, ret, stop in H;
  cbn [fst snd e_machine arch_secure_plt arch_plt_stub_vma plt_addr plt_size
       arch_stubs with_stubs w_env w_mem w_alloc w_log set_log set_alloc set_mem final]
    in H.

(** X4: [arch_elf_add_plt_entry] writes to the tracee in one case only:
    it answers [plt_ok] with one RESOLVED symbol, the write puts the
    address of the symbol into its .plt slot, and the symbol holds the
    value that the slot had. In every other case, also when the call
    fails or halts, the memory of the tracee is as before. *)
Theorem arch_elf_add_plt_entry_memory
    (proc : Z) (lte : ltelf) (a_name : string) (rela : GElf_Rela) (ndx : Z) (w : world) :
  w_mem (final (arch_elf_add_plt_entry proc lte a_name rela ndx w)) = w_mem w \/
  exists lte' sym w' v,
    arch_elf_add_plt_entry proc lte a_name rela ndx w = Ok (plt_ok, lte', Some [sym]) w' /\
    arch_type sym = PPC64PLT_RESOLVED /\
    w_mem w !! (proc, r_offset rela) = Some v /\
    arch_resolved_value sym = wrap64 v /\
    w_mem w' = <[(proc, r_offset rela) := ls_enter_addr sym]> (w_mem w).
Proof.
  remember (arch_elf_add_plt_entry proc lte a_name rela ndx w) as o eqn:Ho.
  unfold arch_elf_add_plt_entry in Ho.
  destruct (bool_decide (e_machine lte = EM_PPC)) eqn:Hm; [subst o; by left|].
  cbv zeta in Ho.
  destruct (snd (rechain_stubs a_name (arch_stubs lte) [])); [|subst o; by left].
  unfold arch_plt_sym_val in Ho.
  cbn [e_machine with_stubs arch_secure_plt arch_plt_stub_vma] in Ho.
  rewrite Hm in Ho. cbn [andb] in Ho.
  destruct w as [pr qu ti on me ip al en lo]. run_plt_in Ho.
  destruct (negb (arch_plt_stub_vma lte =? 0)); simpl in Ho; [|subst o; by left].
  destruct (plt_slot_addr_asserted _ _); simpl in Ho; [|subst o; by left].
  destruct (os_host_powerpc64 en); simpl in Ho; [|subst o; by left].
  destruct (me !! (proc, r_offset rela)) as [v|] eqn:Hv; simpl in Ho;
    [|subst o; by left].
  destruct al as [|[|] [|[|] al]]; simpl in Ho; try (subst o; by left).
  all: destruct (_ || _); simpl in Ho; try (subst o; by left).
  all: destruct (os_poke_fails en proc (r_offset rela)); simpl in Ho;
    try (subst o; by left).
  all: right; eexists _, _, _, v; split; [exact Ho|]; simpl; done.
Qed.

(** X5: when [arch_elf_add_plt_entry] stores symbols through [ret], it
    answers [plt_ok], there is at least one symbol and all are named
    [a_name]; they are stubs of the stub list, or one symbol that is
    not a stub, whose address ([sym2addr]) is the PLT entry address of
    [arch_plt_sym_val] and whose slot is [r_offset]. With any other
    answer [ret] is not written. *)
Theorem arch_elf_add_plt_entry_answer
    (proc : Z) (lte lte' : ltelf) (a_name : string) (rela : GElf_Rela) (ndx : Z)
    (w w' : world) (st : plt_status) (syms : option (list library_symbol)) :
  arch_elf_add_plt_entry proc lte a_name rela ndx w = Ok (st, lte', syms) w' ->
  match syms with
  | None => st <> plt_ok
  | Some l =>
      st = plt_ok /\ l <> [] /\ Forall (fun s => ls_name s = a_name) l /\
      (Forall (fun s => s ∈ arch_stubs lte) l \/
       exists sym a,
         l = [sym] /\
         arch_plt_sym_val lte ndx rela w = Ok a w /\
         sym2addr proc sym = a /\
         arch_plt_slot_addr sym = r_offset rela /\
         ls_plt_type sym = LS_TOPLT_EXEC /\
         arch_type sym <> PPC64PLT_STUB)
  end.
Proof.
  unfold arch_elf_add_plt_entry.
  destruct (bool_decide (e_machine lte = EM_PPC)) eqn:Hm; [by intros [= <- _ <- _]|].
  cbv zeta. rewrite rechain_stubs_filter, app_nil_r. cbn [fst snd].
  destruct (rev _) as [|s0 l0] eqn:Hrev.
  2:{ intros [= <- _ <- _]. split; [done|]. split; [done|].
      assert (Hall : forall s, s ∈ s0 :: l0 -> ls_name s = a_name /\ s ∈ arch_stubs lte).
      { intros s Hs. rewrite <- Hrev in Hs.
        apply list_elem_of_In, in_rev, list_elem_of_In in Hs.
        by apply list_elem_of_filter in Hs. }
      split; [apply Forall_forall; intros s Hs; by apply Hall|].
      left. apply Forall_forall. intros s Hs. by apply Hall. }
  intros H.
  apply bind_Ok in H as (a & w1 & Ha & H).
  assert (Ha' : arch_plt_sym_val lte ndx rela w = Ok a w /\ w1 = w).
  { revert Ha. unfold arch_plt_sym_val.
    cbn [e_machine with_stubs arch_secure_plt arch_plt_stub_vma].
    rewrite Hm. cbn [andb]. unfold bind, assert.
    destruct (negb (arch_plt_stub_vma lte =? 0)); simpl; [|done].
    by intros [= <- <-]. }
  destruct Ha' as [Ha' ->]. clear Ha.
  apply bind_Ok in H as ([] & w2 & _ & H).
  apply bind_Ok in H as (v & w3 & _ & H).
  destruct v as [v|]; [|by injection H as <- _ <- _].
  apply bind_Ok in H as (n1 & w4 & _ & H).
  apply bind_Ok in H as (n2 & w5 & _ & H).
  destruct (negb n1 || negb n2).
  { apply bind_Ok in H as ([] & w6 & _ & H). by injection H as <- _ <- _. }
  destruct ((v =? a) || (v =? 0)).
  { injection H as <- _ <- _. split; [done|]. split; [done|].
    split; [by apply Forall_singleton|]. right. eexists _, a. by repeat split. }
  apply bind_Ok in H as (ok & w6 & _ & H). destruct ok; injection H as <- _ <- _; [|done].
  split; [done|]. split; [done|].
  split; [by apply Forall_singleton|]. right. eexists _, a. by repeat split.
Qed.

Lemma arch_elf_add_plt_entry_answer_witness :
  plt_ok = plt_ok /\ [sym_puts PPC64PLT_STUB 0] <> [] /\
  Forall (fun s => ls_name s = "puts") [sym_puts PPC64PLT_STUB 0] /\
  (Forall (fun s => s ∈ arch_stubs (with_stubs [sym_puts PPC64PLT_STUB 0] lte_puts))
          [sym_puts PPC64PLT_STUB 0] \/
   exists sym a,
     [sym_puts PPC64PLT_STUB 0] = [sym] /\
     arch_plt_sym_val (with_stubs [sym_puts PPC64PLT_STUB 0] lte_puts) 33 rela_puts
       (world_2001 PPC64PLT_UNRESOLVED 0 0 [] (fun _ => false))
     = Ok a (world_2001 PPC64PLT_UNRESOLVED 0 0 [] (fun _ => false)) /\
     sym2addr 2001 sym = a /\
     arch_plt_slot_addr sym = r_offset rela_puts /\
     ls_plt_type sym = LS_TOPLT_EXEC /\
     arch_type sym <> PPC64PLT_STUB).
Proof.
  apply (arch_elf_add_plt_entry_answer 2001
           (with_stubs [sym_puts PPC64PLT_STUB 0] lte_puts) (with_stubs [] lte_puts)
           "puts" rela_puts 33
           (world_2001 PPC64PLT_UNRESOLVED 0 0 [] (fun _ => false))
           (world_2001 PPC64PLT_UNRESOLVED 0 0 [] (fun _ => false))
           plt_ok (Some [sym_puts PPC64PLT_STUB 0])).
  reflexivity.
Defined.

(** * plt.c: [load_dynamic_entry] and the PPC64 branch of [arch_elf_init] *)

Lemma load_dynamic_entry_from_found d tag k : forall j n v w,
  (k < n)%nat ->
  getdyn d (j + k) = Some (tag, v) ->
  (forall i, (i < k)%nat ->
     exists t p, getdyn d (j + i) = Some (t, p) /\ t <> tag) ->
  load_dynamic_entry_from d tag j n w = Ok (Some (wrap64 v)) w.
Proof.
  induction k as [|k IH]; intros j n v w Hk Hget Hbefore.
  - destruct n as [|n]; [lia|]. simpl. rewrite Nat.add_0_r in Hget. rewrite Hget.
    by rewrite Z.eqb_refl.
  - destruct n as [|n]; [lia|]. simpl.
    destruct (Hbefore 0%nat) as (t & p & Ht & Hne); [lia|].
    rewrite Nat.add_0_r in Ht. rewrite Ht.
    rewrite (proj2 (Z.eqb_neq _ _) Hne).
    apply IH; [lia| |].
    + by replace (S j + k)%nat with (j + S k)%nat by lia.
    + intros i Hi. replace (S j + i)%nat with (j + S i)%nat by lia.
      apply Hbefore. lia.
Qed.

Lemma load_dynamic_entry_from_missing d tag n : forall j w,
  (forall i, (i < n)%nat ->
     exists t p, getdyn d (j + i) = Some (t, p) /\ t <> tag) ->
  load_dynamic_entry_from d tag j n w = Ok None w.
Proof.
  induction n as [|n IH]; intros j w Hall; [done|]. simpl.
  destruct (Hall 0%nat) as (t & p & Ht & Hne); [lia|].
  rewrite Nat.add_0_r in Ht. rewrite Ht.
  rewrite (proj2 (Z.eqb_neq _ _) Hne). apply IH.
  intros i Hi. replace (S j + i)%nat with (j + S i)%nat by lia. apply Hall. lia.
Qed.

Lemma wrap64_idemp_add a b : wrap64 (wrap64 a + b) = wrap64 (a + b).
Proof. unfold wrap64. by rewrite Zplus_mod_idemp_l. Qed.

Lemma wrap64_idemp_add_r a b : wrap64 (a + wrap64 b) = wrap64 (a + b).
Proof. unfold wrap64. by rewrite Zplus_mod_idemp_r. Qed.

(** X6: on a PPC64 image without symbol table, [arch_elf_init] takes
    the first [DT_PPC64_GLINK] entry [g] of the dynamic section,
    answers 0 without a message and sets [plt_stub_vma] to [g + 32];
    [arch_plt_sym_val] then puts the PLT entry of index [ndx] at
    [g + 32 + 8 * ndx], modulo 2^64. *)
Theorem arch_elf_init_ppc64_entries
    (elf : elf_file) (lte : ltelf) (d : Elf_Dynamic) (k : nat) (g : Z) (w : world) :
  e_machine lte = EM_PPC64 ->
  symtab elf = None ->
  section_dynamic elf = Some d ->
  dyn_sh_entsize d <> 0 ->
  (k < Z.to_nat (dyn_sh_size d / dyn_sh_entsize d))%nat ->
  getdyn d k = Some (DT_PPC64_GLINK, g) ->
  (forall i, (i < k)%nat ->
     exists t p, getdyn d i = Some (t, p) /\ t <> DT_PPC64_GLINK) ->
  exists lte',
    arch_elf_init elf lte w = Ok (0, lte') w /\
    arch_plt_stub_vma lte' = wrap64 (g + 32) /\
    arch_stubs lte' = arch_stubs lte /\
    (wrap64 (g + 32) <> 0 ->
     forall (ndx : Z) (rela : GElf_Rela) (s : world),
       arch_plt_sym_val lte' ndx rela s = Ok (wrap64 (g + 32 + 8 * ndx)) s).
Proof.
  intros Hm Hsym Hdyn Hent Hk Hget Hbefore.
  assert (Hload : load_ppc64_glink elf w = Ok (Some (wrap64 g)) w).
  { unfold load_ppc64_glink, load_dynamic_entry. rewrite Hdyn.
    rewrite (proj2 (Z.eqb_neq _ _) Hent).
    by apply (load_dynamic_entry_from_found d DT_PPC64_GLINK k 0). }
  eexists. split.
  - unfold arch_elf_init. cbv zeta. cbn [e_machine with_secure_plt arch_secure_plt].
    rewrite Hm. rewrite (bool_decide_eq_false_2 (EM_PPC64 = EM_PPC)) by done.
    rewrite bool_decide_eq_true_2 by done. cbn [andb].
    unfold bind at 1. unfold bind at 1. rewrite Hload. cbn [fst snd ret].
    rewrite Hsym. reflexivity.
  - cbn [arch_plt_stub_vma with_plt_stub_vma arch_stubs with_secure_plt].
    split; [by rewrite wrap64_idemp_add|]. split; [done|].
    intros Hnz ndx rela s. unfold arch_plt_sym_val.
    cbn [e_machine with_plt_stub_vma with_secure_plt arch_plt_stub_vma arch_secure_plt].
    rewrite Hm. rewrite (bool_decide_eq_false_2 (EM_PPC64 = EM_PPC)) by done.
    cbn [andb]. rewrite wrap64_idemp_add.
    rewrite (proj2 (Z.eqb_neq _ _) Hnz). unfold bind, assert, ret. simpl.
    rewrite wrap64_idemp_add, wrap64_idemp_add_r. unfold PPC64_PLT_STUB_SIZE.
    do 2 f_equal.
Qed.

(** X7: on a PPC64 image whose dynamic section can be read and has no
    [DT_PPC64_GLINK] entry, [arch_elf_init] answers -1 with the message
    "couldn't find DT_PPC64_GLINK"; the stub list and [plt_stub_vma]
    are left as they were and the symbol table is not looked at. *)
Theorem arch_elf_init_ppc64_no_glink
    (elf : elf_file) (lte : ltelf) (d : Elf_Dynamic) (w : world) :
  e_machine lte = EM_PPC64 ->
  section_dynamic elf = Some d ->
  dyn_sh_entsize d <> 0 ->
  (forall i, (i < Z.to_nat (dyn_sh_size d / dyn_sh_entsize d))%nat ->
     exists t p, getdyn d i = Some (t, p) /\ t <> DT_PPC64_GLINK) ->
  exists lte',
    arch_elf_init elf lte w
    = Ok (-1, lte') (logged (Stderr "couldn't find DT_PPC64_GLINK" []) w) /\
    arch_plt_stub_vma lte' = arch_plt_stub_vma lte /\
    arch_stubs lte' = arch_stubs lte.
Proof.
  intros Hm Hdyn Hent Hall.
  assert (Hload : load_ppc64_glink elf w = Ok None w).
  { unfold load_ppc64_glink, load_dynamic_entry. rewrite Hdyn.
    rewrite (proj2 (Z.eqb_neq _ _) Hent).
    by apply load_dynamic_entry_from_missing. }
  eexists. split.
  - unfold arch_elf_init. cbv zeta. cbn [e_machine with_secure_plt arch_secure_plt].
    rewrite Hm. rewrite (bool_decide_eq_false_2 (EM_PPC64 = EM_PPC)) by done.
    rewrite bool_decide_eq_true_2 by done. cbn [andb].
    unfold bind at 1. unfold bind at 1. rewrite Hload. reflexivity.
  - done.
Qed.

(** * plt.c: the stub symbols of [arch_elf_init] *)

Lemma prefix_app (n r : string) : String.prefix n (n +:+ r) = true.
Proof.
  induction n as [|x n IH]; [by destruct r|]. simpl.
  by destruct (Strings.Ascii.ascii_dec x x).
Qed.

Lemma strstr_skip (pre needle rest : string) c n :
  needle = String c n ->
  strchr pre c = None ->
  strstr (pre +:+ (needle +:+ rest)) needle = Some (String.length pre).
Proof.
  intros -> Hpre. induction pre as [|a pre IH].
  - simpl. destruct (Strings.Ascii.ascii_dec c c); [|done]. by rewrite prefix_app.
  - simpl in Hpre. destruct (Strings.Ascii.eqb a c) eqn:Hac; [done|].
    destruct (strchr pre c) eqn:Hs; [done|]. specialize (IH eq_refl).
    simpl. destruct (Strings.Ascii.ascii_dec c a) as [->|Hne].
    { by rewrite Strings.Ascii.eqb_refl in Hac. }
    simpl in IH. by rewrite IH.
Qed.

Lemma str_at_app (pre s : string) : str_at (pre +:+ s) (String.length pre) = s.
Proof. induction pre as [|a pre IH]; [by destruct s|]. done. Qed.

Lemma str_at_app_add (pre s : string) n :
  str_at (pre +:+ s) (String.length pre + n) = str_at s n.
Proof. induction pre as [|a pre IH]; [done|]. done. Qed.

Lemma strndup_app (s rest : string) : strndup (s +:+ rest) (String.length s) = s.
Proof. induction s as [|a s IH]; [by destruct rest|]. simpl. by rewrite IH. Qed.

Lemma strchr_app_found (s rest : string) c :
  strchr s c = None -> strchr (s +:+ String c rest) c = Some (String.length s).
Proof.
  induction s as [|a s IH]; simpl.
  - intros _. by rewrite Strings.Ascii.eqb_refl.
  - destruct (Strings.Ascii.eqb a c); [done|].
    destruct (strchr s c); [done|]. intros _. by rewrite IH.
Qed.

Lemma strchr_app_none (s rest : string) c :
  strchr s c = None -> strchr rest c = None -> strchr (s +:+ rest) c = None.
Proof.
  intros Hs Hr. induction s as [|a s IH]; [done|]. simpl in *.
  destruct (Strings.Ascii.eqb a c); [done|].
  destruct (strchr s c); [done|]. by rewrite IH.
Qed.

Lemma strrchr_app_last (s rest : string) c :
  strrchr rest c = None -> strrchr (s +:+ String c rest) c = Some (String.length s).
Proof.
  intros Hr. induction s as [|a s IH]; simpl.
  - rewrite Hr. by rewrite Strings.Ascii.eqb_refl.
  - by rewrite IH.
Qed.

Lemma strrchr_app_none (s rest : string) c :
  strchr s c = None -> strrchr rest c = None -> strrchr (s +:+ rest) c = None.
Proof.
  intros Hs Hr. induction s as [|a s IH]; [done|]. simpl in *.
  destruct (Strings.Ascii.eqb a c); [done|].
  destruct (strchr s c); [done|]. by rewrite IH.
Qed.

Lemma str_app_nil_r (s : string) : s +:+ EmptyString = s.
Proof.
  induction s as [|a s IH]; [done|].
  change (String a (s +:+ EmptyString) = String a s). by rewrite IH.
Qed.

Lemma allocate_twice w :
  allocations_succeed 2 w ->
  exists w1, allocate w = Ok true w1 /\ allocate w1 = Ok true (set_alloc (drop 2) w).
Proof.
  unfold allocations_succeed, allocate. destruct w as [pr qu ti on me ip al en lo].
  simpl. destruct al as [|b1 [|b2 al]]; simpl.
  - intros _. eexists. split; [done|]. done.
  - intros H. apply Forall_cons in H as [-> _]. eexists. split; [done|]. done.
  - intros H. apply Forall_cons in H as [-> H]. apply Forall_cons in H as [-> _].
    eexists. split; [done|]. done.
Qed.

Section stub_symbols.
Import Stdlib.Strings.Ascii.

Lemma stub_name_length_callee (callee suffix : string) (w : world) :
  strchr callee "@"%char = None ->
  strchr callee "+"%char = None ->
  suffix = EmptyString \/ suffix = "+0" \/ (exists ver, suffix = String "@"%char ver) ->
  stub_name_length (callee +:+ suffix) w = Ok (String.length callee) w.
Proof.
  intros Hat Hplus [->|[->|[ver ->]]]; unfold stub_name_length.
  - rewrite strchr_app_none, strrchr_app_none by done.
    by rewrite str_app_nil_r.
  - rewrite strchr_app_none by done.
    rewrite (strrchr_app_last callee "0" "+"%char) by done.
    unfold bind, assert. by rewrite str_at_app.
  - by rewrite strchr_app_found.
Qed.

(** X8: a symbol named [pre.plt_call.callee], [pre.plt_call.callee+0]
    or [pre.plt_call.callee@ver] (no dot in [pre], neither [@] nor [+]
    in [callee]) is a stub of [callee]: when its two allocations
    succeed, the loop of [arch_elf_init] puts a STUB symbol named
    [callee], at [st_value + bias], in front of the stub list and goes
    on with the next symbol. *)
Theorem arch_elf_init_stubs_decodes
    (pre callee suffix : string) (v bias : Z)
    (rest : list (option (string * Z))) (stubs : list library_symbol) (w : world) :
  strchr pre "."%char = None ->
  strchr callee "@"%char = None ->
  strchr callee "+"%char = None ->
  suffix = EmptyString \/ suffix = "+0" \/ (exists ver, suffix = String "@"%char ver) ->
  allocations_succeed 2 w ->
  arch_elf_init_stubs (Some (pre +:+ (STUBN +:+ (callee +:+ suffix)), v) :: rest) bias stubs w
  = arch_elf_init_stubs rest bias
      (mk_library_symbol callee (wrap64 (v + bias)) LS_TOPLT_EXEC PPC64PLT_STUB 0 0 :: stubs)
      (set_alloc (drop 2) w).
Proof.
  intros Hpre Hat Hplus Hsuf Hal. cbn [arch_elf_init_stubs].
  rewrite (strstr_skip pre STUBN (callee +:+ suffix) "."%char "plt_call.") by done.
  cbv zeta. rewrite str_at_app_add, str_at_app.
  unfold bind at 1. rewrite stub_name_length_callee by done.
  destruct (allocate_twice w Hal) as (w1 & Ha1 & Ha2).
  unfold bind at 1. rewrite Ha1. unfold bind at 1. rewrite Ha2.
  cbn [negb orb]. by rewrite strndup_app.
Qed.

End stub_symbols.

Lemma allocate_pair w b1 w1 b2 w2 :
  allocate w = Ok b1 w1 -> allocate w1 = Ok b2 w2 ->
  w_log w2 = w_log w /\
  forall n, allocations_succeed (S (S n)) w
            <-> (b1 = true /\ b2 = true /\ allocations_succeed n w2).
Proof.
  unfold allocate, allocations_succeed. destruct w as [pr qu ti on me ip al en lo].
  simpl. destruct al as [|a1 [|a2 al]]; simpl.
  - intros [= <- <-]. simpl. intros [= <- <-]. simpl. split; [done|].
    intros n. rewrite take_nil. split; [done|]. intros _. constructor.
  - intros [= <- <-]. simpl. intros [= <- <-]. simpl. split; [done|].
    intros n. rewrite take_nil. rewrite Forall_cons. split.
    + intros [-> _]. done.
    + intros (-> & _ & _). done.
  - intros [= <- <-]. simpl. intros [= <- <-]. simpl. split; [done|].
    intros n. rewrite !Forall_cons. tauto.
Qed.

Lemma stub_name_length_result name len (w w' : world) :
  stub_name_length name w = Ok len w' ->
  w' = w /\ len = stub_name_end name.
Proof.
  unfold stub_name_length, stub_name_end. intros H.
  destruct (strchr name _); [by unfold ret in H; injection H as H1 H2|].
  destruct (strrchr name _); [|by unfold ret in H; injection H as H1 H2].
  apply bind_Ok in H as ([] & w1 & Ha & H). unfold assert in Ha.
  destruct (String.eqb _ _); [|done]. unfold ret in Ha, H.
  injection Ha as Ha. injection H as H1 H2. by subst.
Qed.

Lemma stubs_of_cons_some bias sym ss st :
  stub_of bias sym = Some st ->
  stubs_of bias (sym :: ss) = stubs_of bias ss ++ [st] /\
  (2 * length (stubs_of bias (sym :: ss)) = S (S (2 * length (stubs_of bias ss))))%nat.
Proof.
  intros H. unfold stubs_of. cbn [omap list_omap]. rewrite H. cbn [rev].
  split; [done|]. rewrite length_app. simpl. lia.
Qed.

Lemma stubs_of_cons_none bias sym ss :
  stub_of bias sym = None -> stubs_of bias (sym :: ss) = stubs_of bias ss.
Proof. intros H. unfold stubs_of. cbn [omap list_omap]. by rewrite H. Qed.

Lemma arch_elf_init_stubs_exact bias syms : forall stubs w l w',
  arch_elf_init_stubs syms bias stubs w = Ok l w' ->
  w_log w' = w_log w /\
  (~ Forall is_Some syms -> l = []) /\
  forall ss, syms = map Some ss ->
    (allocations_succeed (2 * length (stubs_of bias ss)) w ->
     l = stubs_of bias ss ++ stubs) /\
    (~ allocations_succeed (2 * length (stubs_of bias ss)) w -> l = []).
Proof.
  induction syms as [|[[name v]|] syms IH]; intros stubs w l w' H; simpl in H.
  - injection H as <- <-. split; [done|]. split; [intros Hn; by destruct Hn|].
    intros [|? ?] Hss; [|done]. split; [done|]. intros Hn. destruct Hn. constructor.
  - destruct (strstr name STUBN) as [n|] eqn:Hstr.
    + apply bind_Ok in H as (len & w1 & Hlen & H).
      apply stub_name_length_result in Hlen as [-> ->].
      apply bind_Ok in H as (b1 & w2 & Hb1 & H).
      apply bind_Ok in H as (b2 & w3 & Hb2 & H).
      destruct (allocate_pair _ _ _ _ _ Hb1 Hb2) as [Hlog Hal].
      assert (Hstub : stub_of bias (name, v)
                = Some (with_arch_type PPC64PLT_STUB
                          (library_symbol_init (wrap64 (v + bias))
                             (strndup (str_at name (n + String.length STUBN))
                                (stub_name_end (str_at name (n + String.length STUBN))))
                             LS_TOPLT_EXEC))).
      { unfold stub_of, stub_callee. simpl fst. by rewrite Hstr. }
      destruct (negb b1 || negb b2) eqn:Hb.
      * injection H as <- <-. split; [congruence|]. split; [done|].
        intros [|[name' v'] ss] Hss; [done|]. injection Hss as <- <- ->.
        destruct (stubs_of_cons_some bias (name, v) ss _ Hstub) as [_ Hlen].
        split; [|done]. intros Hs. rewrite Hlen in Hs.
        apply Hal in Hs as (-> & -> & _). done.
      * apply orb_false_iff in Hb as [Hb1' Hb2'].
        apply negb_false_iff in Hb1', Hb2'. subst b1 b2.
        apply IH in H as (Hlog' & Hnone & Hsome). split; [congruence|]. split.
        { intros Hn. apply Hnone. intros Hall. apply Hn. by constructor. }
        intros [|[name' v'] ss] Hss; [done|]. injection Hss as <- <- ->.
        destruct (Hsome ss eq_refl) as [Hok Hfail].
        destruct (stubs_of_cons_some bias (name, v) ss _ Hstub) as [Hcons Hlen].
        rewrite Hlen, Hcons. split.
        -- intros Hs. apply Hal in Hs as (_ & _ & Hs). rewrite (Hok Hs).
           by rewrite <- app_assoc.
        -- intros Hs. apply Hfail. intros Hs'. apply Hs. by apply Hal.
    + apply IH in H as (Hlog' & Hnone & Hsome). split; [done|]. split.
      { intros Hn. apply Hnone. intros Hall. apply Hn. by constructor. }
      intros [|[name' v'] ss] Hss; [done|]. injection Hss as <- <- ->.
      rewrite stubs_of_cons_none; [by apply Hsome|].
      unfold stub_of, stub_callee. cbn [fst]. by rewrite Hstr.
  - injection H as <- <-. split; [done|]. split; [done|].
    intros [|? ?] Hss; done.
Qed.

Lemma load_dynamic_entry_alloc elf tag w r w' :
  load_dynamic_entry elf tag w = Ok r w' -> w_alloc w' = w_alloc w.
Proof.
  unfold load_dynamic_entry. destruct (section_dynamic elf) as [d|].
  - destruct (dyn_sh_entsize d =? 0); [done|].
    generalize (Z.to_nat (dyn_sh_size d / dyn_sh_entsize d)) 0%nat.
    intros n. induction n as [|n IH]; intros j; simpl.
    + by intros [= _ <-].
    + destruct (getdyn d j) as [[t p]|].
      * destruct (t =? tag); [by intros [= _ <-]|]. apply IH.
      * by intros [= _ <-].
  - by intros [= _ <-].
Qed.

(** X9: on PPC64 with a symbol table, [arch_elf_init] keeps all stub
    symbols or none. The answer -1 leaves the stub list as it was. With
    the answer 0, when every symbol can be read and the two allocations
    of every stub succeed, the stub list is the one it started from
    with one STUB symbol for every symbol that has ".plt_call." in its
    name in front, the last such symbol first; when a symbol cannot be
    read, or one of these allocations fails, the stub list is empty. *)
Theorem arch_elf_init_stubs_all_or_nothing
    (elf : elf_file) (lte lte' : ltelf) (syms : list (option (string * Z)))
    (w w' : world) (r : Z) :
  e_machine lte = EM_PPC64 ->
  symtab elf = Some syms ->
  arch_elf_init elf lte w = Ok (r, lte') w' ->
  (r = -1 /\ arch_stubs lte' = arch_stubs lte) \/
  (r = 0 /\
   (~ Forall is_Some syms -> arch_stubs lte' = []) /\
   forall ss, syms = map Some ss ->
     (allocations_succeed (2 * length (stubs_of (bias elf) ss)) w ->
      arch_stubs lte' = stubs_of (bias elf) ss ++ arch_stubs lte) /\
     (~ allocations_succeed (2 * length (stubs_of (bias elf) ss)) w ->
      arch_stubs lte' = [])).
Proof.
  intros Hm Hsym H. unfold arch_elf_init in H. cbv zeta in H.
  cbn [e_machine with_secure_plt arch_secure_plt] in H.
  rewrite Hm in H. rewrite (bool_decide_eq_false_2 (EM_PPC64 = EM_PPC)) in H by done.
  rewrite bool_decide_eq_true_2 in H by done. cbn [andb] in H.
  apply bind_Ok in H as (r1 & w1 & Hr1 & H).
  apply bind_Ok in Hr1 as (g & w2 & Hg & Hr1).
  destruct g as [g|].
  - injection Hr1 as <- <-. cbn [fst snd] in H. simpl in H.
    rewrite Hsym in H. rewrite Hm in H. rewrite bool_decide_eq_true_2 in H by done.
    apply bind_Ok in H as (stubs & w3 & Hst & H). injection H as <- <- <-.
    assert (Hal : w_alloc w2 = w_alloc w).
    { by apply load_dynamic_entry_alloc in Hg. }
    apply arch_elf_init_stubs_exact in Hst as (_ & Hnone & Hsome). right.
    split; [done|]. split; [done|]. intros ss Hss.
    destruct (Hsome ss Hss) as [Hok Hfail]. unfold allocations_succeed in *.
    rewrite Hal in *. done.
  - apply bind_Ok in Hr1 as ([] & w3 & _ & Hr1). injection Hr1 as <- <-.
    simpl in H. injection H as <- <- <-. by left.
Qed.

(** * plt.c: the secure PLT of 32-bit PPC *)

Lemma wrap32_range z : 0 <= wrap32 z < 2 ^ 32.
Proof. unfold wrap32. apply Z.mod_pos_bound. lia. Qed.

(** X10: [get_glink_vma] answers 0 or an address of 32 bits, whatever
    the sections hold; it halts in one case only, on the assertion that
    the offset of [DT_PPC_GOT] in its section is a multiple of 4. *)
Theorem get_glink_vma_range
    (elf : elf_file) (ppcgot : Z) (data : option Elf_Data) (w : world) :
  match get_glink_vma elf ppcgot data w with
  | Ok v _ => 0 <= v < 2 ^ 32
  | Halt h _ =>
      h = Abort /\ ppcgot <> 0 /\
      exists sec, snd (section_covering elf ppcgot) = Some sec /\
                  wrap64 (ppcgot - sh_addr sec) mod 4 <> 0
  end.
Proof.
  pose proof wrap32_range as Hr.
  assert (Hplt : forall w0 : world,
    match (match data with
           | Some d =>
               match read_u32 d 0 with
               | None =>
                   emit (Stderr "couldn't read glink VMA address" []) ;;
                   ret 0
               | Some glink_vma =>
                   debug ".plt glink_vma address: %#x" [wrap32 glink_vma] ;;
                   ret (wrap32 glink_vma)
               end
           | None => ret 0
           end) w0 with
    | Ok v _ => 0 <= v < 2 ^ 32
    | Halt h _ => False
    end).
  { intros w0. destruct data as [d|]; simpl; [|lia].
    destruct (read_u32 d 0); simpl; [apply Hr|lia]. }
  assert (Huse : forall (w0 : world) (P : halt -> world -> Prop),
    match (match data with
           | Some d =>
               match read_u32 d 0 with
               | None =>
                   emit (Stderr "couldn't read glink VMA address" []) ;;
                   ret 0
               | Some glink_vma =>
                   debug ".plt glink_vma address: %#x" [wrap32 glink_vma] ;;
                   ret (wrap32 glink_vma)
               end
           | None => ret 0
           end) w0 with
    | Ok v _ => 0 <= v < 2 ^ 32
    | Halt h w1 => P h w1
    end).
  { intros w0 P. specialize (Hplt w0). by destruct (_ w0). }
  unfold get_glink_vma.
  destruct (ppcgot =? 0) eqn:Hz; cbn [negb].
  { unfold bind at 1. cbn [ret]. unfold bind at 1. cbn [ret]. apply Huse. }
  apply Z.eqb_neq in Hz.
  unfold bind at 1. unfold bind at 1.
  destruct (section_covering elf ppcgot) as [neg sec] eqn:Hc. cbn [fst snd].
  set (w0 := final (when neg
                 (emit (Stderr "DT_PPC_GOT=%#lx, but no such section found" [ppcgot])) w)).
  assert (Hw0 : when neg
                  (emit (Stderr "DT_PPC_GOT=%#lx, but no such section found" [ppcgot])) w
                = Ok tt w0) by (subst w0; by destruct neg).
  rewrite Hw0. cbn [ret]. clearbody w0. clear Hw0.
  unfold bind at 1.
  destruct sec as [sec|]; [|apply Huse].
  destruct (scn_data sec) as [d|]; [|apply Huse].
  destruct (d_size d <? 8); [apply Huse|].
  cbv zeta. unfold bind at 1.
  destruct (wrap64 (ppcgot - sh_addr sec) mod 4 =? 0) eqn:Hal; cbn [assert ret stop].
  2:{ split; [done|]. split; [done|]. exists sec. split; [done|]. by apply Z.eqb_neq. }
  destruct (read_u32 d _) as [gv|]; [|simpl; lia].
  destruct (wrap32 gv =? 0); cbn [negb]; [|simpl; apply Hr].
  cbn [ret]. apply Huse.
Qed.

Lemma wrap64_sub_add g c n :
  wrap64 (wrap64 (g - wrap64 c) + wrap64 n) = wrap64 (g - (c - n)).
Proof.
  unfold wrap64. rewrite Zplus_mod_idemp_l, Zplus_mod_idemp_r.
  rewrite <- Z.add_sub_swap, Zminus_mod_idemp_r. f_equal. lia.
Qed.

(** X11: on 32-bit PPC with a secure PLT (the .plt section is not
    executable), when [DT_PPC_GOT] is found and [get_glink_vma] answers
    [glink], [arch_elf_init] answers 0 and puts the [count] stubs of 16
    bytes right below [glink]: [arch_plt_sym_val] places the entry of
    index [ndx] at [glink - 16 * (count - ndx)], modulo 2^64. *)
Theorem arch_elf_init_ppc32_secure_layout
    (elf : elf_file) (lte : ltelf) (got glink count : Z) (w w0 w1 : world) :
  e_machine lte = EM_PPC ->
  Z.land (plt_flags elf) SHF_EXECINSTR = 0 ->
  load_ppcgot elf w = Ok (Some got) w0 ->
  get_glink_vma elf got (plt_data elf) w0 = Ok glink w1 ->
  relplt_size elf = 12 * count ->
  exists lte',
    arch_elf_init elf lte w
    = Ok (0, lte') (logged (Debug "stub_vma is %#lx" [arch_plt_stub_vma lte']) w1) /\
    arch_plt_stub_vma lte' = wrap64 (glink - wrap64 (16 * count)) /\
    arch_stubs lte' = arch_stubs lte /\
    (arch_plt_stub_vma lte' <> 0 ->
     forall (ndx : Z) (rela : GElf_Rela) (s : world),
       arch_plt_sym_val lte' ndx rela s = Ok (wrap64 (glink - 16 * (count - ndx))) s).
Proof.
  intros Hm Hflags Hgot Hglink Hsize.
  assert (Hcount : relplt_size elf / 12 = count).
  { rewrite Hsize, Z.mul_comm. apply Z.div_mul. lia. }
  assert (Hmod : relplt_size elf mod 12 = 0).
  { rewrite Hsize, Z.mul_comm. apply Z_mod_mult. }
  eexists. split; [|split; [|split]].
  - unfold arch_elf_init. cbv zeta. cbn [e_machine with_secure_plt arch_secure_plt].
    rewrite Hm, Hflags. rewrite bool_decide_eq_true_2 by done. cbn [andb Z.eqb].
    unfold bind at 1. unfold bind at 1. rewrite Hgot.
    unfold bind at 1. rewrite Hglink.
    unfold bind at 1. rewrite Hmod. cbn [Z.eqb assert ret].
    rewrite Hcount. unfold bind at 1. unfold debug, emit, modify, ret.
    cbn [fst snd Z.ltb Z.compare].
    destruct (symtab elf); [|reflexivity].
    cbn [e_machine with_plt_stub_vma with_secure_plt]. rewrite Hm.
    rewrite (bool_decide_eq_false_2 (EM_PPC = EM_PPC64)) by done. reflexivity.
  - cbn [arch_plt_stub_vma with_plt_stub_vma]. unfold PPC_PLT_STUB_SIZE.
    by rewrite Z.mul_comm.
  - done.
  - cbn [arch_plt_stub_vma with_plt_stub_vma]. intros Hnz ndx rela s.
    unfold arch_plt_sym_val.
    cbn [e_machine with_plt_stub_vma with_secure_plt arch_plt_stub_vma arch_secure_plt].
    rewrite Hm. rewrite bool_decide_eq_true_2 by done. cbn [andb].
    rewrite (proj2 (Z.eqb_neq _ _) Hnz). unfold bind, assert, ret. cbn [negb].
    rewrite wrap64_sub_add. unfold PPC_PLT_STUB_SIZE. do 2 f_equal. lia.
Qed.

(** * trace.c: the rows of a pid set *)

Lemma add_task_info_result ps p w r ps' w' :
  add_task_info ps p w = Ok (r, ps') w' ->
  match r with
  | Some i =>
      i = length (tasks ps) /\
      tasks ps' = tasks ps ++ [mk_pid_task p false false false false false] /\
      (alloc ps' = alloc ps /\ length (tasks ps) <> alloc ps \/
       length (tasks ps) = alloc ps /\
       alloc ps' = (if (2 * alloc ps =? 0)%nat then 4 else 2 * alloc ps)%nat)
  | None => ps' = ps /\ length (tasks ps) = alloc ps
  end.
Proof.
  unfold add_task_info. intros H. apply bind_Ok in H as (grown & w1 & Hg & H).
  case_bool_decide as Hlen.
  - apply bind_Ok in Hg as (n & w2 & _ & Hg). destruct n.
    + injection Hg as <- <-. injection H as <- <- <-. simpl. by auto.
    + injection Hg as <- <-. by injection H as <- <- <-.
  - injection Hg as <- <-. injection H as <- <- <-. simpl. by auto.
Qed.

(** X12: a row added by [add_task_info] can be looked up. When no row
    of the set has pid [p], the row that [add_task_info] answers is the
    one [get_task_info] finds for [p] afterwards, it holds [p] with all
    flags clear, and the lookup of every other pid answers as before. *)
Theorem add_task_info_lookup
    (ps ps' : pid_set) (p : Z) (i : nat) (w w' : world) :
  p <> 0 ->
  list_find (fun t => pid t = p) (tasks ps) = None ->
  add_task_info ps p w = Ok (Some i, ps') w' ->
  get_task_info ps' p w' = Ok (Some i) w' /\
  tasks ps' !! i = Some (mk_pid_task p false false false false false) /\
  forall p', p' <> p -> get_task_info ps' p' w' = get_task_info ps p' w'.
Proof.
  intros Hp Hnone H. apply add_task_info_result in H as (-> & Ht & _).
  unfold get_task_info. rewrite Ht. split; [|split].
  - unfold bind, assert. rewrite (proj2 (Z.eqb_neq _ _) Hp). simpl.
    rewrite list_find_app_r by done. simpl. rewrite decide_True by done. done.
  - rewrite lookup_app_r by lia. by rewrite Nat.sub_diag.
  - intros p' Hp'. unfold bind, assert. destruct (negb (p' =? 0)); [|done]. simpl.
    destruct (list_find (fun t => pid t = p') (tasks ps)) as [[j row]|] eqn:Hf.
    + by rewrite (list_find_app_l _ _ _ _ _ Hf).
    + rewrite list_find_app_r by done. simpl. by rewrite decide_False by done.
Qed.

(** X13: [add_task_info] keeps the rows within the allocated capacity.
    A set whose row count is at most [alloc] stays so; a full set grows
    to twice its capacity, or to 4 when it had none. When the
    allocation fails no row is added and the set is as before. *)
Theorem add_task_info_capacity
    (ps ps' : pid_set) (p : Z) (r : option nat) (w w' : world) :
  (length (tasks ps) <= alloc ps)%nat ->
  add_task_info ps p w = Ok (r, ps') w' ->
  (length (tasks ps') <= alloc ps')%nat /\
  match r with
  | Some i =>
      length (tasks ps') = S (length (tasks ps)) /\
      (alloc ps' = alloc ps \/
       length (tasks ps) = alloc ps /\
       alloc ps' = (if (alloc ps =? 0)%nat then 4 else 2 * alloc ps)%nat)
  | None => ps' = ps /\ exists w1, allocate w = Ok false w1
  end.
Proof.
  intros Hcap H. pose proof (add_task_info_result _ _ _ _ _ _ H) as Hr.
  destruct r as [i|].
  - destruct Hr as (-> & Ht & Ha). rewrite Ht, length_app. simpl.
    destruct Ha as [[Ha Hne]|[Hfull Ha]].
    + split; [lia|]. split; [lia|]. by left.
    + rewrite Ha. destruct (alloc ps) as [|n] eqn:Hal; simpl.
      * split; [lia|]. split; [lia|]. right. by rewrite Hfull.
      * split; [lia|]. split; [lia|]. right. split; [done|]. lia.
  - destruct Hr as [-> Hfull]. split; [done|]. split; [done|].
    unfold add_task_info in H. rewrite bool_decide_eq_true_2 in H by done.
    apply bind_Ok in H as (g & w1 & Hg & H).
    apply bind_Ok in Hg as (n & w2 & Hn & Hg). destruct n.
    + injection Hg as <- <-. discriminate H.
    + by exists w2.
Qed.

(** * trace.c: [send_sigstop] over a thread group *)

Lemma pid2proc_same_procs p w w' : w_procs w' = w_procs w -> pid2proc p w' = pid2proc p w.
Proof. unfold pid2proc. by intros ->. Qed.

Lemma map_pid_set_row i f ps :
  (forall r, pid (f r) = pid r) ->
  map pid (tasks (set_row i f ps)) = map pid (tasks ps).
Proof.
  intros Hf. unfold set_row. simpl. generalize (tasks ps). clear ps.
  intros l. revert i. induction l as [|r l IH]; intros [|i]; simpl; try done.
  - by rewrite Hf.
  - by rewrite <- (IH i).
Qed.

Lemma row_lookup_tasks task ps w ti ps1 w1 :
  row_lookup task ps w ti ps1 w1 ->
  tasks ps1 = tasks ps \/
  tasks ps1 = tasks ps ++ [mk_pid_task task false false false false false].
Proof. destruct 1; auto. Qed.

Lemma send_sigstop_zero ps w r w' : send_sigstop 0 ps w = Ok r w' -> False.
Proof.
  unfold send_sigstop. intros H. apply bind_Ok in H as (q & w1 & _ & H).
  apply bind_Ok in H as (f & w2 & Hf & _). unfold get_task_info in Hf.
  apply bind_Ok in Hf as (? & ? & Ha & _). discriminate Ha.
Qed.

(** What a call of [send_sigstop] that lets the walk go on leaves. *)
Lemma send_sigstop_cont task ps w q ps' w' :
  pid2proc task w = Some q ->
  task <> 0 ->
  send_sigstop task ps w = Ok (CBS_CONT, ps') w' ->
  w_procs w' = w_procs w /\
  task ∈ map pid (tasks ps') /\
  exists l, map pid (tasks ps') = map pid (tasks ps) ++ l.
Proof.
  intros Hq Hnz H.
  destruct (send_sigstop_eval task ps w q Hq Hnz) as (ti & ps1 & w1 & Hlk & Heq).
  rewrite Heq in H. clear Heq.
  pose proof (row_lookup_frame _ _ _ _ _ _ Hlk) as (Hprocs & Hlog & Henv).
  assert (Hq1 : pid2proc task w1 = Some q) by (by rewrite (pid2proc_same_procs _ _ _ Hprocs)).
  destruct ti as [i|].
  2:{ apply bind_Ok in H as ([] & w2 & _ & H). apply bind_Ok in H as ([] & w3 & _ & H).
      discriminate H. }
  destruct (row_lookup_row _ _ _ _ _ _ Hlk) as (row & Hrow & Hpid & _).
  rewrite (send_sigstop_row_eval task q i ps1 row w1 Hq1 Hrow) in H.
  assert (Hin : task ∈ map pid (tasks ps1)).
  { apply list_elem_of_fmap. exists row. split; [done|]. by eapply list_elem_of_lookup_2. }
  assert (Hext : exists l, map pid (tasks ps1) = map pid (tasks ps) ++ l).
  { destruct (row_lookup_tasks _ _ _ _ _ _ Hlk) as [-> | ->].
    - exists []. by rewrite app_nil_r.
    - eexists. by rewrite map_app. }
  assert (Hgen : forall ps2 w2,
    map pid (tasks ps2) = map pid (tasks ps1) -> w_procs w2 = w_procs w1 ->
    Ok (CBS_CONT, ps2) w2 = Ok (CBS_CONT, ps') w' ->
    w_procs w' = w_procs w /\ task ∈ map pid (tasks ps') /\
    exists l, map pid (tasks ps') = map pid (tasks ps) ++ l).
  { intros ps2 w2 Hm Hp [= <- <-]. rewrite Hm, Hp. done. }
  assert (Hflag : forall f, (forall r, pid (f r) = pid r) ->
    map pid (tasks (set_row i f
        (if sigstopped row then set_row i (with_delivered false) ps1 else ps1)))
    = map pid (tasks ps1)).
  { intros f Hf. rewrite map_pid_set_row by done.
    destruct (sigstopped row); [by rewrite map_pid_set_row|done]. }
  assert (Hflag0 :
    map pid (tasks (if sigstopped row then set_row i (with_delivered false) ps1 else ps1))
    = map pid (tasks ps1)).
  { destruct (sigstopped row); [by rewrite map_pid_set_row|done]. }
  destruct (bool_decide (proc_state q = STATE_BEING_CREATED));
    [eapply Hgen; [| |exact H]; done|].
  destruct (stopped_status _); [eapply Hgen; [| |exact H]; done|].
  destruct (sigstopped row && negb (delivered row)); [eapply Hgen; [| |exact H]; done|].
  cbv zeta in H.
  destruct (bool_decide _ && group_has_vfork_handler _ _).
  { eapply Hgen; [| |exact H]; [by apply Hflag|done]. }
  destruct (os_kill_fails (w_env w1) task).
  - eapply Hgen; [| |exact H]; [exact Hflag0|done].
  - eapply Hgen; [| |exact H]; [by apply Hflag|done].
Qed.

Lemma send_sigstop_walk ts : forall ps w ps' w',
  Forall (fun t => is_Some (pid2proc t w)) ts ->
  each_task_in ts send_sigstop ps w = Ok (None, ps') w' ->
  w_procs w' = w_procs w /\
  Forall (fun t => t <> 0 /\ t ∈ map pid (tasks ps')) ts /\
  exists l, map pid (tasks ps') = map pid (tasks ps) ++ l.
Proof.
  induction ts as [|t ts IH]; intros ps w ps' w' Hall H.
  - injection H as <- <-. split; [done|]. split; [done|]. exists []. by rewrite app_nil_r.
  - apply Forall_cons in Hall as [[q Hq] Hall]. simpl in H.
    apply bind_Ok in H as ([r ps1] & w1 & Hs & H). cbn [fst snd] in H.
    assert (Hnz : t <> 0) by (intros ->; by eapply send_sigstop_zero).
    destruct r; [by injection H|..|by injection H].
    destruct (send_sigstop_cont _ _ _ _ _ _ Hq Hnz Hs) as (Hp1 & Hin & l1 & Hl1).
    apply IH in H as (Hp & Hrows & l2 & Hl2).
    2:{ eapply Forall_impl; [exact Hall|]. intros x Hx.
        by rewrite (pid2proc_same_procs _ _ _ Hp1). }
    split; [congruence|]. split.
    + constructor; [|done]. split; [done|]. rewrite Hl2. apply elem_of_app. by left.
    + exists (l1 ++ l2). by rewrite Hl2, Hl1, app_assoc.
Qed.

(** X14: when the walk of [send_sigstop] over the thread group of
    [leader] comes to its end, the process directory is as before, the
    rows that the set had are still there in the same order, and
    [get_task_info] finds a row for every task of the group. *)
Theorem send_sigstop_walk_rows
    (leader : Z) (ps ps' : pid_set) (w w' : world) :
  each_task leader send_sigstop ps w = Ok (None, ps') w' ->
  w_procs w' = w_procs w /\
  (exists l, map pid (tasks ps') = map pid (tasks ps) ++ l) /\
  Forall (fun t => exists i, get_task_info ps' t w' = Ok (Some i) w')
         (tasks_of leader w).
Proof.
  unfold each_task. intros H. apply bind_Ok in H as (ts & w1 & Hts & H).
  injection Hts as <- <-.
  apply send_sigstop_walk in H as (Hp & Hrows & Hl); [|apply pid2proc_tasks_of].
  split; [done|]. split; [done|].
  eapply Forall_impl; [exact Hrows|]. intros t [Hnz Hin]. cbv beta in *.
  unfold get_task_info, bind, assert. rewrite (proj2 (Z.eqb_neq _ _) Hnz). simpl.
  apply list_elem_of_fmap in Hin as (row & Hpid & Hin).
  destruct (list_find_elem_of (fun r => pid r = t) (tasks ps') row Hin (eq_sym Hpid))
    as [[i row'] Hf].
  rewrite Hf. by exists i.
Qed.

Lemma send_sigstop_refused_quiet l (x : callback_status * pid_set) :
  respects (keeps (fun w => kills (w_log w)))
    (perror "send_sigstop: add_task_info" ;; destroy_event_handler l ;; ret x).
Proof.
  unfold perror, destroy_event_handler, update_proc, emit.
  repeat frame_step; unfold keeps; simpl; rewrite ?kills_app; simpl;
    by rewrite ?app_nil_r.
Qed.

(** X15: [send_sigstop] sends no signal to a task that is still being
    created, to a task that the system reports as stopped for tracing,
    zombie or gone, or to a task whose row says that a SIGSTOP was sent
    and is not yet delivered. However the call ends no signal is
    logged, and when the walk goes on the log and the flags of all rows
    are as before, with at most a fresh row added for the task. *)
Theorem send_sigstop_spares (task : Z) (ps : pid_set) (w : world) (q : process) :
  pid2proc task w = Some q ->
  task <> 0 ->
  proc_state q = STATE_BEING_CREATED \/
  stopped_status (os_status (w_env w) task) = true \/
  (exists i row, list_find (fun t => pid t = task) (tasks ps) = Some (i, row) /\
                 sigstopped row = true /\ delivered row = false) ->
  kills (w_log (final (send_sigstop task ps w))) = kills (w_log w) /\
  forall r ps' w',
    send_sigstop task ps w = Ok (r, ps') w' ->
    r = CBS_CONT ->
    w_log w' = w_log w /\
    (tasks ps' = tasks ps \/
     tasks ps' = tasks ps ++ [mk_pid_task task false false false false false]).
Proof.
  intros Hq Hnz Hcase.
  destruct (send_sigstop_eval task ps w q Hq Hnz) as (ti & ps1 & w1 & Hlk & Heq).
  rewrite Heq. clear Heq.
  pose proof (row_lookup_frame _ _ _ _ _ _ Hlk) as (Hprocs & Hlog & Henv).
  assert (Hq1 : pid2proc task w1 = Some q) by (by rewrite (pid2proc_same_procs _ _ _ Hprocs)).
  destruct ti as [i|].
  - destruct (row_lookup_row _ _ _ _ _ _ Hlk) as (row & Hrow & Hpid & _).
    rewrite (send_sigstop_row_eval task q i ps1 row w1 Hq1 Hrow). rewrite Henv.
    assert (Hskip : send_sigstop_row_skips q row w task = true ->
      (if bool_decide (proc_state q = STATE_BEING_CREATED) then Ok (CBS_CONT, ps1) w1
       else if stopped_status (os_status (w_env w) task) then Ok (CBS_CONT, ps1) w1
       else if sigstopped row && negb (delivered row) then Ok (CBS_CONT, ps1) w1
       else
         let ps2 := if sigstopped row then set_row i (with_delivered false) ps1 else ps1 in
         if bool_decide (os_status (w_env w) task = PS_SLEEPING)
            && group_has_vfork_handler (proc_leader q) w1
         then Ok (CBS_CONT, set_row i (with_vforked true) ps2) w1
         else if os_kill_fails (w_env w) task
         then Ok (CBS_CONT, ps2)
                (logged (Stderr "Warning: couldn't send SIGSTOP to %d\n" [task])
                   (logged (Kill task SIGSTOP) w1))
         else Ok (CBS_CONT, set_row i (with_sigstopped true) ps2)
                (logged (Debug "send SIGSTOP to %d" [task]) (logged (Kill task SIGSTOP) w1)))
      = Ok (CBS_CONT, ps1) w1).
    { unfold send_sigstop_row_skips. intros Hs.
      destruct (bool_decide (proc_state q = STATE_BEING_CREATED)); [done|].
      destruct (stopped_status _); [done|].
      by destruct (sigstopped row && negb (delivered row)). }
    rewrite Hskip.
    + simpl. split; [by rewrite Hlog|]. intros r ps' w' [= <- <- <-] _.
      split; [done|]. by eapply row_lookup_tasks.
    + unfold send_sigstop_row_skips.
      destruct Hcase as [Hc|[Hc|(j & row' & Hf & Hs & Hd)]].
      * by rewrite bool_decide_eq_true_2.
      * rewrite Hc. by rewrite orb_true_r.
      * inversion Hlk as [i' row'' Hf' | Hf' | ? Hf' | ]; subst; try congruence.
        rewrite Hf in Hf'. injection Hf' as -> ->.
        apply list_find_Some in Hf as (Hi & _). rewrite Hi in Hrow.
        injection Hrow as ->. rewrite Hs, Hd. by rewrite !orb_true_r.
  - split.
    + pose proof (send_sigstop_refused_quiet (proc_leader q) (CBS_STOP, ps1) w1) as Hk.
      unfold keeps in Hk. by rewrite Hk, Hlog.
    + intros r ps' w' H. apply bind_Ok in H as ([] & w2 & _ & H).
      apply bind_Ok in H as ([] & w3 & _ & H). by injection H as <- _ _.
Qed.

(** * trace.c: delivery of the SIGSTOPs *)

Lemma set_row_id i f ps r :
  tasks ps !! i = Some r -> f r = r -> set_row i f ps = ps.
Proof.
  intros Hr Hf. destruct ps as [l a]. unfold set_row, with_tasks. simpl in *. f_equal.
  apply list_eq. intros j. destruct (decide (j = i)) as [->|Hne].
  - by rewrite list_lookup_alter_eq, Hr; simpl; rewrite Hf.
  - by rewrite list_lookup_alter_ne.
Qed.

Lemma set_row_lookup i f ps r :
  tasks ps !! i = Some r -> tasks (set_row i f ps) !! i = Some (f r).
Proof. intros Hr. unfold set_row. simpl. by rewrite list_lookup_alter_eq, Hr. Qed.

Lemma handle_stopping_event_sigstop i row event ps w :
  tasks ps !! i = Some row ->
  ev_type event = EVENT_SIGNAL ->
  e_un event = SIGSTOP ->
  handle_stopping_event (Some i) event ps w
  = if sigstopped row && negb (delivered row)
    then Ok (None, set_row i (with_delivered true) (set_row i (with_got_event true) ps))
           (logged (Debug "SIGSTOP delivered to %d" [pid row]) w)
    else Ok (Some event, set_row i (with_got_event true) ps)
           (logged (Stderr "suspicious: %d got SIGSTOP, but sigstopped=%d and delivered=%d\n"
                      [pid row])
              (logged (Debug "SIGSTOP delivered to %d" [pid row]) w)).
Proof.
  intros Hrow Hty Hsig. unfold handle_stopping_event. rewrite Hty, Hsig.
  rewrite bool_decide_eq_true_2 by done. rewrite Z.eqb_refl. cbn [andb].
  unfold bind at 1. rewrite (set_row_lookup _ _ _ _ Hrow). cbn [deref ret].
  unfold bind at 1. unfold debug, emit, modify.
  cbn [sigstopped delivered with_got_event pid].
  by destruct (sigstopped row && negb (delivered row)).
Qed.

(** X16: an expected SIGSTOP is sunk once. For a task whose row says
    that a SIGSTOP was sent and not delivered, [handle_stopping_event]
    sinks the SIGSTOP event and marks the row [got_event] and
    [delivered]; a second SIGSTOP event for the same task is then not
    sunk: it is handed back, reported as suspicious, and the row is
    not changed again. *)
Theorem handle_stopping_event_sinks_once
    (i : nat) (row : pid_task) (event : Event) (ps : pid_set) (w : world) :
  tasks ps !! i = Some row ->
  ev_type event = EVENT_SIGNAL ->
  e_un event = SIGSTOP ->
  sigstopped row = true ->
  delivered row = false ->
  exists ps1 w1 w2,
    handle_stopping_event (Some i) event ps w = Ok (None, ps1) w1 /\
    tasks ps1 = <[i := with_delivered true (with_got_event true row)]> (tasks ps) /\
    w_log w1 = w_log w ++ [Debug "SIGSTOP delivered to %d" [pid row]] /\
    handle_stopping_event (Some i) event ps1 w1 = Ok (Some event, ps1) w2 /\
    w_log w2 = w_log w1 ++
      [Debug "SIGSTOP delivered to %d" [pid row];
       Stderr "suspicious: %d got SIGSTOP, but sigstopped=%d and delivered=%d\n"
         [pid row]].
Proof.
  intros Hrow Hty Hsig Hs Hd.
  pose proof (set_row_lookup i (with_got_event true) ps row Hrow) as Hrow0.
  pose proof (set_row_lookup i (with_delivered true) _ _ Hrow0) as Hrow1.
  eexists _, _, _. split; [|split; [|split; [|split]]].
  - rewrite (handle_stopping_event_sigstop i row) by done. rewrite Hs, Hd. reflexivity.
  - unfold set_row. simpl. apply list_eq. intros j.
    destruct (decide (j = i)) as [->|Hne].
    + rewrite list_lookup_insert_eq by (by eapply lookup_lt_Some).
      by rewrite !list_lookup_alter_eq, Hrow.
    + rewrite list_lookup_insert_ne by done.
      by rewrite !list_lookup_alter_ne by done.
  - done.
  - rewrite (handle_stopping_event_sigstop i _ _ _ _ Hrow1) by done.
    cbn [sigstopped delivered with_delivered with_got_event pid andb negb].
    rewrite andb_false_r. rewrite (set_row_id i _ _ _ Hrow1) by done. reflexivity.
  - simpl. by rewrite <- app_assoc.
Qed.

(** X17: [await_sigstop_delivery] always returns. It answers 1 only
    when every row with a nonzero pid that was sent a SIGSTOP has it
    delivered, and then it does nothing else. It resumes at most the
    task of the event, with one [PT_SYSCALL], and only when a SIGSTOP
    was sent to that task and the event is neither an exit nor none; it
    then answers 0. *)
Theorem await_sigstop_delivery_clear
    (ps : pid_set) (task_info : option nat) (event : option Event) (w : world) :
  exists b w',
    await_sigstop_delivery ps task_info event w = Ok b w' /\
    (b = true ->
     w' = w /\
     Forall (fun r => pid r <> 0 -> sigstopped r = true -> delivered r = true) (tasks ps)) /\
    (w' = w \/
     b = false /\
     exists i row,
       task_info = Some i /\ tasks ps !! i = Some row /\
       sigstopped row = true /\ event_exit_or_none_p event = false /\
       w' = logged (Ptrace PT_SYSCALL (pid row) 1 0)
              (logged (Debug "continue %d for SIGSTOP delivery" [pid row]) w)).
Proof.
  assert (Hall : forallb (fun r => negb (negb (pid r =? 0) && sigstopped r
                                         && negb (delivered r))) (tasks ps) = true ->
    Forall (fun r => pid r <> 0 -> sigstopped r = true -> delivered r = true) (tasks ps)).
  { intros H. apply Forall_forall. intros r Hr Hp Hs.
    rewrite forallb_forall in H. apply list_elem_of_In in Hr. specialize (H r Hr).
    rewrite Hs, (proj2 (Z.eqb_neq _ _) Hp) in H. simpl in H.
    by destruct (delivered r). }
  assert (Hdef : exists b w',
    ret (forallb (fun r => negb (negb (pid r =? 0) && sigstopped r
                                 && negb (delivered r))) (tasks ps)) w = Ok b w' /\
    (b = true ->
     w' = w /\
     Forall (fun r => pid r <> 0 -> sigstopped r = true -> delivered r = true) (tasks ps)) /\
    (w' = w \/
     b = false /\
     exists i row,
       task_info = Some i /\ tasks ps !! i = Some row /\
       sigstopped row = true /\ event_exit_or_none_p event = false /\
       w' = logged (Ptrace PT_SYSCALL (pid row) 1 0)
              (logged (Debug "continue %d for SIGSTOP delivery" [pid row]) w))).
  { eexists _, w. split; [reflexivity|]. split; [|by left].
    intros Hb. split; [done|]. by apply Hall. }
  unfold await_sigstop_delivery.
  destruct event as [e|]; [|exact Hdef].
  destruct task_info as [i|]; [|exact Hdef]. cbn [mbind option_bind].
  destruct (tasks ps !! i) as [row|] eqn:Hrow; [|exact Hdef].
  destruct (event_exit_or_none_p (Some e)) eqn:Hex; [exact Hdef|].
  destruct (sigstopped row) eqn:Hs; [|exact Hdef]. cbn [negb andb].
  eexists false, _. split; [reflexivity|]. split; [done|]. right. split; [done|].
  exists i, row. by repeat split.
Qed.

(** * trace.c: exit and none events in the stopping handler *)

Lemma respects_bind_ensures {S A B} (R : relation S) `{!PreOrder R}
    (m : M S A) (k : A -> M S B) (Q : A -> Prop) :
  respects R m -> ensures m Q -> (forall a, Q a -> respects R (k a)) ->
  respects R (bind m k).
Proof.
  intros Hm HQ Hk s. unfold bind. specialize (Hm s).
  destruct (m s) as [a s1|h s1] eqn:E; simpl in *; [|done].
  transitivity s1; [done|]. apply Hk. by eapply HQ.
Qed.

Lemma psh_frame_queue {A} (m : M hstate A) :
  respects psh_frame m -> respects (on_world (keeps w_queue)) m.
Proof.
  intros H s. specialize (H s). unfold psh_frame, on_world, keeps in *.
  by injection H.
Qed.

Lemma exit_or_none_not_signal event :
  event_exit_or_none_p (Some event) = true -> ev_type event <> EVENT_SIGNAL.
Proof.
  unfold event_exit_or_none_p, event_exit_p. intros H Hs. rewrite Hs in H.
  by rewrite !bool_decide_eq_false_2 in H.
Qed.

Lemma expects_sigstop_not_signal ps ti event :
  ev_type event <> EVENT_SIGNAL -> expects_sigstop ps ti event = false.
Proof.
  intros H. unfold expects_sigstop. destruct ti as [i|]; [|done].
  destruct (tasks ps !! i); [|done]. by rewrite bool_decide_eq_false_2.
Qed.

Lemma psh_prelude_exit_or_none task event :
  event_exit_or_none_p (Some event) = true ->
  ensures (psh_prelude task event) (fun pre => snd pre = false).
Proof.
  intros Hex s [[ti ev1] etq] s1 H. apply psh_prelude_result in H as (_ & -> & ->).
  cbn [snd]. rewrite expects_sigstop_not_signal by (by apply exit_or_none_not_signal).
  by rewrite Hex.
Qed.

(** X18: the stopping handler never puts an exit, exit-signal or none
    event on the event queue: however the call ends the queue is as it
    was. When the handler returns and is not in the state
    UGLY_WORKAROUND, it hands the event itself back to its caller. *)
Theorem process_stopping_on_event_exit_not_queued (event : Event) (s : hstate) :
  event_exit_or_none_p (Some event) = true ->
  w_queue (hw (final (process_stopping_on_event event s))) = w_queue (hw s) /\
  forall r s',
    process_stopping_on_event event s = Ok r s' ->
    state (self s) <> PSH_UGLY_WORKAROUND ->
    r = Some event.
Proof.
  intros Hex. split.
  - assert (Hr : respects (on_world (keeps w_queue)) (process_stopping_on_event event)).
    { unfold process_stopping_on_event.
      frame_step; [frame_step|]. frame_step; [frame_go|].
      frame_step; [frame_step|]. frame_step; [frame_step|].
      eapply respects_bind_ensures; [apply _|apply queue_psh_prelude|
        by apply psh_prelude_exit_or_none|].
      intros [[ti ev1] etq] Hetq. cbn [fst snd] in *. subst etq.
      apply psh_frame_queue, frame_switch_then_return. }
    apply Hr.
  - intros r s' H Hst.
    apply process_stopping_on_event_steps in H
      as (task & ev1 & etq & ev2 & s2 & Hproc & Hev1 & Hetq & Hev2 & Hkeep & Hq & H).
    assert (Hns : ev_type event <> EVENT_SIGNAL) by (by apply exit_or_none_not_signal).
    assert (Hexp : expected_sigstop s event = false).
    { unfold expected_sigstop. rewrite Hproc. by apply expects_sigstop_not_signal. }
    rewrite Hexp in Hev1. subst ev1. rewrite Hex in Hetq. cbn [negb andb] in Hetq.
    subst etq.
    assert (ev2 = Some event) as ->.
    { apply Hkeep. destruct (state (self s)); auto; [|done].
      right. right. split; [done|]. intros e [= <-] Hb.
      unfold event_exit_or_none_p, event_exit_p in Hex. rewrite Hb in Hex.
      by rewrite !bool_decide_eq_false_2 in Hex. }
    apply queue_or_return_result in H. by destruct H.
Qed.

(** * trace.c: the exiting handler *)

Global Instance on_snd_preorder {X} R `{!PreOrder R} : PreOrder (@on_snd X R).
Proof.
  split; [intros s; unfold on_snd; reflexivity|].
  intros s1 s2 s3 H1 H2. unfold on_snd in *. by transitivity (snd s2).
Qed.

Lemma respects_liftS {X A} (R : relation world) (m : M world A) :
  respects R m -> respects (@on_snd X R) (liftS m).
Proof.
  intros H s. unfold on_snd, liftS. specialize (H (snd s)).
  by destruct (m (snd s)).
Qed.

Lemma ensures_liftS {X A} (m : M world A) (Q : A -> Prop) :
  ensures m Q -> ensures (@liftS X A m) Q.
Proof.
  intros H s a s' Hl. unfold liftS in Hl.
  destruct (m (snd s)) as [a' w'|] eqn:E; [|done]. injection Hl as <- _.
  by eapply H.
Qed.

Ltac frame_snd :=
  repeat (first
    [ apply respects_liftS; solve [eauto with frame nocore]
    | frame_step
    | match goal with
      | |- on_snd _ _ _ => unfold on_snd, keeps; simpl; done
      end ]).

Lemma queue_ltrace_exiting_on_event event :
  respects (on_snd (keeps w_queue)) (ltrace_exiting_on_event event).
Proof.
  unfold ltrace_exiting_on_event.
  assert (Hdbg : forall fmt args, respects (keeps w_queue) (debug fmt args)).
  { intros. unfold debug, emit. frame_go. }
  assert (Hacc : forall ps, respects (keeps w_queue) (all_stops_accountable ps)).
  { intros. apply respects_all_stops_accountable. apply _. }
  assert (Hgp : forall p, respects (keeps w_queue) (get_proc p)).
  { intros. apply respects_get_proc. apply _. }
  repeat (first
    [ apply respects_liftS;
      first [ apply Hdbg | apply Hacc | apply Hgp | solve [eauto with frame nocore] ]
    | frame_step
    | match goal with
      | |- on_snd _ _ _ => unfold on_snd, keeps; simpl; done
      end ]).
Qed.

(** X19: the exiting handler sinks every event that is not an exit,
    an exit signal or none. It never puts an event on the event queue,
    however the call ends; when it returns, it returns nothing, or the
    event it was given, and this only for an exit, exit-signal or none
    event. *)
Theorem ltrace_exiting_on_event_sinks (event : Event) (s : pid_set * world) :
  w_queue (snd (final (ltrace_exiting_on_event event s))) = w_queue (snd s) /\
  forall r s',
    ltrace_exiting_on_event event s = Ok r s' ->
    r = None \/ (r = Some event /\ event_exit_or_none_p (Some event) = true).
Proof.
  split; [apply (queue_ltrace_exiting_on_event event s)|].
  intros r s'. revert s r s'. change (ensures (ltrace_exiting_on_event event)
    (fun r => r = None \/ (r = Some event /\ event_exit_or_none_p (Some event) = true))).
  unfold ltrace_exiting_on_event.
  do 2 (apply ensures_bind; intros ?). cbv zeta.
  do 3 (apply ensures_bind; intros ?).
  eapply ensures_bind_with.
  { apply ensures_liftS, handle_stopping_event_result. }
  intros [ev1 ps1] Hev1. cbn [fst snd] in *.
  do 6 (apply ensures_bind; intros ?).
  destruct (event_exit_or_none_p ev1) eqn:Hex; apply ensures_ret; [|by left].
  destruct (expects_sigstop _ _ _); subst ev1; [by left|by right].
Qed.

Lemma install_event_handler_eval p h w q :
  pid2proc p w = Some q ->
  exists w1,
    install_event_handler p h w = Ok tt w1 /\
    pid2proc p w1 = Some (with_event_handler (Some h) q) /\
    w_env w1 = w_env w /\ w_log w1 = w_log w.
Proof.
  intros Hq. unfold install_event_handler, bind. rewrite (get_proc_eval _ _ _ Hq).
  unfold update_proc, modify. eexists. split; [reflexivity|].
  rewrite pid2proc_update by done. rewrite Hq. simpl.
  rewrite bool_decide_eq_true_2 by (by eapply pid2proc_pid). done.
Qed.

(** X20: installing the exiting handler twice is installing it once.
    When [ltrace_exiting_install_handler] has answered 0 for a process,
    a second call for it answers 0 and changes nothing: no second
    handler is allocated and no task is sent a signal again. When the
    process has a stopping handler, the first call does nothing but set
    the [exiting] flag of that handler. *)
Theorem ltrace_exiting_install_handler_idempotent
    (proc : Z) (s s1 : hstate) (o : option pid_set) :
  ltrace_exiting_install_handler proc s = Ok (0, o) s1 ->
  ltrace_exiting_install_handler proc s1 = Ok (0, None) s1 /\
  (forall q, pid2proc proc (hw s) = Some q ->
             proc_leader q = proc ->
             proc_event_handler q = Some process_stopping_on_event_fn ->
             s1 = set_self (with_exiting true) s).
Proof.
  intros H. unfold ltrace_exiting_install_handler in H.
  apply bind_Ok in H as (q & s0 & Hq & H). apply liftW_Ok in Hq as [Hq Hself].
  unfold get_proc in Hq. destruct (pid2proc proc (hw s)) as [q'|] eqn:Hp; [|done].
  injection Hq as -> Hw. assert (s0 = s) as -> by (destruct s, s0; simpl in *; congruence).
  clear Hw Hself.
  assert (Hstart : forall s2, hw s2 = hw s ->
    ltrace_exiting_install_handler proc s2 =
    (if bool_decide (proc_leader q <> proc) then ret (0, None)
     else if bool_decide (proc_event_handler q = Some ltrace_exiting_on_event_fn)
     then ret (0, None)
     else
       match proc_event_handler q with
       | Some on_event =>
           assert (bool_decide (on_event = process_stopping_on_event_fn)) ;;
           setself (with_exiting true) ;;
           ret (0, None)
       | None =>
           handler <- liftW allocate ;;
           if negb handler then
             liftW (perror "malloc exiting handler") ;;
             ret (-1, None)
           else
             liftW (install_event_handler (proc_leader q) ltrace_exiting_on_event_fn) ;;
             r <- liftW (each_task (proc_leader q) send_sigstop (mk_pid_set [] 0)) ;;
             match fst r with
             | Some _ => ret (-1, Some (snd r))
             | None => ret (0, Some (snd r))
             end
       end) s2).
  { intros s2 Hs2. unfold ltrace_exiting_install_handler. unfold bind at 1.
    unfold liftW at 1. unfold get_proc. rewrite Hs2, Hp. destruct s2; simpl in *.
    by subst. }
  destruct (bool_decide (proc_leader q <> proc)) eqn:Hl.
  { injection H as <- <-. split.
    - by rewrite Hstart.
    - apply bool_decide_eq_true_1 in Hl. by intros ? [= <-] ?. }
  apply bool_decide_eq_false_1, dec_stable in Hl.
  destruct (bool_decide (proc_event_handler q = Some ltrace_exiting_on_event_fn)) eqn:He.
  { injection H as <- <-. split.
    - by rewrite Hstart.
    - apply bool_decide_eq_true_1 in He. intros ? [= <-] _ ?. congruence. }
  destruct (proc_event_handler q) as [h|] eqn:Hh.
  - apply bind_Ok in H as ([] & s2 & Ha & H). unfold assert in Ha.
    destruct (bool_decide (h = process_stopping_on_event_fn)) eqn:Hst; [|done].
    injection Ha as <-. apply bool_decide_eq_true_1 in Hst. subst h.
    apply bind_Ok in H as ([] & s3 & Hset & H). injection Hset as <-.
    injection H as <- <-. split; [|done].
    rewrite Hstart by done. reflexivity.
  - split; [|intros ? [= <-] _ ?; congruence].
    apply bind_Ok in H as (b & s2 & Hb & H). apply liftW_Ok in Hb as [Hb Hself2].
    destruct b; cbn [negb] in H.
    2:{ apply bind_Ok in H as ([] & s3 & _ & H). discriminate H. }
    apply allocate_frame in Hb as (Hp2 & _).
    apply bind_Ok in H as ([] & s3 & Hi & H). apply liftW_Ok in Hi as [Hi Hself3].
    rewrite Hl in Hi, H.
    destruct (install_event_handler_eval proc ltrace_exiting_on_event_fn (hw s2) q)
      as (w3 & Hi' & Hq3 & _); [by rewrite (pid2proc_same_procs _ _ _ Hp2)|].
    rewrite Hi' in Hi. injection Hi as Hw3.
    apply bind_Ok in H as ([r ps] & s4 & Hwalk & H).
    apply liftW_Ok in Hwalk as [Hwalk Hself4]. cbn [fst snd] in H.
    destruct r as [t|]; [discriminate H|]. injection H as <- <-.
    unfold each_task in Hwalk. apply bind_Ok in Hwalk as (ts & w4 & Hts & Hwalk).
    injection Hts as <- <-.
    apply send_sigstop_walk in Hwalk as (Hp4 & _); [|apply pid2proc_tasks_of].
    unfold ltrace_exiting_install_handler. unfold bind at 1. unfold liftW at 1.
    unfold get_proc. rewrite (pid2proc_same_procs _ _ _ Hp4), <- Hw3, Hq3.
    cbn [proc_leader proc_event_handler with_event_handler].
    rewrite bool_decide_eq_false_2 by (by intros ?).
    rewrite bool_decide_eq_true_2 by done. by destruct s4.
Qed.

(** * trace.c: continuing after a system call *)

Lemma continue_process_plain p w :
  w_curthread_onstep w = false ->
  continue_process p w
  = Ok tt (logged (if queued_for p w
                   then Debug "putting off the continue, events in que." []
                   else Ptrace PT_SYSCALL p 1 0)
             (logged (Debug "continue_process: pid=%d" [p]) w)).
Proof.
  intros Hon. unfold continue_process. unfold bind at 1. unfold debug at 1, emit, modify.
  unfold bind at 1. unfold gets. cbn [w_curthread_onstep set_log]. rewrite Hon.
  unfold bind at 1. cbn [when ret]. unfold bind at 1. rewrite have_events_for_eval.
  replace (queued_for p (set_log _ w)) with (queued_for p w) by done.
  by destruct (queued_for p w).
Qed.

(** X21: the return from a system call is not followed by a continue
    while the task or its leader has the stopping handler installed:
    [continue_after_syscall] then leaves a debug record and issues no
    request at all. For the entry into a system call, and when neither
    of the two has a stopping handler, it is [continue_process]. *)
Theorem continue_after_syscall_mid_stopping
    (proc sysnum ret_p : Z) (w : world) (q l : process) :
  pid2proc proc w = Some q ->
  pid2proc (proc_leader q) w = Some l ->
  (ret_p <> 0 ->
   proc_event_handler q = Some process_stopping_on_event_fn \/
   proc_event_handler l = Some process_stopping_on_event_fn ->
   continue_after_syscall proc sysnum ret_p w
   = Ok tt (logged (Debug "continue_after_syscall: don't continue %d" [proc]) w)) /\
  (ret_p = 0 \/
   (proc_event_handler q <> Some process_stopping_on_event_fn /\
    proc_event_handler l <> Some process_stopping_on_event_fn) ->
   continue_after_syscall proc sysnum ret_p w = continue_process proc w).
Proof.
  intros Hq Hl. unfold continue_after_syscall, is_mid_stopping. split.
  - intros Hr Hh. rewrite (proj2 (Z.eqb_neq _ _) Hr). cbn [negb].
    unfold bind at 1. unfold bind at 1. unfold bind at 1.
    rewrite (get_proc_eval _ _ _ Hq). cbn [ret].
    destruct (bool_decide (proc_event_handler q = Some process_stopping_on_event_fn)) eqn:Hb.
    { cbn [ret]. done. }
    apply bool_decide_eq_false_1 in Hb. destruct Hh as [Hh|Hh]; [done|].
    unfold bind at 1. rewrite (get_proc_eval _ _ _ Hq).
    unfold bind at 1. rewrite (get_proc_eval _ _ _ Hl). cbn [ret].
    by rewrite bool_decide_eq_true_2.
  - intros [->|[Hnq Hnl]]; [done|].
    destruct (ret_p =? 0); [done|]. cbn [negb].
    unfold bind at 1. unfold bind at 1. unfold bind at 1.
    rewrite (get_proc_eval _ _ _ Hq). cbn [ret].
    rewrite bool_decide_eq_false_2 by done.
    unfold bind at 1. rewrite (get_proc_eval _ _ _ Hq).
    unfold bind at 1. rewrite (get_proc_eval _ _ _ Hl). cbn [ret].
    by rewrite bool_decide_eq_false_2.
Qed.

(** * trace.c: the vfork handler *)

Lemma next_process_map c f l :
  (forall q, proc_pid (f q) = proc_pid q) ->
  next_process c (map f l) = f <$> next_process c l.
Proof.
  intros Hf. induction l as [|q l IH]; [done|]. simpl. rewrite Hf.
  destruct (bool_decide (proc_pid q = c)); [by destruct l|done].
Qed.

Lemma pid2proc_in p w q : pid2proc p w = Some q -> q ∈ w_procs w.
Proof.
  unfold pid2proc. intros H. apply find_some in H as [H _]. by apply list_elem_of_In.
Qed.

Lemma pid2proc_update_other p x f w :
  (forall q, proc_pid (f q) = proc_pid q) -> p <> x ->
  pid2proc p (set_procs
                (map (fun q => if bool_decide (proc_pid q = x) then f q else q)) w)
  = pid2proc p w.
Proof.
  intros Hf Hne. rewrite pid2proc_update by done.
  destruct (pid2proc p w) as [q|] eqn:Hq; [|done]. simpl.
  rewrite bool_decide_eq_false_2; [done|].
  apply pid2proc_pid in Hq. congruence.
Qed.

Lemma pid2proc_update_same p f w q :
  (forall q, proc_pid (f q) = proc_pid q) ->
  pid2proc p w = Some q ->
  pid2proc p (set_procs
                (map (fun q => if bool_decide (proc_pid q = p) then f q else q)) w)
  = Some (f q).
Proof.
  intros Hf Hq. rewrite pid2proc_update by done. rewrite Hq. simpl.
  by rewrite bool_decide_eq_true_2 by (by eapply pid2proc_pid).
Qed.

Lemma update_proc_eval p f w :
  update_proc p f w
  = Ok tt (set_procs (map (fun q => if bool_decide (proc_pid q = p) then f q else q)) w).
Proof. done. Qed.

Lemma group_has_vfork_handler_intro leader t w q :
  pid2proc t w = Some q ->
  proc_leader q = leader ->
  proc_event_handler q = Some process_vfork_on_event_fn ->
  group_has_vfork_handler leader w = true.
Proof.
  intros Hq Hl Hh. unfold group_has_vfork_handler. apply existsb_exists.
  exists t. split.
  - apply list_elem_of_In. unfold tasks_of. apply list_elem_of_fmap.
    exists q. split; [by erewrite pid2proc_pid|].
    apply list_elem_of_filter. split; [done|]. by eapply pid2proc_in.
  - rewrite Hq. by apply bool_decide_eq_true_2.
Qed.

Lemma insert_breakpoint_eval p a w qp ql :
  pid2proc p w = Some qp ->
  pid2proc (proc_leader qp) w = Some ql ->
  insert_breakpoint p a None w
  = Ok tt (set_procs
             (map (fun q => if bool_decide (proc_pid q = proc_leader qp)
                            then with_breakpoints
                                   (insert a (reinserted a (proc_breakpoints ql !! a))) q
                            else q))
             (logged (Call "insert_breakpoint" [p; a]) w)).
Proof.
  intros Hp Hl. unfold insert_breakpoint.
  rewrite (bind_eval _ _ w tt (logged (Call "insert_breakpoint" [p; a]) w)) by done.
  rewrite (bind_eval _ _ _ qp _) by (by apply get_proc_eval).
  unfold breakpoints_of.
  rewrite (bind_eval _ _ _ (proc_breakpoints ql) (logged (Call "insert_breakpoint" [p; a]) w)).
  2:{ rewrite (bind_eval _ _ _ ql _) by (by apply get_proc_eval). done. }
  by destruct (proc_breakpoints ql !! a).
Qed.

(** X22: the vfork window is set up and undone. For a child [c] that
    is its own leader and has no thread, [continue_after_vfork] puts it
    in the thread group of its parent [p] with the vfork handler
    installed, so that [is_vfork_parent] holds for the parent. With
    any recorded address [a], the handler then hands the exit,
    exit-signal or exec event of the child back to its caller, calls
    [continue_process] for the parent, and leaves the child as it was
    before the call of [continue_after_vfork]: its own leader, with no
    event handler. When no address was recorded ([a = 0]) no other
    process of the directory is changed; else [insert_breakpoint] is
    called for the parent at [a], which changes the breakpoints of the
    parent's leader at [a] and nothing else. *)
Theorem vfork_window_round_trip
    (c p a : Z) (w : world) (qc qp ql : process) (event : Event) :
  pid2proc c w = Some qc ->
  proc_leader qc = c ->
  proc_event_handler qc = None ->
  proc_parent qc = Some p ->
  c <> p ->
  pid2proc p w = Some qp ->
  pid2proc (proc_leader qp) w = Some ql ->
  proc_leader qp <> c ->
  match next_process c (w_procs w) with
  | None => True
  | Some n => proc_leader n <> c
  end ->
  (forall b, a <> 0 -> proc_breakpoints ql !! a = Some b -> bp_libsym b = None) ->
  allocations_succeed 1 w ->
  w_curthread_onstep w = false ->
  ev_proc event = Some c ->
  ev_type event = EVENT_EXIT \/ ev_type event = EVENT_EXIT_SIGNAL \/
  ev_type event = EVENT_EXEC ->
  exists w1 w2,
    continue_after_vfork c w = Ok (Some 0) w1 /\
    pid2proc c w1
    = Some (with_leader (proc_leader qp)
              (with_event_handler (Some process_vfork_on_event_fn) qc)) /\
    is_vfork_parent p w1 = Ok true w1 /\
    process_vfork_on_event event (a, w1) = Ok (Some event) (a, w2) /\
    pid2proc c w2 = Some qc /\
    (forall t, t <> c -> t <> proc_leader qp \/ a = 0 -> pid2proc t w2 = pid2proc t w) /\
    (a <> 0 ->
     pid2proc (proc_leader qp) w2
     = Some (with_breakpoints (insert a (reinserted a (proc_breakpoints ql !! a))) ql)) /\
    calls (w_log w2)
    = calls (w_log w) ++ (if a =? 0 then [] else [Call "insert_breakpoint" [p; a]]) /\
    continued (w_log w2) = continued (w_log w) ++ [p].
Proof.
  intros Hqc Hlead Hnoh Hpar Hne Hqp Hql Hlc Hnext Hsym Hal Hon Hev Hty.
  set (w0 := logged (Debug "continue_after_vfork: pid=%d" [c]) w).
  destruct (allocate_succeeds 0 w0) as (wa & Ha & _ & Hwa); [done|].
  set (wi := set_procs (map (fun q : process => if bool_decide (proc_pid q = c) then (with_event_handler (Some process_vfork_on_event_fn)) q else q)) wa).
  set (w1 := set_procs (map (fun q : process => if bool_decide (proc_pid q = c) then (with_leader (proc_leader qp)) q else q)) wi).
  assert (Hqa : pid2proc c wa = Some qc) by (by subst wa).
  assert (Hqi : pid2proc c wi
                = Some (with_event_handler (Some process_vfork_on_event_fn) qc)).
  { subst wi. by apply pid2proc_update_same. }
  assert (Hq1 : pid2proc c w1
                = Some (with_leader (proc_leader qp)
                          (with_event_handler (Some process_vfork_on_event_fn) qc))).
  { subst w1. by apply pid2proc_update_same. }
  assert (Hother1 : forall t, t <> c -> pid2proc t w1 = pid2proc t w).
  { intros t Ht. subst w1 wi. rewrite !pid2proc_update_other by done. by subst wa. }
  assert (Hpi : pid2proc p wi = Some qp).
  { subst wi. rewrite pid2proc_update_other by done. by subst wa. }
  assert (Hp1 : pid2proc p w1 = Some qp) by (by rewrite Hother1).
  assert (Hl1 : pid2proc (proc_leader qp) w1 = Some ql) by (by rewrite Hother1).
  assert (Hn : next_process c (w_procs wi)
               = (fun q : process =>
                    if bool_decide (proc_pid q = c)
                    then with_event_handler (Some process_vfork_on_event_fn) q else q)
                 <$> next_process c (w_procs w)).
  { subst wi wa w0. simpl. rewrite next_process_map; [done|].
    intros q. by destruct (bool_decide _). }
  assert (Hcav : continue_after_vfork c w = Ok (Some 0) w1).
  { unfold continue_after_vfork.
    rewrite (bind_eval _ _ w tt w0) by done. cbv beta.
    rewrite (bind_eval _ _ _ _ _ Ha). cbv beta. cbn [negb].
    rewrite (bind_eval _ _ wa tt wi).
    2:{ unfold install_event_handler. by rewrite (bind_eval _ _ _ _ _ (get_proc_eval _ _ _ Hqa)). }
    cbv beta. rewrite (bind_eval _ _ _ _ _ (get_proc_eval _ _ _ Hqi)). cbv beta.
    cbn [proc_leader with_event_handler proc_parent].
    rewrite bool_decide_eq_true_2 by done. rewrite (bind_eval _ _ wi tt wi) by done.
    cbv beta. rewrite (bind_eval _ _ wi _ wi) by reflexivity. cbv beta.
    rewrite Hn.
    rewrite (bind_eval _ _ wi tt wi).
    2:{ destruct (next_process c (w_procs w)) as [n|]; simpl; [|done].
        rewrite bool_decide_eq_true_2; [done|].
        by destruct (bool_decide (proc_pid n = c)). }
    cbv beta. rewrite Hpar. rewrite bool_decide_eq_true_2 by done.
    rewrite (bind_eval _ _ wi tt wi) by done. cbv beta.
    rewrite (bind_eval _ _ wi p wi) by done. cbv beta.
    rewrite (bind_eval _ _ _ _ _ (get_proc_eval _ _ _ Hpi)). cbv beta.
    rewrite (bind_eval _ _ wi tt w1); [done|].
    unfold change_process_leader.
    by rewrite (bind_eval _ _ _ _ _ (get_proc_eval _ _ _ Hqi)). }
  set (wd := logged (Debug "process_vfork_on_event: pid %d" [c]) w1).
  set (wb := if a =? 0 then wd
             else set_procs
                    (map (fun q => if bool_decide (proc_pid q = proc_leader qp)
                                   then with_breakpoints
                                          (insert a (reinserted a (proc_breakpoints ql !! a))) q
                                   else q))
                    (logged (Call "insert_breakpoint" [p; a]) wd)).
  set (wc := logged (if queued_for p wb
                     then Debug "putting off the continue, events in que." []
                     else Ptrace PT_SYSCALL p 1 0)
               (logged (Debug "continue_process: pid=%d" [p]) wb)).
  set (wl := set_procs (map (fun q : process => if bool_decide (proc_pid q = c) then (with_leader c) q else q)) wc).
  set (w2 := set_procs (map (fun q : process => if bool_decide (proc_pid q = c) then (with_event_handler None) q else q)) wl).
  assert (Hcb : pid2proc c wb = pid2proc c wd).
  { subst wb. destruct (a =? 0); [done|]. by rewrite pid2proc_update_other. }
  assert (Honb : w_curthread_onstep wb = false).
  { subst wb. destruct (a =? 0); subst wd w1 wi wa w0; exact Hon. }
  assert (Hqd : pid2proc c wc
                = Some (with_leader (proc_leader qp)
                          (with_event_handler (Some process_vfork_on_event_fn) qc))).
  { transitivity (pid2proc c wb); [done|]. by rewrite Hcb. }
  assert (Hql' : pid2proc c wl
                = Some (with_leader c (with_leader (proc_leader qp)
                          (with_event_handler (Some process_vfork_on_event_fn) qc)))).
  { subst wl. by apply pid2proc_update_same. }
  assert (Hins : (if negb (a =? 0) then
                    sbp <- liftS (dict_find_entry (proc_leader qp) a) ;;
                    match sbp with
                    | Some b => assert (bool_decide (bp_libsym b = None))
                    | None => ret tt
                    end ;;
                    parent <- deref (Some p) ;;
                    liftS (insert_breakpoint parent a None)
                  else ret tt) (a, wd) = Ok tt (a, wb)).
  { subst wb. destruct (a =? 0) eqn:Ha0; [done|]. cbn [negb].
    apply Z.eqb_neq in Ha0.
    rewrite (bind_eval _ _ (a, wd) (proc_breakpoints ql !! a) (a, wd)).
    2:{ unfold liftS, dict_find_entry, breakpoints_of. cbn [fst snd].
        rewrite (bind_eval _ _ wd (proc_breakpoints ql) wd); [done|].
        by rewrite (bind_eval _ _ wd ql wd) by (by apply get_proc_eval). }
    cbv beta. rewrite (bind_eval _ _ (a, wd) tt (a, wd)).
    2:{ destruct (proc_breakpoints ql !! a) as [b|] eqn:Hb; [|done].
        unfold assert. by rewrite bool_decide_eq_true_2 by (by eapply Hsym). }
    cbv beta. rewrite (bind_eval _ _ (a, wd) p (a, wd)) by done. cbv beta.
    unfold liftS. cbn [fst snd].
    by rewrite (insert_breakpoint_eval p a wd qp ql). }
  exists w1, w2. split; [done|]. split; [done|].
  split; [|split; [|split; [|split; [|split; [|split]]]]].
  - rewrite (is_vfork_parent_eval _ _ _ Hp1). do 2 f_equal.
    by apply (group_has_vfork_handler_intro _ c _ _ Hq1).
  - assert (Hbody :
      (bp_addr <- gets fst ;;
       q <- liftS (get_proc c) ;;
       (if negb (bp_addr =? 0) then
          sbp <- liftS (dict_find_entry (proc_leader q) bp_addr) ;;
          match sbp with
          | Some b => assert (bool_decide (bp_libsym b = None))
          | None => ret tt
          end ;;
          parent <- deref (proc_parent q) ;;
          liftS (insert_breakpoint parent bp_addr None)
        else ret tt) ;;
       parent <- deref (proc_parent q) ;;
       liftS (continue_process parent) ;;
       liftS (change_process_leader c c) ;;
       liftS (destroy_event_handler c)) (a, wd) = Ok tt (a, w2)).
    { rewrite (bind_eval _ _ (a, wd) a (a, wd)) by done. cbv beta.
      rewrite (bind_eval _ _ (a, wd)
                 (with_leader (proc_leader qp)
                    (with_event_handler (Some process_vfork_on_event_fn) qc)) (a, wd)).
      2:{ unfold liftS. cbn [fst snd]. by rewrite (get_proc_eval c wd _ Hq1). }
      cbv beta. cbn [proc_parent proc_leader with_leader with_event_handler].
      rewrite Hpar. rewrite (bind_eval _ _ _ _ _ Hins). cbv beta.
      rewrite (bind_eval _ _ (a, wb) p (a, wb)) by done. cbv beta.
      rewrite (bind_eval _ _ (a, wb) tt (a, wc)).
      2:{ unfold liftS. cbn [fst snd]. by rewrite continue_process_plain. }
      cbv beta.
      rewrite (bind_eval _ _ (a, wc) tt (a, wl)).
      2:{ unfold liftS. cbn [fst snd]. unfold change_process_leader.
          by rewrite (bind_eval _ _ _ _ _ (get_proc_eval _ _ _ Hqd)). }
      cbv beta. unfold liftS. cbn [fst snd]. unfold destroy_event_handler.
      by rewrite (bind_eval _ _ _ _ _ (get_proc_eval _ _ _ Hql')). }
    unfold process_vfork_on_event. rewrite Hev.
    rewrite (bind_eval _ _ (a, w1) c (a, w1)) by done. cbv beta.
    rewrite (bind_eval _ _ (a, w1) tt (a, wd)) by done. cbv beta.
    destruct Hty as [-> | [-> | ->]]; by rewrite (bind_eval _ _ _ _ _ Hbody).
  - subst w2. rewrite (pid2proc_update_same c (with_event_handler None) wl _ ltac:(done) Hql').
    f_equal. destruct qc. simpl in *. by subst.
  - intros t Ht Hcase. subst w2 wl. rewrite !pid2proc_update_other by done.
    transitivity (pid2proc t wb); [done|]. rewrite <- (Hother1 t Ht).
    subst wb. destruct (a =? 0) eqn:Ha0; [done|].
    destruct Hcase as [Hcase|Hcase]; [|apply Z.eqb_neq in Ha0; done].
    by rewrite pid2proc_update_other.
  - intros Ha0. subst w2 wl. rewrite !pid2proc_update_other by done.
    transitivity (pid2proc (proc_leader qp) wb); [done|]. subst wb.
    rewrite (proj2 (Z.eqb_neq _ _) Ha0).
    by rewrite (pid2proc_update_same _ _ _ ql) by done.
  - subst w2 wl wc wb. destruct (a =? 0); subst wd w1 wi wa w0;
      cbn [w_log set_procs set_log logged set_alloc]; rewrite !calls_app;
      cbn [calls List.filter]; destruct (queued_for p _); simpl; by rewrite ?app_nil_r.
  - subst w2 wl wc wb. destruct (a =? 0); subst wd w1 wi wa w0;
      cbn [w_log set_procs set_log logged set_alloc]; rewrite !continued_app;
      cbn [continued flat_map]; destruct (queued_for p _); simpl; by rewrite ?app_nil_r.
Qed.

(** X23: the vfork handler hands every event back to its caller. It
    records the address of the first breakpoint event only: of two
    breakpoint events in a row, the first one at a nonzero address, the
    handler keeps the address of the first; breakpoint events leave the
    process directory as it is. *)
Theorem process_vfork_on_event_records_first
    (e1 e2 : Event) (w w1 w2 : world) (a1 a2 : Z) (r1 r2 : option Event) :
  ev_type e1 = EVENT_BREAKPOINT ->
  ev_type e2 = EVENT_BREAKPOINT ->
  e_un e1 <> 0 ->
  process_vfork_on_event e1 (0, w) = Ok r1 (a1, w1) ->
  process_vfork_on_event e2 (a1, w1) = Ok r2 (a2, w2) ->
  r1 = Some e1 /\ r2 = Some e2 /\
  a1 = e_un e1 /\ a2 = e_un e1 /\
  w_procs w2 = w_procs w.
Proof.
  intros Ht1 Ht2 Hnz H1 H2. unfold process_vfork_on_event in *.
  rewrite Ht1 in H1. rewrite Ht2 in H2.
  destruct (ev_proc e1) as [p1|]; [|done]. destruct (ev_proc e2) as [p2|]; [|done].
  unfold bind, liftS, debug, emit, modify, gets, when, ret in H1. simpl in H1.
  injection H1 as <- <- <-.
  unfold bind, liftS, debug, emit, modify, gets, when, ret in H2. simpl in H2.
  rewrite (proj2 (Z.eqb_neq _ _) Hnz) in H2. by injection H2 as <- <- <-.
Qed.

(** * trace.c: [detach_process] *)

Lemma bind_halt {S A B} (m : M S A) (k : A -> M S B) s h s1 :
  m s = Halt h s1 -> bind m k s = Halt h s1.
Proof. unfold bind. by intros ->. Qed.

Lemma existsb_ext_pid {A} (f g : A -> bool) l :
  (forall x, f x = g x) -> existsb f l = existsb g l.
Proof. intros H. induction l as [|x l IH]; [done|]. simpl. by rewrite H, IH. Qed.

Lemma detaches_app l1 l2 : detaches (l1 ++ l2) = detaches l1 ++ detaches l2.
Proof. apply flat_map_app. Qed.

Ltac detach_leaf :=
  lazymatch goal with
  | |- keeps _ _ _ =>
      unfold keeps; simpl; rewrite ?detaches_app; simpl; rewrite ?app_nil_r; done
  end.

Ltac frame_detach :=
  unfold debug, perror, fprintf_stderr, ptrace, emit;
  repeat (first [ frame_known | frame_step | detach_leaf ]).

Lemma detach_prefix_frame leader :
  respects (keeps (fun w => (w_procs w, w_env w, detaches (w_log w))))
    (each_qd_event (fun e => undo_breakpoint (Some e) leader) ;;
     disable_all_breakpoints leader ;;
     proc_each_breakpoint leader retract_breakpoint_cb).
Proof.
  unfold undo_breakpoint, set_instruction_pointer, disable_all_breakpoints,
    proc_each_breakpoint, retract_breakpoint_cb, breakpoint_on_retract, breakpoints_of.
  frame_detach.
Qed.

Lemma detach_suffix_frame leader :
  respects (keeps (fun w => detaches (w_log w)))
    (each_task leader (remove_task (Some leader)) tt ;;
     destroy_event_handler leader ;;
     remove_task None leader tt ;;
     ret tt).
Proof.
  unfold remove_task, remove_process, destroy_event_handler, update_proc.
  frame_detach.
Qed.

Lemma untrace_walk ts w :
  each_task_in ts (untrace_task None) tt w
  = Ok (None, tt)
      (set_log (fun l => l ++ flat_map (fun t => [Debug "untrace_pid: pid=%d" [t];
                                                  Ptrace PT_DETACH t 1 0]) ts) w).
Proof.
  revert w. induction ts as [|t ts IH]; intros w.
  - simpl. destruct w. unfold set_log, ret. simpl. by rewrite app_nil_r.
  - simpl. unfold bind at 1. unfold untrace_task at 1.
    rewrite bool_decide_eq_true_2 by done. cbn [when].
    unfold bind at 1. unfold untrace_pid. unfold bind at 1.
    unfold debug, ptrace, emit, modify. cbn [ret fst snd]. rewrite IH.
    destruct w. unfold set_log. simpl. by rewrite <- !app_assoc.
Qed.

Lemma untrace_attached_eval leader its : forall w,
  exists w',
    untrace_attached leader its w = Ok tt w' /\
    w_procs w' = w_procs w /\ w_env w' = w_env w /\ w_queue w' = w_queue w /\
    detaches (w_log w')
    = detaches (w_log w)
      ++ (if existsb (fun it => match pid2proc it w with
                                | Some q => bool_decide (proc_leader q = leader)
                                | None => false
                                end) its
          then tasks_of leader w else []).
Proof.
  induction its as [|it its IH]; intros w.
  - exists w. split; [done|]. simpl. by rewrite app_nil_r.
  - simpl. unfold bind at 1. unfold gets.
    destruct (pid2proc it w) as [q|] eqn:Hq; [|apply IH].
    destruct (bool_decide (proc_leader q = leader)); [|apply IH]. cbn [orb].
    unfold each_task. unfold bind at 1. unfold bind at 1. unfold gets.
    rewrite untrace_walk. eexists. split; [reflexivity|].
    cbn [w_procs w_env w_queue w_log set_log]. split; [done|]. split; [done|].
    split; [done|]. rewrite detaches_app. f_equal.
    induction (tasks_of leader w) as [|t ts IHt]; [done|]. simpl. by rewrite IHt.
Qed.

(** X24: [detach_process] detaches the tasks of a thread group only
    when the group was attached to with -p. When no pid given with -p
    is a process of the group of [leader], no [PT_DETACH] is issued,
    however the call ends. When one is, a call that returns has issued
    one [PT_DETACH] for every task of the group, the leader too, in the
    order of the directory. *)
Theorem detach_process_untraces (leader : Z) (w : world) :
  (attached_with_p leader w = false ->
   detaches (w_log (final (detach_process leader w))) = detaches (w_log w)) /\
  (attached_with_p leader w = true ->
   forall w', detach_process leader w = Ok tt w' ->
              detaches (w_log w') = detaches (w_log w) ++ tasks_of leader w).
Proof.
  assert (Hsplit : detach_process leader w
    = ((each_qd_event (fun e => undo_breakpoint (Some e) leader) ;;
        disable_all_breakpoints leader ;;
        proc_each_breakpoint leader retract_breakpoint_cb) ;;
       opt_p <- gets (fun w => os_opt_p (w_env w)) ;;
       untrace_attached leader opt_p ;;
       each_task leader (remove_task (Some leader)) tt ;;
       destroy_event_handler leader ;;
       remove_task None leader tt ;;
       ret tt) w).
  { unfold detach_process, bind.
    destruct (each_qd_event _ w) as [? w1|]; [|done].
    destruct (disable_all_breakpoints leader w1) as [? w2|]; [|done]. done. }
  rewrite Hsplit. clear Hsplit.
  pose proof (detach_prefix_frame leader w) as Hpre. unfold keeps in Hpre.
  destruct ((each_qd_event (fun e => undo_breakpoint (Some e) leader) ;;
             disable_all_breakpoints leader ;;
             proc_each_breakpoint leader retract_breakpoint_cb) w)
    as [[] w1|h w1] eqn:E1; simpl in Hpre; injection Hpre as Hp1 He1 Hd1.
  2:{ rewrite (bind_halt _ _ _ _ _ E1). split; [done|]. intros _ w' Habs.
      discriminate Habs. }
  rewrite (bind_eval _ _ _ _ _ E1). cbv beta.
  rewrite (bind_eval _ _ w1 (os_opt_p (w_env w1)) w1) by done. cbv beta.
  destruct (untrace_attached_eval leader (os_opt_p (w_env w1)) w1)
    as (w2 & Hun & Hp2 & He2 & _ & Hd2).
  assert (Hatt : existsb (fun it => match pid2proc it w1 with
                                    | Some q => bool_decide (proc_leader q = leader)
                                    | None => false
                                    end) (os_opt_p (w_env w1))
                 = attached_with_p leader w).
  { unfold attached_with_p. rewrite He1. apply existsb_ext_pid. intros it.
    by rewrite (pid2proc_same_procs _ _ _ Hp1). }
  rewrite Hatt in Hd2.
  rewrite (bind_eval _ _ _ _ _ Hun). cbv beta.
  pose proof (detach_suffix_frame leader w2) as Hsuf. unfold keeps in Hsuf.
  assert (Hts : tasks_of leader w1 = tasks_of leader w) by (unfold tasks_of; by rewrite Hp1).
  split.
  - intros Hno. rewrite Hno in Hd2. rewrite app_nil_r in Hd2.
    rewrite Hsuf. congruence.
  - intros Hyes w' Hok. rewrite Hyes in Hd2. rewrite Hok in Hsuf. simpl in Hsuf.
    rewrite Hsuf, Hd2, Hd1, Hts. done.
Qed.

Lemma filter_all {A} (P : A -> Prop) `{!forall x, Decision (P x)} (l : list A) :
  (forall x, P x) -> filter P l = l.
Proof.
  intros HP. induction l as [|x l IH]; [done|].
  rewrite filter_cons, decide_True by done. by rewrite IH.
Qed.

Lemma remove_walk leader ts : forall w,
  exists w',
    each_task_in ts (remove_task (Some leader)) tt w = Ok (None, tt) w' /\
    w_procs w'
    = filter (fun q => proc_pid q ∉ ts \/ proc_pid q = leader) (w_procs w).
Proof.
  induction ts as [|t ts IH]; intros w.
  - exists w. split; [done|]. simpl. symmetry. apply filter_all.
    intros q. left. apply not_elem_of_nil.
  - simpl. unfold bind at 1. unfold remove_task at 1. unfold bind at 1.
    destruct (decide (t = leader)) as [->|Hne].
    + rewrite bool_decide_eq_false_2 by (by intros ?). cbn [when ret fst snd].
      destruct (IH w) as (w' & Hw & Hp). exists w'. split; [done|]. rewrite Hp.
      apply list_filter_iff. intros q. rewrite not_elem_of_cons.
      destruct (decide (proc_pid q = leader)); tauto.
    + rewrite bool_decide_eq_true_2 by congruence. cbn [when].
      unfold remove_process. unfold bind at 1. unfold emit, modify. cbn [ret fst snd].
      match goal with |- context [each_task_in ts _ tt ?w0] =>
        destruct (IH w0) as (w' & Hw & Hp) end.
      exists w'. split; [done|]. rewrite Hp. cbn [w_procs set_procs set_log].
      rewrite list_filter_filter. apply list_filter_iff. intros q.
      rewrite not_elem_of_cons.
      destruct (decide (proc_pid q = leader)) as [Hq|Hq]; [|tauto].
      split; [tauto|]. intros _. split; [by right|]. congruence.
Qed.

Lemma filter_update_removed x f (l : list process) :
  (forall q, proc_pid (f q) = proc_pid q) ->
  filter (fun q => proc_pid q <> x)
    (map (fun q => if bool_decide (proc_pid q = x) then f q else q) l)
  = filter (fun q => proc_pid q <> x) l.
Proof.
  intros Hf. induction l as [|q l IH]; [done|]. simpl. rewrite !filter_cons.
  destruct (decide (proc_pid q = x)) as [Hq|Hq].
  - rewrite bool_decide_eq_true_2 by done.
    rewrite decide_False by (rewrite Hf; by intros ?).
    by rewrite decide_False by (by intros ?).
  - rewrite bool_decide_eq_false_2 by done. rewrite !decide_True by done.
    by rewrite IH.
Qed.

(** X25: a call of [detach_process] that returns has taken the thread
    group of [leader] out of the process directory: the directory is the
    one before the call without the tasks of the group and without the
    leader, every other process being kept as it was, in the same
    order; no task has [leader] as its leader any more. *)
Theorem detach_process_removes_group (leader : Z) (w w' : world) :
  detach_process leader w = Ok tt w' ->
  w_procs w'
  = filter (fun q => (proc_pid q ∉ tasks_of leader w) /\ proc_pid q <> leader) (w_procs w) /\
  tasks_of leader w' = [] /\
  pid2proc leader w' = None.
Proof.
  intros H.
  assert (Hprocs : w_procs w'
    = filter (fun q => (proc_pid q ∉ tasks_of leader w) /\ proc_pid q <> leader) (w_procs w)).
  { unfold detach_process in H.
    apply bind_Ok in H as (? & w1 & H1 & H).
    apply bind_Ok in H as (? & w2 & H2 & H).
    apply bind_Ok in H as (? & w3 & H3 & H).
    assert (Hp3 : w_procs w3 = w_procs w).
    { pose proof (detach_prefix_frame leader w) as Hpre. unfold keeps in Hpre.
      rewrite (bind_eval _ _ _ _ _ H1) in Hpre. cbv beta in Hpre.
      rewrite (bind_eval _ _ _ _ _ H2) in Hpre. cbv beta in Hpre.
      rewrite H3 in Hpre. simpl in Hpre. by injection Hpre. }
    apply bind_Ok in H as (opt_p & w4 & H4 & H). injection H4 as <- <-.
    apply bind_Ok in H as (? & w5 & H5 & H).
    destruct (untrace_attached_eval leader (os_opt_p (w_env w3)) w3)
      as (w5' & Hun & Hp5 & _). rewrite Hun in H5. injection H5 as _ <-.
    apply bind_Ok in H as (? & w6 & H6 & H).
    unfold each_task in H6. apply bind_Ok in H6 as (ts & w5'' & Hts & H6).
    injection Hts as <- <-.
    destruct (remove_walk leader (tasks_of leader w5') w5') as (w6' & Hrm & Hp6).
    rewrite Hrm in H6. injection H6 as _ <-.
    apply bind_Ok in H as (? & w7 & H7 & H).
    unfold destroy_event_handler in H7. apply bind_Ok in H7 as (ql & w6'' & Hg & H7).
    unfold get_proc in Hg. destruct (pid2proc leader w6'); [|done].
    injection Hg as _ <-. rewrite update_proc_eval in H7. injection H7 as <-.
    apply bind_Ok in H as (? & w8 & H8 & H). injection H as <-.
    unfold remove_task in H8. rewrite bool_decide_eq_true_2 in H8 by done.
    cbn [when] in H8. apply bind_Ok in H8 as (? & w9 & H9 & H8).
    injection H8 as <-. unfold remove_process in H9.
    apply bind_Ok in H9 as (? & w10 & H10 & H9). injection H10 as <-.
    injection H9 as <-. subst. cbn [w_procs set_procs set_log].
    rewrite filter_update_removed by done. rewrite Hp6, Hp5, Hp3.
    rewrite list_filter_filter.
    replace (tasks_of leader w5') with (tasks_of leader w)
      by (unfold tasks_of; by rewrite Hp5, Hp3).
    apply list_filter_iff. intros q. tauto. }
  split; [done|]. split.
  - unfold tasks_of. rewrite Hprocs.
    destruct (filter _ (filter _ _)) as [|q l] eqn:Hf; [done|]. exfalso.
    assert (Hq : q ∈ q :: l) by left. rewrite <- Hf in Hq.
    apply list_elem_of_filter in Hq as [Hl Hq].
    apply list_elem_of_filter in Hq as [[Hn _] Hq]. apply Hn.
    unfold tasks_of. apply list_elem_of_fmap. exists q. split; [done|].
    by apply list_elem_of_filter.
  - unfold pid2proc. rewrite Hprocs.
    destruct (List.find _ _) as [q|] eqn:Hf; [|done]. exfalso.
    apply find_some in Hf as [Hin Hq]. apply bool_decide_eq_true_1 in Hq.
    apply list_elem_of_In, list_elem_of_filter in Hin as [[_ Hne] _]. done.
Qed.

(** * trace.c: the slots of software single-step breakpoints *)

Lemma delete_breakpoint_log p a w w' :
  delete_breakpoint p a w = Ok tt w' ->
  w_log w' = w_log w ++ [Call "delete_breakpoint" [p; a]].
Proof.
  unfold delete_breakpoint. intros H.
  apply bind_Ok in H as ([] & w1 & He & H). injection He as <-.
  assert (Hr : respects (keeps w_log)
    (q <- get_proc p ;;
     d <- breakpoints_of (proc_leader q) ;;
     match d !! a with
     | Some b =>
         if bp_enabled b - 1 =? 0
         then update_proc (proc_leader q) (with_breakpoints (delete a))
         else update_proc (proc_leader q)
                (with_breakpoints (insert a (with_bp_enabled (bp_enabled b - 1) b)))
     | None => ret tt
     end)).
  { unfold breakpoints_of, update_proc. repeat (first [frame_step | frame_leaf]). }
  apply (respects_Ok _ _ _ _ _ Hr) in H. unfold keeps in H. by rewrite H.
Qed.

Lemma remove_sw_loop proc n : forall k s s',
  for_each (seq k n) (fun i =>
    a <- getself (fun h => default 0 (sws_bp_addrs h !! i)) ;;
    if negb (a =? 0) then
      liftW (delete_breakpoint proc a) ;;
      setself (fun h => with_sws (<[i := 0]> (sws_bp_addrs h)) h)
    else ret tt) s = Ok tt s' ->
  length (sws_bp_addrs (self s)) = (k + n)%nat ->
  sws_bp_addrs (self s') = take k (sws_bp_addrs (self s)) ++ replicate n 0 /\
  with_sws [] (self s') = with_sws [] (self s) /\
  w_log (hw s')
  = w_log (hw s)
    ++ map (fun a => Call "delete_breakpoint" [proc; a])
         (filter (fun a => a <> 0) (drop k (sws_bp_addrs (self s)))).
Proof.
  induction n as [|n IH]; intros k s s' H Hlen.
  - unfold for_each, seq, ret in H. injection H as <-. rewrite Nat.add_0_r in Hlen.
    rewrite app_nil_r, take_ge, drop_ge by lia. simpl.
    by rewrite app_nil_r.
  - cbn [seq for_each] in H. apply bind_Ok in H as ([] & s1 & Hb & H).
    destruct (sws_bp_addrs (self s) !! k) as [a|] eqn:Ha.
    2:{ apply lookup_ge_None in Ha. lia. }
    assert (Hstep : sws_bp_addrs (self s1) = <[k := 0]> (sws_bp_addrs (self s)) /\
                    with_sws [] (self s1) = with_sws [] (self s) /\
                    w_log (hw s1)
                    = w_log (hw s) ++ map (fun a => Call "delete_breakpoint" [proc; a])
                                        (filter (fun a => a <> 0) [a])).
    { apply bind_Ok in Hb as (a' & s0 & Hg & Hb). injection Hg as <- <-.
      rewrite Ha in Hb. cbv [from_option id] in Hb.
      destruct (a =? 0) eqn:Hz; cbn [negb] in Hb.
      - unfold ret in Hb. injection Hb as <-. apply Z.eqb_eq in Hz. subst a.
        rewrite list_insert_id by done. rewrite filter_cons, decide_False by (by intros ?).
        simpl. by rewrite app_nil_r.
      - apply Z.eqb_neq in Hz.
        apply bind_Ok in Hb as ([] & s2 & Hd & Hb).
        unfold setself, modify in Hb. injection Hb as <-.
        apply liftW_Ok in Hd as [Hd Hself]. apply delete_breakpoint_log in Hd.
        cbn [self hw set_self sws_bp_addrs with_sws]. rewrite Hself.
        split; [done|]. split; [done|].
        by rewrite Hd, filter_cons, decide_True by done. }
    destruct Hstep as (Hs1 & Hf1 & Hl1).
    apply IH in H as (Hs' & Hf' & Hl'); [|rewrite Hs1, length_insert; lia].
    split; [|split].
    + rewrite Hs', Hs1.
      rewrite (take_S_r _ k 0) by (apply list_lookup_insert_eq; lia).
      rewrite take_insert_ge by lia. by rewrite <- app_assoc.
    + congruence.
    + rewrite Hl', Hl1, Hs1. rewrite drop_insert_lt by lia.
      rewrite (drop_S _ a k) by done. rewrite <- app_assoc, <- map_app. do 2 f_equal.
      rewrite !(filter_cons _ a). rewrite filter_nil.
      by destruct (decide (a <> 0)).
Qed.

(** X26: when [remove_sw_breakpoints] returns, no slot of
    [sws_bp_addrs] is taken any more: all slots are zero, as many as
    before. [delete_breakpoint] has been called once for each slot that
    was taken, in the order of the slots, and nothing else of the
    handler is changed. It returns only when the leader of the task has
    the stopping handler installed. *)
Theorem remove_sw_breakpoints_clears (proc : Z) (s s' : hstate) :
  remove_sw_breakpoints proc s = Ok tt s' ->
  sws_bp_addrs (self s') = replicate (length (sws_bp_addrs (self s))) 0 /\
  with_sws [] (self s') = with_sws [] (self s) /\
  w_log (hw s')
  = w_log (hw s)
    ++ map (fun a => Call "delete_breakpoint" [proc; a])
         (filter (fun a => a <> 0) (sws_bp_addrs (self s))) /\
  exists q l,
    pid2proc proc (hw s) = Some q /\
    pid2proc (proc_leader q) (hw s) = Some l /\
    proc_event_handler l = Some process_stopping_on_event_fn.
Proof.
  intros H. unfold remove_sw_breakpoints in H.
  apply bind_Ok in H as (q & s1 & Hq & H). apply liftW_Ok in Hq as [Hq Hs1].
  unfold get_proc in Hq. destruct (pid2proc proc (hw s)) as [q'|] eqn:Hpq; [|done].
  injection Hq as -> Hw1.
  apply bind_Ok in H as (l & s2 & Hl & H). apply liftW_Ok in Hl as [Hl Hs2].
  unfold get_proc in Hl. destruct (pid2proc (proc_leader q) (hw s1)) as [l'|] eqn:Hpl; [|done].
  injection Hl as -> Hw2.
  apply bind_Ok in H as ([] & s3 & Ha1 & H). unfold assert in Ha1.
  destruct (bool_decide (proc_event_handler l <> None)); [|done]. injection Ha1 as <-.
  apply bind_Ok in H as ([] & s3 & Ha2 & H). unfold assert in Ha2.
  destruct (bool_decide (proc_event_handler l = Some process_stopping_on_event_fn)) eqn:Hh;
    [|done].
  injection Ha2 as <-. apply bool_decide_eq_true_1 in Hh.
  apply bind_Ok in H as (ct & s3 & Hct & H). injection Hct as <- <-.
  apply remove_sw_loop in H as (Hs' & Hf' & Hl'); [|done].
  assert (s2 = s) as -> by (destruct s, s1, s2; simpl in *; congruence).
  rewrite <- Hw1 in Hpl.
  split; [by rewrite Hs'|]. split; [done|]. split; [by rewrite Hl'|].
  by exists q, l.
Qed.

(** X27: [sw_singlestep_add_bp] has room for as many breakpoints as
    the handler has slots. It stores the address in the first slot that
    is zero and leaves the other slots alone; when no slot is zero it
    aborts, with nothing changed. *)
Theorem sw_singlestep_add_bp_slots (addr : Z) (s : hstate) :
  (Forall (fun a => a <> 0) (sws_bp_addrs (self s)) ->
   sw_singlestep_add_bp addr s = Halt Abort s) /\
  (forall r s',
     sw_singlestep_add_bp addr s = Ok r s' ->
     r = 0 /\
     exists i,
       sws_bp_addrs (self s) !! i = Some 0 /\
       (forall j a, (j < i)%nat -> sws_bp_addrs (self s) !! j = Some a -> a <> 0) /\
       sws_bp_addrs (self s') = <[i := addr]> (sws_bp_addrs (self s))).
Proof.
  unfold sw_singlestep_add_bp. split.
  - intros Hall. unfold bind at 1. unfold bind at 1. unfold getself, gets.
    assert (Hf : list_find (fun a => a = 0) (sws_bp_addrs (self s)) = None).
    { apply list_find_None. eapply Forall_impl; [exact Hall|]. done. }
    by rewrite Hf.
  - intros r s' H.
    apply bind_Ok in H as (teb & s0 & Hteb & H). injection Hteb as <- <-.
    apply bind_Ok in H as (slots & s0 & Hsl & H). injection Hsl as <- <-.
    destruct (list_find _ _) as [[i a]|] eqn:Hf; [|done].
    apply list_find_Some in Hf as (Hi & -> & Hfirst).
    apply bind_Ok in H as ([] & s1 & Hset & H).
    unfold setself, modify in Hset. injection Hset as <-.
    apply bind_Ok in H as (p & s2 & Hp & H).
    destruct (task_enabling_breakpoint (self s)) as [p'|]; [|done].
    injection Hp as <- <-.
    apply bind_Ok in H as ([] & s3 & Hins & H). apply liftW_Ok in Hins as [_ Hs3].
    apply bind_Ok in H as ([] & s4 & Hcb & H). apply liftW_Ok in Hcb as [_ Hs4].
    unfold ret in H. injection H as <- <-. split; [done|]. exists i. split; [done|].
    split; [intros j a Hj Ha; by eapply Hfirst|].
    by rewrite Hs4, Hs3.
Qed.

(** * trace.c: [process_stopping_done] and the ugly workaround *)

Lemma ugly_workaround_records_ext t w w1 :
  w_procs w1 = w_procs w -> w_ip w1 = w_ip w ->
  ugly_workaround_records t w1 = ugly_workaround_records t w.
Proof.
  intros Hp Hi. unfold ugly_workaround_records, leader_breakpoint, pid2proc.
  by rewrite Hp, Hi.
Qed.

Lemma breakpoint_at_ip_ext t w w1 w' :
  w_procs w1 = w_procs w -> w_ip w1 = w_ip w ->
  breakpoint_at_ip t w1 w' -> breakpoint_at_ip t w w'.
Proof.
  intros Hp Hi. unfold breakpoint_at_ip, pid2proc. by rewrite Hp, Hi.
Qed.

Lemma ugly_workaround_spec t w w' :
  ugly_workaround t w = Ok tt w' ->
  w_log w' = w_log w ++ ugly_workaround_records t w /\
  handlers w' = handlers w /\
  breakpoint_at_ip t w w'.
Proof.
  intros H. unfold ugly_workaround in H.
  apply bind_Ok in H as (ip & w1 & Hip & H). injection Hip as <- <-.
  apply bind_Ok in H as (q & w1 & Hq & H). unfold get_proc in Hq.
  destruct (pid2proc t w) as [q'|] eqn:Hpq; [|done]. injection Hq as <- <-.
  apply bind_Ok in H as (sbp & w1 & Hs & H).
  unfold dict_find_entry, breakpoints_of in Hs.
  apply bind_Ok in Hs as (d & w2 & Hd & Hs). injection Hs as <- <-.
  apply bind_Ok in Hd as (l & w3 & Hl & Hd). injection Hd as <- <-.
  unfold get_proc in Hl.
  destruct (pid2proc (proc_leader q') w) as [l'|] eqn:Hpl; [|done]. injection Hl as <- <-.
  apply bind_Ok in H as ([] & w4 & Hbp & H).
  unfold ptrace, emit, modify in H. injection H as <-.
  unfold ugly_workaround_records, leader_breakpoint, breakpoint_at_ip. rewrite Hpq, Hpl.
  destruct (proc_breakpoints l' !! default 0 (w_ip w !! t)) as [b|] eqn:Hb.
  - unfold enable_breakpoint, emit, modify in Hbp. injection Hbp as <-.
    cbn [w_log set_log]. split; [by rewrite <- app_assoc|]. split; [done|].
    exists q', l'. by rewrite Hb.
  - rewrite (insert_breakpoint_eval _ _ _ _ _ Hpq Hpl) in Hbp. injection Hbp as <-.
    split; [simpl; by rewrite <- app_assoc|]. split.
    { unfold handlers. simpl. rewrite map_map. apply map_ext. intros x.
      by case_bool_decide. }
    eexists q', _. split; [done|]. split.
    + change (pid2proc (proc_leader q') (set_log ?f ?w0)) with (pid2proc (proc_leader q') w0).
      rewrite (pid2proc_update_same _ _ _ l'); done.
    + cbn [proc_breakpoints with_breakpoints]. rewrite lookup_insert_eq. by eexists.
Qed.

Lemma goto_ugly_workaround_enters s s' :
  goto_ugly_workaround s = Ok tt s' ->
  exists teb,
    task_enabling_breakpoint (self s) = Some teb /\
    self s' = with_state PSH_UGLY_WORKAROUND (self s) /\
    w_log (hw s') = w_log (hw s) ++ ugly_workaround_records teb (hw s) /\
    handlers (hw s') = handlers (hw s) /\
    breakpoint_at_ip teb (hw s) (hw s').
Proof.
  intros H. unfold goto_ugly_workaround in H.
  apply bind_Ok in H as (? & s1 & Hst & H). injection Hst as _ <-.
  apply bind_Ok in H as (teb & s2 & Hteb & H). injection Hteb as <- <-.
  apply bind_Ok in H as (t & s2 & Ht & H).
  destruct s as [h w]. simpl in *.
  destruct (task_enabling_breakpoint h) as [t'|] eqn:Hteb; [|discriminate Ht].
  injection Ht as <- <-.
  apply liftW_Ok in H as [H Hself]. simpl in *.
  apply ugly_workaround_spec in H as (Hl & Hh & Hb).
  exists t'. by rewrite Hself.
Qed.

Lemma release_rows_frame rows w w' :
  for_each rows (fun r =>
    if negb (pid r =? 0) && (delivered r || sysret r)
    then continue_process (pid r) else ret tt) w = Ok tt w' ->
  w_procs w' = w_procs w /\ w_ip w' = w_ip w /\ calls (w_log w') = calls (w_log w).
Proof.
  revert w. induction rows as [|r rows IH]; intros w H; simpl in *.
  - by injection H as <-.
  - apply bind_Ok in H as ([] & w1 & Hr & H). apply IH in H as (Hp & Hi & Hc).
    destruct (negb (pid r =? 0) && (delivered r || sysret r)).
    + pose proof (continue_process_frame (pid r) w) as Hf. cbv zeta in Hf.
      rewrite Hr in Hf. simpl in Hf. destruct Hf as (Hp1 & Hi1 & Hc1 & _).
      split; [congruence|]. split; congruence.
    + by injection Hr as <-.
Qed.

(** C8 (amended): [process_stopping_done] with the [exiting] flag clear
    calls [continue_process] for every row with a nonzero pid whose
    [delivered] or [sysret] flag is set, in row order, then for the task
    that was enabling the breakpoint; it then destroys the handler of
    the leader without touching a breakpoint, unless
    [ugly_workaround_p] answers [CBS_CONT], in which case it enters
    UGLY_WORKAROUND and leaves the handler installed. With the
    [exiting] flag set it enters UGLY_WORKAROUND at once: no call of
    [continue_process] is made and no handler is destroyed. Entering
    UGLY_WORKAROUND does continue a task: the breakpoint at the
    instruction pointer of the enabling task is enabled, or inserted
    when the leader has none there, and the task is set running with
    [PT_CONTINUE]; with [exiting] set these two records and the debug
    record are all that the call logs. *)
Theorem process_stopping_done_releases (leader : Z) (s s' : hstate)
    (answer : callback_status) :
  process_stopping_done leader s = Ok tt s' ->
  predicate_answer (ugly_workaround_p (self s)) = Some answer ->
  exists teb,
    task_enabling_breakpoint (self s) = Some teb /\
    (exiting (self s) = false ->
     continued (w_log (hw s'))
     = continued (w_log (hw s)) ++ released (pids (self s)) ++ [teb] /\
     (answer = CBS_CONT ->
      state (self s') = PSH_UGLY_WORKAROUND /\
      handlers (hw s') = handlers (hw s) /\
      (exists l, w_log (hw s') = l ++ ugly_workaround_records teb (hw s)) /\
      breakpoint_at_ip teb (hw s) (hw s')) /\
     (answer <> CBS_CONT ->
      state (self s') = state (self s) /\
      (exists q, pid2proc leader (hw s') = Some q /\ proc_event_handler q = None) /\
      calls (w_log (hw s')) = calls (w_log (hw s)))) /\
    (exiting (self s) = true ->
     w_log (hw s')
     = w_log (hw s)
       ++ Debug "process stopping done %d" [teb] :: ugly_workaround_records teb (hw s) /\
     continued (w_log (hw s')) = continued (w_log (hw s)) /\
     state (self s') = PSH_UGLY_WORKAROUND /\
     handlers (hw s') = handlers (hw s) /\
     breakpoint_at_ip teb (hw s) (hw s')).
Proof.
  intros H Hans. unfold process_stopping_done in H.
  apply bind_Ok in H as (teb & s0 & Hteb & H). injection Hteb as <- <-.
  apply bind_Ok in H as (t & s0 & Ht & H).
  destruct (task_enabling_breakpoint (self s)) as [t'|] eqn:Hteb; [|discriminate Ht].
  injection Ht as <- <-. exists t'. split; [done|].
  apply bind_Ok in H as (? & s1 & Hdbg & H).
  apply liftW_Ok in Hdbg as [Hdbg Hself1].
  unfold debug, emit, modify in Hdbg. injection Hdbg as _ Hw1.
  assert (Hh1 : handlers (hw s1) = handlers (hw s)) by (by rewrite <- Hw1).
  assert (Hp1 : w_procs (hw s1) = w_procs (hw s)) by (by rewrite <- Hw1).
  assert (Hi1 : w_ip (hw s1) = w_ip (hw s)) by (by rewrite <- Hw1).
  assert (Hl1 : w_log (hw s1) = w_log (hw s) ++ [Debug "process stopping done %d" [t']])
    by (by rewrite <- Hw1).
  assert (Hc1 : continued (w_log (hw s1)) = continued (w_log (hw s))).
  { rewrite Hl1, continued_app. simpl. by rewrite app_nil_r. }
  assert (Hk1 : calls (w_log (hw s1)) = calls (w_log (hw s))).
  { rewrite Hl1, calls_app. simpl. by rewrite app_nil_r. }
  apply bind_Ok in H as (ex & s1' & Hex & H). injection Hex as <- <-.
  apply bind_Ok in H as ([] & s2 & Hrel & H).
  rewrite Hself1 in *.
  destruct (exiting (self s)) eqn:Hexiting; simpl in *.
  - injection Hrel as <-. split; [done|]. intros _.
    apply goto_ugly_workaround_enters in H as (teb & Hteb' & Hself & Hl & Hh & Hb).
    rewrite Hself1, Hteb in Hteb'. injection Hteb' as <-.
    rewrite (ugly_workaround_records_ext _ _ _ Hp1 Hi1) in Hl.
    apply (breakpoint_at_ip_ext _ _ _ _ Hp1 Hi1) in Hb.
    assert (Hlog : w_log (hw s')
                   = w_log (hw s)
                     ++ Debug "process stopping done %d" [t']
                        :: ugly_workaround_records t' (hw s)).
    { rewrite Hl, Hl1. by rewrite <- app_assoc. }
    split; [done|]. split.
    { rewrite Hlog, continued_app. unfold ugly_workaround_records. simpl.
      destruct (leader_breakpoint _ _ _); simpl; by rewrite app_nil_r. }
    rewrite Hself, Hh. by rewrite Hself1.
  - split; [|done]. intros _.
    apply bind_Ok in Hrel as (rows & s1' & Hrows & Hrel). injection Hrows as <- <-.
    apply bind_Ok in Hrel as ([] & s1' & Hfor & Hrel).
    apply liftW_Ok in Hfor as [Hfor Hself1'].
    pose proof (release_rows_frame _ _ _ Hfor) as (Hp2 & Hi2 & Hk2).
    apply release_rows_continued in Hfor as [Hh2 Hc2].
    apply liftW_Ok in Hrel as [Hrel Hself2].
    pose proof (continue_process_frame t' (hw s1')) as Hf. cbv zeta in Hf.
    rewrite Hrel in Hf. simpl in Hf. destruct Hf as (Hp3 & Hi3 & Hk3 & _).
    apply continue_process_continued in Hrel as [Hh3 Hc3].
    rewrite Hself1 in *.
    assert (Hc : continued (w_log (hw s2))
                 = continued (w_log (hw s)) ++ released (pids (self s)) ++ [t']).
    { rewrite Hc3, Hc2, Hc1. unfold released. by rewrite <- app_assoc. }
    assert (Hh : handlers (hw s2) = handlers (hw s)) by congruence.
    assert (Hp : w_procs (hw s2) = w_procs (hw s)) by congruence.
    assert (Hi : w_ip (hw s2) = w_ip (hw s)) by congruence.
    assert (Hk : calls (w_log (hw s2)) = calls (w_log (hw s))) by congruence.
    assert (Hself : self s2 = self s) by congruence.
    apply bind_Ok in H as (r & s3 & Hr & H).
    apply bind_Ok in Hr as (uw & s2' & Huw & Hr). injection Huw as <- <-.
    rewrite Hself in Hr.
    assert (r = answer /\ s3 = s2) as [-> ->].
    { unfold predicate_answer in Hans. unfold run_predicate, no in Hr.
      destruct (ugly_workaround_p (self s)); [| discriminate Hans |];
        injection Hans as <-; by injection Hr as <- <-. }
    assert (Hdestroy : forall w1,
              destroy_event_handler leader (hw s2) = Ok tt w1 ->
              continued (w_log w1) = continued (w_log (hw s2)) /\
              calls (w_log w1) = calls (w_log (hw s2)) /\
              exists q, pid2proc leader w1 = Some q /\ proc_event_handler q = None).
    { intros w1 Hd. unfold destroy_event_handler in Hd.
      apply bind_Ok in Hd as (q & w2 & Hg & Hd). unfold get_proc in Hg.
      destruct (pid2proc leader (hw s2)) as [q'|] eqn:Hq; [|discriminate Hg].
      injection Hg as <- <-. unfold update_proc, modify in Hd. injection Hd as Hd.
      rewrite <- Hd. split; [done|]. split; [done|].
      rewrite pid2proc_update by done. rewrite Hq. simpl.
      rewrite bool_decide_eq_true_2 by (by eapply pid2proc_pid).
      by eexists. }
    split; [|split].
    + destruct answer.
      * apply liftW_Ok in H as [H Hs']. apply Hdestroy in H as (Hc' & _). congruence.
      * apply goto_ugly_workaround_enters in H as (teb & _ & _ & Hl & _ & _).
        rewrite Hl, continued_app, Hc. unfold ugly_workaround_records. simpl.
        destruct (leader_breakpoint _ _ _); simpl; by rewrite app_nil_r.
      * apply liftW_Ok in H as [H Hs']. apply Hdestroy in H as (Hc' & _). congruence.
    + intros ->.
      apply goto_ugly_workaround_enters in H as (teb & Hteb' & Hself' & Hl & Hh' & Hb).
      rewrite Hself, Hteb in Hteb'. injection Hteb' as <-.
      rewrite (ugly_workaround_records_ext _ _ _ Hp Hi) in Hl.
      apply (breakpoint_at_ip_ext _ _ _ _ Hp Hi) in Hb.
      rewrite Hself', Hh', Hh, Hself. split; [done|]. split; [done|].
      split; [by eexists|done].
    + intros Hne.
      assert (Hd : liftW (destroy_event_handler leader) s2 = Ok tt s')
        by (by destruct answer).
      apply liftW_Ok in Hd as [Hd Hs']. rewrite Hs', Hself. split; [done|].
      apply Hdestroy in Hd as (_ & Hk' & Hq). split; [done|]. congruence.
Qed.

(** * trace.c: what [process_stopping_on_event] does with an event *)

Lemma accountable_queue ps w w' :
  w_queue w' = w_queue w -> accountable ps w' = accountable ps w.
Proof. intros H. unfold accountable, queued_for. by rewrite H. Qed.

Lemma accountable_set_row_sysret i ps w :
  accountable (set_row i (with_sysret true) ps) w = accountable ps w.
Proof.
  unfold accountable, set_row. cbn [tasks with_tasks].
  revert i. induction (tasks ps) as [|r rows IH]; intros i; [by destruct i|].
  destruct i as [|i]; simpl; [done|]. f_equal. apply IH.
Qed.

Lemma handle_stopping_event_unexpected task_info event ps w r w' :
  handle_stopping_event task_info event ps w = Ok r w' ->
  expects_sigstop ps task_info event = false ->
  r = (Some event,
       match task_info with
       | Some i => set_row i (with_got_event true) ps
       | None => ps
       end) /\
  w_queue w' = w_queue w.
Proof.
  intros H Hexp.
  pose proof (respects_Ok _ _ _ _ _ (queue_handle_stopping_event _ _ _) H) as Hq.
  split; [|exact Hq].
  pose proof (handle_stopping_event_result _ _ _ _ _ _ H) as Hr. rewrite Hexp in Hr.
  unfold handle_stopping_event in H. destruct task_info as [i|]; [|by inv_ok H].
  cbv zeta in H.
  destruct (bool_decide (ev_type event = EVENT_SIGNAL) && (e_un event =? SIGSTOP)).
  2:{ by inv_ok H. }
  apply bind_Ok in H as (row & w1 & Hrow & H).
  apply bind_Ok in H as ([] & w2 & _ & H).
  destruct (sigstopped row && negb (delivered row)).
  - inv_ok H. discriminate Hr.
  - apply bind_Ok in H as ([] & w3 & _ & H). by inv_ok H.
Qed.

(** The state of the handler after the prelude, for an event that is
    neither sunk nor an exit. *)
Lemma psh_prelude_state task event s task_info ev1 etq s1 :
  psh_prelude task event s = Ok (task_info, ev1, etq) s1 ->
  ev_type event <> EVENT_EXIT -> ev_type event <> EVENT_EXIT_SIGNAL ->
  expects_sigstop (pids (self s)) task_info event = false ->
  w_queue (hw s1) = w_queue (hw s) /\
  task_enabling_breakpoint (self s1) = task_enabling_breakpoint (self s) /\
  (ev_type event <> EVENT_SYSRET ->
   pids (self s1) = rows_after_event (pids (self s)) task) /\
  (ev_type event = EVENT_SYSRET ->
   exists i row,
     list_find (fun t => pid t = task) (tasks (pids (self s))) = Some (i, row) /\
     pids (self s1)
     = set_row i (with_sysret true) (rows_after_event (pids (self s)) task)).
Proof.
  intros H Hexit Hsig Hexp.
  pose proof (respects_Ok _ _ _ _ _ (queue_psh_prelude task event) H) as Hq.
  unfold on_world, keeps in Hq. split; [done|].
  pose proof (psh_prelude_result _ _ _ _ _ _ _ H) as (Hti & Hev1 & _).
  rewrite Hexp in Hev1. subst ev1.
  unfold psh_prelude in H.
  apply bind_Ok in H as (? & s2 & Hdbg & H). apply liftW_Ok in Hdbg as [_ Hself2].
  apply bind_Ok in H as (ps & s3 & Hps & H). injection Hps as <- <-.
  apply bind_Ok in H as (ti & s4 & Hti' & H).
  assert (ti = task_info /\ s4 = s2) as [-> ->].
  { unfold get_task_info in Hti'. apply bind_Ok in Hti' as ([] & s5 & Ha & Hti').
    unfold assert in Ha. destruct (negb (task =? 0)); [|done].
    injection Ha as <-. injection Hti' as <- <-. by rewrite Hself2, Hti. }
  apply bind_Ok in H as ([] & s5 & Hnew & H).
  assert (Hself5 : self s5 = self s).
  { destruct (bool_decide (task_info = None)); simpl in Hnew.
    - apply liftW_Ok in Hnew as [_ ->]. done.
    - by injection Hnew as <-. }
  apply bind_Ok in H as (r & s6 & Hr & H). apply liftW_Ok in Hr as [Hr Hself6].
  rewrite Hself2 in Hr.
  apply handle_stopping_event_unexpected in Hr as [-> _]; [|done].
  apply bind_Ok in H as ([] & s7 & Hset & H). unfold setself, modify in Hset.
  injection Hset as <-. cbn [fst snd] in H.
  assert (Hnotexit : event_exit_p (Some event) = false).
  { unfold event_exit_p. by rewrite !bool_decide_eq_false_2. }
  rewrite Hnotexit in H. cbn [when] in H.
  apply bind_Ok in H as ([] & s8 & Hw & H). injection Hw as <-.
  apply bind_Ok in H as (etq' & s9 & Hetq & H). injection H as _ <-.
  assert (Hrows : (match task_info with
                   | Some i => set_row i (with_got_event true) (pids (self s))
                   | None => pids (self s)
                   end) = rows_after_event (pids (self s)) task).
  { unfold rows_after_event. rewrite Hti.
    by destruct (list_find _ _) as [[i row]|]. }
  rewrite Hrows in Hetq.
  destruct (bool_decide (ev_type event = EVENT_SYSRET)) eqn:Hsys.
  - apply bool_decide_eq_true_1 in Hsys.
    apply bind_Ok in Hetq as ([] & s10 & Hd & Hetq). apply liftW_Ok in Hd as [_ Hself10].
    apply bind_Ok in Hetq as (i & s11 & Hi & Hetq).
    destruct task_info as [i'|]; [|discriminate Hi]. injection Hi as <- <-.
    apply bind_Ok in Hetq as ([] & s12 & Hset & Hetq). injection Hetq as _ <-.
    unfold setself, modify in Hset. injection Hset as <-.
    cbn [self set_self]. rewrite Hself10. cbn [self set_self].
    rewrite Hself6, Hself5. cbn. split; [done|]. split; [done|]. intros _.
    destruct (list_find _ _) as [[i0 row]|] eqn:Hf; [|discriminate Hti].
    injection Hti as ->. by exists i0, row.
  - apply bool_decide_eq_false_1 in Hsys. injection Hetq as _ <-.
    cbn [self set_self]. rewrite Hself6, Hself5. cbn.
    split; [done|]. split; [done|]. done.
Qed.

Lemma case_PSH_SINGLESTEP_result leader task teb task_info e :
  ensures (case_PSH_SINGLESTEP leader task teb task_info (Some e))
    (fun ev' => ev' = if bool_decide (Some task = teb)
                         && bool_decide (ev_type e = EVENT_BREAKPOINT)
                      then None else Some e).
Proof.
  unfold case_PSH_SINGLESTEP.
  destruct (bool_decide (Some task = teb)); [|by apply ensures_ret].
  cbn [andb]. apply ensures_bind. intros _.
  destruct (bool_decide (ev_type e = EVENT_BREAKPOINT)) eqn:Hbp.
  - apply bool_decide_eq_true_1 in Hbp.
    rewrite bool_decide_eq_false_2 by (rewrite Hbp; discriminate).
    apply ensures_bind. intros [| |].
    + do 4 (apply ensures_bind; intros ?).
      eapply ensures_bind_with; [apply post_singlestep_result|].
      intros ev' ->. ensures_go. by rewrite bool_decide_eq_true_2.
    + intros s a s' Hgo. by destruct (goto_do_singlestep_result _ _ _ _ _ _ Hgo).
    + do 4 (apply ensures_bind; intros ?).
      eapply ensures_bind_with; [apply post_singlestep_result|].
      intros ev' ->. ensures_go. by rewrite bool_decide_eq_true_2.
  - apply bool_decide_eq_false_1 in Hbp.
    case_bool_decide; [by apply goto_do_singlestep_keeps|].
    apply ensures_bind. intros [| |].
    + do 4 (apply ensures_bind; intros ?).
      eapply ensures_bind_with; [apply post_singlestep_result|].
      intros ev' ->. ensures_go. by rewrite bool_decide_eq_false_2.
    + by apply goto_do_singlestep_keeps.
    + do 4 (apply ensures_bind; intros ?).
      eapply ensures_bind_with; [apply post_singlestep_result|].
      intros ev' ->. ensures_go. by rewrite bool_decide_eq_false_2.
Qed.

Lemma case_PSH_UGLY_WORKAROUND_result leader task teb e s ev' s' :
  case_PSH_UGLY_WORKAROUND leader task teb (Some e) s = Ok ev' s' ->
  ev' = if bool_decide ((if bool_decide (Some task = teb)
                            && bool_decide (ev_type e = EVENT_BREAKPOINT)
                         then None else task_enabling_breakpoint (self s)) = None)
           && accountable (pids (self s)) (hw s)
        then None else Some e.
Proof.
  unfold case_PSH_UGLY_WORKAROUND. intros H.
  apply bind_Ok in H as ([] & s1 & Hbp & H).
  assert (Hs1 : w_queue (hw s1) = w_queue (hw s) /\ pids (self s1) = pids (self s) /\
                task_enabling_breakpoint (self s1)
                = if bool_decide (Some task = teb)
                     && bool_decide (ev_type e = EVENT_BREAKPOINT)
                  then None else task_enabling_breakpoint (self s)).
  { destruct (bool_decide (ev_type e = EVENT_BREAKPOINT)).
    - apply bind_Ok in Hbp as (? & s2 & Hu & Hbp). apply liftW_Ok in Hu as [Hu Hself].
      apply (respects_Ok _ _ _ _ _ (queue_undo_breakpoint _ _)) in Hu.
      unfold keeps in Hu.
      destruct (bool_decide (Some task = teb)); simpl in Hbp.
      + unfold setself, modify in Hbp. injection Hbp as <-. simpl. by rewrite Hself.
      + injection Hbp as <-. by rewrite Hself.
    - injection Hbp as <-. by rewrite andb_false_r. }
  destruct Hs1 as (Hq & Hp & Hteb).
  apply bind_Ok in H as (teb' & s2 & Ht & H). injection Ht as <- <-.
  rewrite Hteb in H. rewrite <- (accountable_queue _ _ _ Hq), <- Hp.
  destruct (if bool_decide (Some task = teb) && bool_decide (ev_type e = EVENT_BREAKPOINT)
            then None else task_enabling_breakpoint (self s)) as [t|].
  { by injection H as <- _. }
  rewrite bool_decide_eq_true_2 by done. cbn [andb].
  apply bind_Ok in H as (ps & s2 & Hps & H). injection Hps as <- <-.
  apply bind_Ok in H as (acc & s2 & Hacc & H). apply liftW_Ok in Hacc as [Hacc _].
  rewrite all_stops_accountable_eval in Hacc. injection Hacc as <- _.
  fold (accountable (pids (self s1)) (hw s1)) in H.
  destruct (accountable (pids (self s1)) (hw s1)).
  - apply bind_Ok in H as (? & s3 & _ & H). apply bind_Ok in H as (? & s4 & _ & H).
    by injection H as <- _.
  - by injection H as <- _.
Qed.

(** C3 (amended): while the stopping handler is installed, for every
    incoming event that is neither exit/exit-signal, none nor a syscall
    return the handler returns nothing, and the event is either sunk or
    appended to the event queue, never both. It is sunk and not queued
    when it is an expected SIGSTOP delivery, when in SINGLESTEP it is
    the breakpoint event of the task that is stepping, and when in
    UGLY_WORKAROUND the handler detaches; in every other case, in each
    of the four states, it is appended to the queue. A syscall-return
    event is never queued: the handler sets the [sysret] flag of the
    row of the task and hands the event back for default processing,
    unless it detaches in UGLY_WORKAROUND. *)
Theorem process_stopping_on_event_sinks_or_queues
    (event : Event) (s s' : hstate) (r : option Event) :
  process_stopping_on_event event s = Ok r s' ->
  ev_type event <> EVENT_EXIT ->
  ev_type event <> EVENT_EXIT_SIGNAL ->
  ev_type event <> EVENT_NONE ->
  (ev_type event <> EVENT_SYSRET ->
   r = None /\
   w_queue (hw s')
   = if expected_sigstop s event || dropped_in_switch s event
     then w_queue (hw s) else w_queue (hw s) ++ [event]) /\
  (ev_type event = EVENT_SYSRET ->
   w_queue (hw s') = w_queue (hw s) /\
   sysret_marked s s' event /\
   r = if bool_decide (state (self s) = PSH_UGLY_WORKAROUND) && workaround_over s event
       then None else Some event).
Proof.
  intros H Hexit Hsig Hnone.
  unfold process_stopping_on_event in H.
  apply bind_Ok in H as (task & s0 & Htask & H).
  destruct (ev_proc event) as [task'|] eqn:Hproc; [|discriminate Htask].
  injection Htask as <- <-.
  apply bind_Ok in H as (tp & s0 & Htp & H). apply liftW_Ok in Htp as [Htp Hself0].
  assert (Hw0 : hw s0 = hw s).
  { unfold get_proc in Htp. destruct (pid2proc task' (hw s)); [|discriminate Htp].
    by injection Htp as _ <-. }
  assert (s0 = s) as -> by (destruct s0, s; simpl in *; congruence).
  apply bind_Ok in H as (teb & s0' & Hteb & H). injection Hteb as <- <-.
  apply bind_Ok in H as (st & s0' & Hst & H). injection Hst as <- <-.
  apply bind_Ok in H as ([[ti ev1] etq] & s1 & Hpre & H).
  apply bind_Ok in H as (ev2 & s2 & Hsw & H). cbn [fst snd] in *.
  pose proof (respects_Ok _ _ _ _ _ (queue_psh_switch _ _ _ _ _ _) Hsw) as Hq2.
  unfold psh_frame, keeps in Hq2. injection Hq2 as Hq2 Hp2.
  pose proof (psh_prelude_result _ _ _ _ _ _ _ Hpre) as (Hti & Hev1 & Hetq).
  pose proof (queue_or_return_result _ _ _ _ _ H) as Hres.
  assert (Hnot : event_exit_or_none_p (Some event) = false).
  { unfold event_exit_or_none_p, event_exit_p. by rewrite !bool_decide_eq_false_2. }
  assert (Hexp : expected_sigstop s event = expects_sigstop (pids (self s)) ti event).
  { unfold expected_sigstop. by rewrite Hproc, Hti. }
  destruct (expects_sigstop (pids (self s)) ti event) eqn:Hsunk.
  { (* an expected SIGSTOP *)
    assert (Hty : ev_type event = EVENT_SIGNAL).
    { unfold expects_sigstop in Hsunk. destruct ti as [i|]; [|done].
      destruct (tasks (pids (self s)) !! i); [|done].
      apply andb_true_iff in Hsunk as [Hsunk _].
      apply andb_true_iff in Hsunk as [Hsunk _]. by apply bool_decide_eq_true_1 in Hsunk. }
    subst ev1.
    pose proof (respects_Ok _ _ _ _ _ (queue_psh_prelude task' event) Hpre) as Hq1.
    unfold on_world, keeps in Hq1.
    assert (ev2 = None) as ->.
    { by destruct (psh_switch_result _ _ _ _ _ _ _ _ _ Hsw). }
    destruct Hres as [-> Hres]. split.
    - intros _. split; [done|]. rewrite Hexp. cbn [orb]. congruence.
    - intros Hsys. rewrite Hsys in Hty. discriminate Hty. }
  subst ev1. rewrite Hnot in Hetq. cbn [negb andb] in Hetq.
  destruct (psh_prelude_state _ _ _ _ _ _ _ Hpre Hexit Hsig Hsunk)
    as (Hq1 & Hteb1 & Hrows & Hrows_sys).
  assert (Hdrop :
            ev2 = if (match state (self s) with
                      | PSH_STOPPING | PSH_SINKING => false
                      | PSH_SINGLESTEP => step_completed s event
                      | PSH_UGLY_WORKAROUND =>
                          bool_decide ((if step_completed s event then None
                                        else task_enabling_breakpoint (self s)) = None)
                          && accountable (pids (self s1)) (hw s)
                      end) then None else Some event).
  { unfold psh_switch in Hsw. unfold step_completed. rewrite Hproc.
    destruct (state (self s)).
    - apply bind_Ok in Hsw as (? & s3 & _ & Hsw). by injection Hsw as <- _.
    - by apply case_PSH_SINGLESTEP_result in Hsw.
    - apply bind_Ok in Hsw as (? & s3 & _ & Hsw). by injection Hsw as <- _.
    - apply case_PSH_UGLY_WORKAROUND_result in Hsw. rewrite Hteb1 in Hsw.
      by rewrite (accountable_queue _ _ _ Hq1) in Hsw. }
  split.
  - intros Hsys. rewrite (bool_decide_eq_false_2 _ Hsys) in Hetq. subst etq.
    rewrite Hexp. cbn [orb]. unfold dropped_in_switch, workaround_over.
    rewrite Hproc. rewrite <- (Hrows Hsys).
    destruct (match state (self s) with
              | PSH_STOPPING | PSH_SINKING => false
              | PSH_SINGLESTEP => step_completed s event
              | PSH_UGLY_WORKAROUND => _
              end); subst ev2.
    + destruct Hres as [-> Hres]. split; [done|]. congruence.
    + destruct Hres as [-> Hres]. split; [done|]. congruence.
  - intros Hsys. rewrite (bool_decide_eq_true_2 _ Hsys) in Hetq. subst etq.
    destruct (Hrows_sys Hsys) as (i & row & Hfind & Hpids).
    assert (Hstep : step_completed s event = false).
    { unfold step_completed. rewrite (bool_decide_eq_false_2 (ev_type event = _)).
      - by rewrite andb_false_r.
      - rewrite Hsys. discriminate. }
    rewrite Hstep in Hdrop.
    rewrite Hpids, accountable_set_row_sysret in Hdrop.
    assert (Hr : r = ev2 /\ s' = s2).
    { unfold queue_or_return in H. destruct ev2; by injection H as <- <-. }
    destruct Hr as [-> ->]. split; [congruence|]. split.
    + exists task', i, row, (with_sysret true (with_got_event true row)).
      split; [done|]. split; [done|].
      apply list_find_Some in Hfind as Hf. destruct Hf as (Hi & Hpid & _).
      rewrite Hp2, Hpids. unfold rows_after_event. rewrite Hfind.
      unfold set_row. cbn [tasks with_tasks].
      rewrite !list_lookup_alter_eq, Hi. done.
    + rewrite Hdrop. unfold workaround_over. rewrite Hproc, Hstep.
      by destruct (state (self s)).
Qed.

(** * trace.c: failures while the stopping handler is set up *)

Global Instance alloc_suffix_preorder : PreOrder alloc_suffix.
Proof.
  split.
  - intros w. unfold alloc_suffix. reflexivity.
  - intros w1 w2 w3 H1 H2. unfold alloc_suffix in *. by transitivity (w_alloc w2).
Qed.

Lemma alloc_suffix_allocate : respects alloc_suffix allocate.
Proof.
  intros w. unfold allocate, alloc_suffix. destruct (w_alloc w) as [|b l] eqn:Hl; simpl.
  - by rewrite Hl.
  - by apply suffix_cons_r.
Qed.

Ltac alloc_leaf :=
  lazymatch goal with
  | |- alloc_suffix _ _ => unfold alloc_suffix; simpl; reflexivity
  end.

Ltac frame_alloc :=
  unfold debug, perror, fprintf_stderr, ptrace, emit;
  repeat (first [ apply alloc_suffix_allocate | frame_known | frame_step | alloc_leaf ]).

Lemma alloc_suffix_send_sigstop t ps : respects alloc_suffix (send_sigstop t ps).
Proof.
  unfold send_sigstop, add_task_info, send_sigstop_row, destroy_event_handler,
    update_proc, task_stopped, process_status_of, is_vfork_parent, task_vforked, task_kill.
  frame_alloc.
Qed.

Lemma alloc_suffix_failed w w' w1 :
  alloc_suffix w w' -> allocate w' = Ok false w1 ->
  ~ Forall (fun b => b = true) (w_alloc w).
Proof.
  unfold alloc_suffix, allocate. intros [k Hk] Ha Hall. rewrite Hk in Hall.
  apply Forall_app in Hall as [_ Hall].
  destruct (w_alloc w') as [|b l]; [by injection Ha|].
  injection Ha as -> _. by apply Forall_cons in Hall as [? _].
Qed.

(** A walk of [send_sigstop] that stops early: the task at which it
    stops could not be given a row. *)
Lemma send_sigstop_walk_stops ts : forall ps w t ps' w',
  Forall (fun t => is_Some (pid2proc t w)) ts ->
  each_task_in ts send_sigstop ps w = Ok (Some t, ps') w' ->
  ~ Forall (fun b => b = true) (w_alloc w) /\
  exists l qt ql,
    w_log w' = l ++ [Stderr "send_sigstop: add_task_info" []] /\
    t ∈ ts /\ pid2proc t w = Some qt /\
    pid2proc (proc_leader qt) w' = Some ql /\ proc_event_handler ql = None.
Proof.
  induction ts as [|t0 ts IH]; intros ps w t ps' w' Hall H; [discriminate H|].
  apply Forall_cons in Hall as [[q Hq] Hall]. simpl in H.
  apply bind_Ok in H as ([r ps1] & w1 & Hs & H). cbn [fst snd] in H.
  assert (Hnz : t0 <> 0) by (intros ->; by eapply send_sigstop_zero).
  pose proof (respects_Ok _ _ _ _ _ (alloc_suffix_send_sigstop _ _) Hs) as Hsuf.
  destruct (send_sigstop_outcomes _ _ _ _ _ _ _ Hq Hnz Hs) as (_ & _ & Hstop & Hfail).
  destruct r; [| |done].
  - injection H as <- <- <-.
    destruct Hstop as (_ & _ & [w2 Ha] & _ & Hlog & ql & Hql & Hh); [done|].
    split.
    + apply (alloc_suffix_failed w w w2); [reflexivity|done].
    + exists (w_log w), q, ql. split; [done|]. split; [by left|]. done.
  - destruct (send_sigstop_cont _ _ _ _ _ _ Hq Hnz Hs) as (Hp1 & _).
    apply IH in H as (Hna & l & qt & ql & Hlog & Hin & Hqt & Hql & Hh).
    2:{ eapply Forall_impl; [exact Hall|]. intros x Hx.
        by rewrite (pid2proc_same_procs _ _ _ Hp1). }
    split.
    + intros Hall'. apply Hna. destruct Hsuf as [k Hk]. rewrite Hk in Hall'.
      by apply Forall_app in Hall' as [_ ?].
    + exists l, qt, ql. split; [done|]. split; [by right|].
      rewrite <- (pid2proc_same_procs _ _ _ Hp1). done.
Qed.

Lemma tasks_of_update leader p f w :
  (forall q, proc_pid (f q) = proc_pid q) ->
  (forall q, proc_leader (f q) = proc_leader q) ->
  tasks_of leader
    (set_procs (map (fun q => if bool_decide (proc_pid q = p) then f q else q)) w)
  = tasks_of leader w.
Proof.
  intros Hpid Hlead. unfold tasks_of. simpl.
  induction (w_procs w) as [|q l IH]; [done|]. simpl.
  assert (Hq : proc_leader (if bool_decide (proc_pid q = p) then f q else q)
               = proc_leader q /\
               proc_pid (if bool_decide (proc_pid q = p) then f q else q) = proc_pid q).
  { by destruct (bool_decide _). }
  destruct Hq as [Hl Hp]. rewrite !filter_cons, Hl.
  destruct (decide (proc_leader q = leader)); simpl; by rewrite ?Hp, IH.
Qed.

(** C4 (amended): a SIGSTOP that cannot be sent does not abort the
    episode. When [task_kill] fails, [send_sigstop] logs the warning
    and answers [CBS_CONT], so the walk goes on, and no event handler
    is touched; it stops the walk only when no row can be allocated for
    the task: it then logs that failure, destroys the handler of the
    leader and sends no signal. [process_install_stopping_handler]
    answers 0 or -1, and -1 only when an allocation fails: that of the
    handler itself, and then nothing is installed and no signal sent,
    or that of a row, and then the walk was stopped with the failure
    logged and the handlers of the leader and of the task destroyed.
    While allocations succeed it answers 0, whatever the signals
    did. *)
Theorem stopping_handler_failure_modes :
  (forall (task : Z) (ps : pid_set) (w : world) (q : process)
          (r : callback_status) (ps' : pid_set) (w' : world),
     pid2proc task w = Some q ->
     task <> 0 ->
     send_sigstop task ps w = Ok (r, ps') w' ->
     (kills (w_log w') = kills (w_log w) ++ [(task, SIGSTOP)] ->
      os_kill_fails (w_env w) task = true ->
      r = CBS_CONT /\ handlers w' = handlers w /\
      w_log w' = w_log w ++ [Kill task SIGSTOP;
                             Stderr "Warning: couldn't send SIGSTOP to %d\n" [task]]) /\
     (r = CBS_CONT -> handlers w' = handlers w) /\
     (r = CBS_STOP ->
      list_find (fun t => pid t = task) (tasks ps) = None /\
      length (tasks ps) = alloc ps /\
      (exists w1, allocate w = Ok false w1) /\
      kills (w_log w') = kills (w_log w) /\
      w_log w' = w_log w ++ [Stderr "send_sigstop: add_task_info" []] /\
      exists l, pid2proc (proc_leader q) w' = Some l /\ proc_event_handler l = None) /\
     r <> CBS_FAIL) /\
  (forall (proc : Z) (sbp : option Z) (as_ : option all_stopped_cb)
          (ks uw : option predicate_cb) (w : world) (rc : Z)
          (oh : option process_stopping_handler) (w' : world),
     process_install_stopping_handler proc sbp as_ ks uw w = Ok (rc, oh) w' ->
     (rc = 0 \/ rc = -1) /\
     (Forall (fun b => b = true) (w_alloc w) -> rc = 0) /\
     (rc = -1 ->
      oh = None /\
      ((w_log w' = w_log w ++ [Debug "process_install_stopping_handler: pid=%d" [proc]] /\
        handlers w' = handlers w /\
        exists w1, allocate w = Ok false w1) \/
       (exists l q t qt ql qp,
          w_log w' = l ++ [Stderr "send_sigstop: add_task_info" []] /\
          pid2proc proc w = Some q /\ t ∈ tasks_of (proc_leader q) w /\
          pid2proc t w = Some qt /\
          pid2proc (proc_leader qt) w' = Some ql /\ proc_event_handler ql = None /\
          pid2proc proc w' = Some qp /\ proc_event_handler qp = None)))).
Proof.
  split; [apply send_sigstop_outcomes|].
  intros proc sbp as_ ks uw w rc oh w' H.
  unfold process_install_stopping_handler in H.
  apply bind_Ok in H as ([] & w0 & Hdbg & H).
  unfold debug, emit, modify in Hdbg. injection Hdbg as <-.
  apply bind_Ok in H as (b & w1 & Ha & H).
  pose proof (respects_Ok _ _ _ _ _ alloc_suffix_allocate Ha) as Hs1.
  pose proof (allocate_frame _ _ _ Ha) as (Hp1 & Hl1 & _). simpl in Hp1, Hl1.
  destruct b; cbn [negb] in H.
  2:{ injection H as <- <- <-.
      assert (Hna : ~ Forall (fun b => b = true) (w_alloc w)).
      { eapply (alloc_suffix_failed w _ w1); [|exact Ha]. unfold alloc_suffix. simpl. reflexivity. }
      split; [by right|]. split; [done|]. intros _. split; [done|]. left.
      split; [done|]. split; [unfold handlers; by rewrite Hp1|].
      exists (set_alloc (fun _ => tl (w_alloc w)) w).
      unfold allocate in *. simpl in Ha. destruct (w_alloc w); [done|].
      by injection Ha as -> _. }
  cbv zeta in H.
  apply bind_Ok in H as (q & w2 & Hq & H). unfold get_proc in Hq.
  destruct (pid2proc proc w1) as [q'|] eqn:Hpq; [|done]. injection Hq as <- <-.
  apply bind_Ok in H as ([] & w2 & Hi & H).
  unfold install_event_handler in Hi. apply bind_Ok in Hi as (ql0 & w3 & Hg & Hi).
  unfold get_proc in Hg. destruct (pid2proc (proc_leader q') w1) as [ql0'|] eqn:Hpl; [|done].
  injection Hg as <- <-. unfold update_proc, modify in Hi. injection Hi as <-.
  apply bind_Ok in H as ([o ps1] & w3 & Hwalk & H). cbn [fst snd pids] in *.
  unfold each_task in Hwalk. apply bind_Ok in Hwalk as (ts & w4 & Hts & Hwalk).
  injection Hts as <- <-.
  destruct o as [t|].
  - apply send_sigstop_walk_stops in Hwalk
      as (Hna & l & qt & ql & Hlog & Hin & Hqt & Hql & Hh); [|apply pid2proc_tasks_of].
    apply bind_Ok in H as ([] & w5 & Hd & H). injection H as <- <- <-.
    unfold destroy_event_handler in Hd. apply bind_Ok in Hd as (qp & w6 & Hg & Hd).
    unfold get_proc in Hg. destruct (pid2proc proc w3) as [qp'|] eqn:Hpp; [|done].
    injection Hg as <- <-. unfold update_proc, modify in Hd. injection Hd as <-.
    split; [by right|]. split; [intros Hall; destruct Hna; destruct Hs1 as [k Hk]|].
    { simpl in Hk. rewrite Hk in Hall. by apply Forall_app in Hall as [_ ?]. }
    intros _. split; [done|]. right.
    rewrite pid2proc_update in Hqt by done.
    assert (Hqt0 : exists qt0, pid2proc t w = Some qt0 /\ proc_leader qt0 = proc_leader qt).
    { destruct (pid2proc t w1) as [qt0|] eqn:Hq0; [|discriminate Hqt]. simpl in Hqt.
      exists qt0. split.
      - rewrite <- Hq0. unfold pid2proc. simpl. by rewrite Hp1.
      - injection Hqt as <-. by destruct (bool_decide _). }
    destruct Hqt0 as (qt0 & Hqt0 & Hlead).
    exists l, q', t, qt0,
      (if bool_decide (proc_pid ql = proc) then with_event_handler None ql else ql),
      (with_event_handler None qp').
    split; [done|].
    split; [rewrite <- Hpq; unfold pid2proc; simpl; by rewrite Hp1|].
    split.
    { rewrite tasks_of_update in Hin by done. unfold tasks_of in *.
      by rewrite <- Hp1. }
    split; [done|]. split.
    { rewrite Hlead. rewrite pid2proc_update by done. by rewrite Hql. }
    split; [by destruct (bool_decide _)|]. split; [|done].
    rewrite pid2proc_update by done. rewrite Hpp. simpl.
    by rewrite bool_decide_eq_true_2 by (by eapply pid2proc_pid).
  - apply bind_Ok in H as (r' & w5 & _ & H). injection H as <- <- <-.
    split; [by left|]. split; [done|]. done.
Qed.

(** * trace.c: vfork parents in a stopping episode *)





(** * The theorems at the concrete scenarios *)

Lemma arch_elf_add_plt_entry_classifies_witness :
  (exists sym w',
     arch_elf_add_plt_entry 2001 lte_puts "puts" rela_puts 1
       (world_2001 PPC64PLT_UNRESOLVED 0x401000 0 [] (fun _ => false))
     = Ok (plt_ok, lte_puts, Some [sym]) w' /\
     arch_type sym = PPC64PLT_UNRESOLVED /\ arch_resolved_value sym = 0x401000) /\
  (exists sym w',
     arch_elf_add_plt_entry 2001 lte_puts "puts" rela_puts 1
       (world_2001 PPC64PLT_UNRESOLVED 0x401000 0x7f00abcd [] (fun _ => false))
     = Ok (plt_ok, lte_puts, Some [sym]) w' /\
     arch_type sym = PPC64PLT_RESOLVED /\ arch_resolved_value sym = 0x7f00abcd /\
     w_mem w' !! (2001, 0x600100) = Some 0x401000).
Proof.
  split.
  - destruct (arch_elf_add_plt_entry_classifies 2001 lte_puts "puts" rela_puts 1 0
                (world_2001 PPC64PLT_UNRESOLVED 0x401000 0 [] (fun _ => false)))
      as [H _].
    + vm_compute. discriminate.
    + constructor.
    + vm_compute. discriminate.
    + reflexivity.
    + reflexivity.
    + reflexivity.
    + constructor.
    + destruct H as (sym & w' & H1 & H2 & H3 & _); [right; reflexivity|].
      exists sym, w'. split; [exact H1|]. split; [exact H2|exact H3].
  - destruct (arch_elf_add_plt_entry_classifies 2001 lte_puts "puts" rela_puts 1 0x7f00abcd
                (world_2001 PPC64PLT_UNRESOLVED 0x401000 0x7f00abcd [] (fun _ => false)))
      as [_ H].
    + vm_compute. discriminate.
    + constructor.
    + vm_compute. discriminate.
    + reflexivity.
    + reflexivity.
    + reflexivity.
    + constructor.
    + destruct H as (sym & w' & H1 & H2 & H3 & _ & H5).
      * vm_compute. discriminate.
      * vm_compute. discriminate.
      * reflexivity.
      * exists sym, w'. split; [exact H1|]. split; [exact H2|]. split; [exact H3|exact H5].
Defined.

Lemma keep_stepping_p_resolution_witness :
  exists s',
    stepping_episode [id; id; linker_resolves] s_resolving = Ok CBS_STOP s' /\
    w_mem (hw s') !! (2001, 0x600100) = Some 0x401000 /\
    symbol_being_stepped s' 2001 (sym_puts PPC64PLT_RESOLVED 0x7f00abcd).
Proof.
  destruct (keep_stepping_p_resolution s_resolving 2001
              (sym_puts PPC64PLT_UNRESOLVED 0x401000)) as (_ & _ & H).
  - exists 0x401000,
      (mk_process 2001 2001 None STATE_ATTACHED EM_PPC64
         (Some process_stopping_on_event_fn)
         {[ 0x401000 := bp_puts PPC64PLT_UNRESOLVED 0x401000 ]}),
      (mk_process 2001 2001 None STATE_ATTACHED EM_PPC64
         (Some process_stopping_on_event_fn)
         {[ 0x401000 := bp_puts PPC64PLT_UNRESOLVED 0x401000 ]}),
      (bp_puts PPC64PLT_UNRESOLVED 0x401000).
    repeat split; reflexivity.
  - reflexivity.
  - reflexivity.
  - reflexivity.
  - destruct (H [id; id] linker_resolves [] 0x7f00abcd) as (s' & H1 & H2 & _ & H3).
    + simpl. repeat split; exists 0x401000; split; reflexivity.
    + reflexivity.
    + vm_compute. discriminate.
    + exists s'. split; [exact H1|]. split; [exact H2|exact H3].
Defined.

Lemma continue_process_policy_witness :
  resumes 2001 (w_log (final (continue_process 2001
     (world_2001 PPC64PLT_UNRESOLVED 0x401000 0x401000 [ev_breakpoint_2002]
        (fun _ => false)))))
  = [Ptrace PT_SYSCALL 2001 1 0] /\
  resumes 2002 (w_log (final (continue_process 2002
     (world_2001 PPC64PLT_UNRESOLVED 0x401000 0x401000 [ev_breakpoint_2002]
        (fun _ => false)))))
  = [].
Proof.
  split.
  - destruct (continue_process_policy 2001
                (world_2001 PPC64PLT_UNRESOLVED 0x401000 0x401000 [ev_breakpoint_2002]
                   (fun _ => false))) as (_ & _ & H).
    apply H. vm_compute. reflexivity.
  - destruct (continue_process_policy 2002
                (world_2001 PPC64PLT_UNRESOLVED 0x401000 0x401000 [ev_breakpoint_2002]
                   (fun _ => false))) as (_ & H & _).
    apply H. reflexivity.
Defined.

(** C3, as stated, fails: this syscall-return event is neither
    exit/exit-signal nor none and is no expected SIGSTOP, yet the
    handler does not queue it and returns it, which hands it to default
    processing during the episode. *)
Lemma sysret_is_returned_and_not_queued :
  ev_type ev_sysret_2002 <> EVENT_EXIT /\
  ev_type ev_sysret_2002 <> EVENT_EXIT_SIGNAL /\
  ev_type ev_sysret_2002 <> EVENT_NONE /\
  expected_sigstop s_stopping ev_sysret_2002 = false /\
  exists s',
    process_stopping_on_event ev_sysret_2002 s_stopping = Ok (Some ev_sysret_2002) s' /\
    w_queue (hw s') = [] /\
    state (self s') = PSH_STOPPING /\
    proc_event_handler <$> pid2proc 2001 (hw s') = Some (Some process_stopping_on_event_fn).
Proof.
  split; [discriminate|]. split; [discriminate|]. split; [discriminate|].
  split; [reflexivity|]. eexists. split; [vm_compute; reflexivity|].
  split; [reflexivity|]. split; reflexivity.
Qed.

Lemma process_stopping_on_event_sinks_or_queues_witness :
  (exists s',
     process_stopping_on_event ev_breakpoint_2002 s_stopping = Ok None s' /\
     w_queue (hw s') = [ev_breakpoint_2002]) /\
  sysret_marked s_stopping (final (process_stopping_on_event ev_sysret_2002 s_stopping))
    ev_sysret_2002.
Proof.
  split.
  - eexists. split; [vm_compute; reflexivity|].
    match goal with
    | |- w_queue (hw ?s') = _ =>
        destruct (process_stopping_on_event_sinks_or_queues ev_breakpoint_2002
                    s_stopping s' None) as [H _]
    end.
    + vm_compute. reflexivity.
    + discriminate.
    + discriminate.
    + discriminate.
    + destruct H as [_ H]; [discriminate|]. exact H.
  - destruct (process_stopping_on_event_sinks_or_queues ev_sysret_2002 s_stopping
                (final (process_stopping_on_event ev_sysret_2002 s_stopping))
                (Some ev_sysret_2002)) as [_ H].
    + vm_compute. reflexivity.
    + discriminate.
    + discriminate.
    + discriminate.
    + destruct H as (_ & H & _); [reflexivity|]. exact H.
Defined.

(** C4, as stated, fails: SIGSTOP cannot be sent to 2002, the warning
    is logged, and yet the stopping handler is set up, stays installed
    on the leader and the call answers 0. *)
Lemma failed_sigstop_does_not_abort :
  exists h w',
    process_install_stopping_handler 2001 (Some 0x401000) None None None w_kill_fails
    = Ok (0, Some h) w' /\
    w_log w' = [Debug "process_install_stopping_handler: pid=%d" [2001];
                Kill 2002 SIGSTOP;
                Stderr "Warning: couldn't send SIGSTOP to %d\n" [2002];
                Debug "process_stopping_on_event: pid %d" [2001]] /\
    handlers w' = [(2001, Some process_stopping_on_event_fn); (2002, None)] /\
    state h = PSH_STOPPING.
Proof.
  eexists _, _. split; [vm_compute; reflexivity|].
  split; [reflexivity|]. split; reflexivity.
Qed.

Lemma stopping_handler_failure_modes_witness :
  (exists ps' w',
     send_sigstop 2002 (mk_pid_set [] 0) w_kill_fails = Ok (CBS_CONT, ps') w' /\
     handlers w' = handlers w_kill_fails /\
     w_log w' = [Kill 2002 SIGSTOP; Stderr "Warning: couldn't send SIGSTOP to %d\n" [2002]]) /\
  (exists w',
     process_install_stopping_handler 2001 (Some 0x401000) None None None w_no_rows
     = Ok (-1, None) w' /\
     ~ Forall (fun b => b = true) (w_alloc w_no_rows) /\
     handlers w' = [(2001, None); (2002, None)]).
Proof.
  split.
  - eexists _, _. split; [vm_compute; reflexivity|].
    match goal with
    | |- handlers ?w' = _ /\ _ =>
        destruct (proj1 stopping_handler_failure_modes 2002 (mk_pid_set [] 0) w_kill_fails
                    (mk_process 2002 2001 None STATE_ATTACHED EM_PPC64 None ∅)
                    CBS_CONT
                    (mk_pid_set [mk_pid_task 2002 false false false false false] 4) w')
          as (H & _)
    end.
    + reflexivity.
    + discriminate.
    + vm_compute. reflexivity.
    + destruct H as (_ & H1 & H2); [reflexivity|reflexivity|].
      split; [exact H1|exact H2].
  - eexists. split; [vm_compute; reflexivity|].
    match goal with
    | |- _ /\ handlers ?w' = _ =>
        destruct (proj2 stopping_handler_failure_modes 2001 (Some 0x401000) None None None
                    w_no_rows (-1) None w') as (_ & H & _)
    end.
    + vm_compute. reflexivity.
    + split; [|reflexivity]. intros Hall. specialize (H Hall). discriminate H.
Defined.




(** C8, as stated, fails: with the [exiting] flag set
    [process_stopping_done] calls [continue_process] for no task, and
    yet it continues one: it puts a breakpoint where 2001 stands and
    sets 2001 running with [PT_CONTINUE]. *)
Lemma exiting_episode_continues_the_task :
  exiting (self s_exiting) = true /\
  exists s',
    process_stopping_done 2001 s_exiting = Ok tt s' /\
    state (self s') = PSH_UGLY_WORKAROUND /\
    continued (w_log (hw s')) = [] /\
    w_log (hw s') = [Debug "process stopping done %d" [2001];
                     Call "insert_breakpoint" [2001; 0x401004];
                     Ptrace PT_CONTINUE 2001 1 0] /\
    resumes 2001 (w_log (hw s')) = [Ptrace PT_CONTINUE 2001 1 0].
Proof.
  split; [reflexivity|]. eexists. split; [vm_compute; reflexivity|].
  repeat split; vm_compute; reflexivity.
Qed.

Lemma process_stopping_done_releases_witness :
  (exists s',
     process_stopping_done 2001 s_sinking = Ok tt s' /\
     continued (w_log (hw s')) = [2002; 2001] /\
     (exists q, pid2proc 2001 (hw s') = Some q /\ proc_event_handler q = None) /\
     calls (w_log (hw s')) = calls (w_log (hw s_sinking))) /\
  (exists s',
     process_stopping_done 2001 s_exiting = Ok tt s' /\
     w_log (hw s')
     = w_log (hw s_exiting)
       ++ Debug "process stopping done %d" [2001]
          :: ugly_workaround_records 2001 (hw s_exiting) /\
     breakpoint_at_ip 2001 (hw s_exiting) (hw s')).
Proof.
  split.
  - eexists. split; [vm_compute; reflexivity|].
    match goal with
    | |- continued (w_log (hw ?s')) = _ /\ _ =>
        destruct (process_stopping_done_releases 2001 s_sinking s' CBS_STOP)
          as (teb & Hteb & H & _)
    end.
    + vm_compute. reflexivity.
    + reflexivity.
    + injection Hteb as <-. destruct H as (H1 & _ & H2); [reflexivity|].
      split; [exact H1|]. destruct H2 as (_ & H2 & H3); [discriminate|].
      split; [exact H2|exact H3].
  - eexists. split; [vm_compute; reflexivity|].
    match goal with
    | |- w_log (hw ?s') = _ /\ _ =>
        destruct (process_stopping_done_releases 2001 s_exiting s' CBS_STOP)
          as (teb & Hteb & _ & H)
    end.
    + vm_compute. reflexivity.
    + reflexivity.
    + injection Hteb as <-. destruct H as (H1 & _ & _ & _ & H2); [reflexivity|].
      split; [exact H1|exact H2].
Defined.

Lemma exited_task_is_accounted_witness :
  (exists row',
     tasks (pids (self (final (process_stopping_on_event ev_exit_2002 s_stopping)))) !! 1%nat
     = Some row' /\ pid row' = 0) /\
  all_stops_accountable
    (pids (self (final (process_stopping_on_event ev_exit_2002 s_stopping))))
    (hw (final (process_stopping_on_event ev_exit_2002 s_stopping)))
  = all_stops_accountable
      (with_tasks (delete 1%nat)
         (pids (self (final (process_stopping_on_event ev_exit_2002 s_stopping)))))
      (hw (final (process_stopping_on_event ev_exit_2002 s_stopping))).
Proof.
  destruct (exited_task_is_accounted ev_exit_2002 s_stopping 2002
              (mk_process 2002 2001 None STATE_ATTACHED EM_PPC64 None ∅) 1%nat
              (mk_pid_task 2002 true true true false false)) as (H1 & _ & _ & H2).
  - reflexivity.
  - discriminate.
  - reflexivity.
  - reflexivity.
  - left. reflexivity.
  - split; [exact H1|exact H2].
Defined.

(** * The further theorems at concrete scenarios *)

Lemma arch_elf_init_ppc64_entries_witness :
  exists lte',
    arch_elf_init (elf_of dyn_glink None) lte_puts w_plain = Ok (0, lte') w_plain /\
    arch_plt_stub_vma lte' = wrap64 (0x400fd8 + 32) /\
    arch_stubs lte' = arch_stubs lte_puts /\
    (wrap64 (0x400fd8 + 32) <> 0 ->
     forall (ndx : Z) (rela : GElf_Rela) (s : world),
       arch_plt_sym_val lte' ndx rela s = Ok (wrap64 (0x400fd8 + 32 + 8 * ndx)) s).
Proof.
  apply (arch_elf_init_ppc64_entries (elf_of dyn_glink None) lte_puts dyn_glink 1).
  - reflexivity.
  - reflexivity.
  - reflexivity.
  - vm_compute. discriminate.
  - vm_compute. lia.
  - reflexivity.
  - intros i Hi. assert (i = 0%nat) as -> by lia.
    exists 1, 0. split; [reflexivity|]. vm_compute. discriminate.
Defined.

Lemma arch_elf_init_ppc64_no_glink_witness :
  exists lte',
    arch_elf_init (elf_of dyn_plain (Some syms_puts)) lte_puts w_plain
    = Ok (-1, lte') (logged (Stderr "couldn't find DT_PPC64_GLINK" []) w_plain) /\
    arch_plt_stub_vma lte' = arch_plt_stub_vma lte_puts /\
    arch_stubs lte' = arch_stubs lte_puts.
Proof.
  apply (arch_elf_init_ppc64_no_glink (elf_of dyn_plain (Some syms_puts)) lte_puts dyn_plain).
  - reflexivity.
  - reflexivity.
  - vm_compute. discriminate.
  - intros i Hi. assert (i = 0%nat) as ->.
    { change (Z.to_nat (dyn_sh_size dyn_plain / dyn_sh_entsize dyn_plain)) with 1%nat in Hi.
      lia. }
    exists 1, 0. split; [reflexivity|]. vm_compute. discriminate.
Defined.

Lemma arch_elf_init_stubs_decodes_witness :
  arch_elf_init_stubs [Some ("0000001a.plt_call.puts+0", 0x400900)] 0 [] w_plain
  = arch_elf_init_stubs [] 0
      [mk_library_symbol "puts" (wrap64 (0x400900 + 0)) LS_TOPLT_EXEC PPC64PLT_STUB 0 0]
      (set_alloc (drop 2) w_plain).
Proof.
  apply (arch_elf_init_stubs_decodes "0000001a" "puts" "+0" 0x400900 0 [] [] w_plain).
  - reflexivity.
  - reflexivity.
  - reflexivity.
  - right. left. reflexivity.
  - constructor.
Defined.

Lemma arch_elf_init_stubs_all_or_nothing_witness :
  (exists lte' w',
     arch_elf_init (elf_of dyn_glink (Some syms_puts)) lte_puts w_plain = Ok (0, lte') w' /\
     arch_stubs lte'
     = [mk_library_symbol "puts" (wrap64 (0x400900 + 0)) LS_TOPLT_EXEC PPC64PLT_STUB 0 0]
       ++ arch_stubs lte_puts) /\
  (exists lte' w',
     arch_elf_init (elf_of dyn_glink (Some syms_puts)) lte_puts
       (set_alloc (fun _ => [true; false]) w_plain) = Ok (0, lte') w' /\
     arch_stubs lte' = []).
Proof.
  split.
  - eexists _, _. split; [vm_compute; reflexivity|].
    match goal with
    | |- arch_stubs ?l = _ =>
        destruct (arch_elf_init_stubs_all_or_nothing (elf_of dyn_glink (Some syms_puts))
                    lte_puts l syms_puts w_plain w_plain 0) as [[H _]|(_ & _ & H)]
    end.
    + reflexivity.
    + reflexivity.
    + vm_compute. reflexivity.
    + discriminate H.
    + apply (H [("main", 0x400800); ("0000001a.plt_call.puts+0", 0x400900)]).
      * reflexivity.
      * constructor.
  - eexists _, _. split; [vm_compute; reflexivity|].
    match goal with
    | |- arch_stubs ?l = _ =>
        destruct (arch_elf_init_stubs_all_or_nothing (elf_of dyn_glink (Some syms_puts))
                    lte_puts l syms_puts (set_alloc (fun _ => [true; false]) w_plain)
                    (set_alloc (fun _ => []) w_plain) 0) as [[H _]|(_ & _ & H)]
    end.
    + reflexivity.
    + reflexivity.
    + vm_compute. reflexivity.
    + discriminate H.
    + apply (H [("main", 0x400800); ("0000001a.plt_call.puts+0", 0x400900)]).
      * reflexivity.
      * intros Hall. apply Forall_cons in Hall as [_ Hall].
        apply Forall_cons in Hall as [Hall _]. discriminate Hall.
Defined.

Lemma arch_elf_init_ppc32_secure_layout_witness :
  exists lte',
    arch_elf_init elf_ppc32 lte_ppc32 w_plain
    = Ok (0, lte')
         (logged (Debug "stub_vma is %#lx" [arch_plt_stub_vma lte'])
            (logged (Debug "PPC GOT glink_vma address: %#x" [0x10000800]) w_plain)) /\
    arch_plt_stub_vma lte' = wrap64 (0x10000800 - wrap64 (16 * 2)) /\
    arch_stubs lte' = arch_stubs lte_ppc32 /\
    (arch_plt_stub_vma lte' <> 0 ->
     forall (ndx : Z) (rela : GElf_Rela) (s : world),
       arch_plt_sym_val lte' ndx rela s = Ok (wrap64 (0x10000800 - 16 * (2 - ndx))) s).
Proof.
  apply (arch_elf_init_ppc32_secure_layout elf_ppc32 lte_ppc32 0x10010000 0x10000800 2
           w_plain w_plain).
  - reflexivity.
  - reflexivity.
  - reflexivity.
  - vm_compute. reflexivity.
  - reflexivity.
Defined.

Lemma add_task_info_lookup_witness :
  get_task_info
    (mk_pid_set (tasks rows_2001 ++ [mk_pid_task 2003 false false false false false]) 4)
    2003 w_plain = Ok (Some 2%nat) w_plain /\
  tasks (mk_pid_set (tasks rows_2001 ++ [mk_pid_task 2003 false false false false false]) 4)
    !! 2%nat = Some (mk_pid_task 2003 false false false false false) /\
  forall p', p' <> 2003 ->
    get_task_info
      (mk_pid_set (tasks rows_2001 ++ [mk_pid_task 2003 false false false false false]) 4)
      p' w_plain
    = get_task_info rows_2001 p' w_plain.
Proof.
  apply (add_task_info_lookup rows_2001
           (mk_pid_set (tasks rows_2001 ++ [mk_pid_task 2003 false false false false false]) 4)
           2003 2 w_plain w_plain).
  - lia.
  - reflexivity.
  - reflexivity.
Defined.

Lemma add_task_info_capacity_witness :
  (length (tasks (mk_pid_set [mk_pid_task 2001 false false false false false] 4))
   <= alloc (mk_pid_set [mk_pid_task 2001 false false false false false] 4))%nat /\
  (length (tasks (mk_pid_set [mk_pid_task 2001 false false false false false] 4))
   = S (length (tasks (mk_pid_set [] 0))) /\
   (alloc (mk_pid_set [mk_pid_task 2001 false false false false false] 4)
    = alloc (mk_pid_set [] 0) \/
    length (tasks (mk_pid_set [] 0)) = alloc (mk_pid_set [] 0) /\
    alloc (mk_pid_set [mk_pid_task 2001 false false false false false] 4)
    = (if (alloc (mk_pid_set [] 0) =? 0)%nat then 4 else 2 * alloc (mk_pid_set [] 0))%nat)).
Proof.
  apply (add_task_info_capacity (mk_pid_set [] 0)
           (mk_pid_set [mk_pid_task 2001 false false false false false] 4)
           2001 (Some 0%nat) w_plain w_plain).
  - simpl. lia.
  - reflexivity.
Defined.

Lemma send_sigstop_walk_rows_witness :
  w_procs (final (each_task 2001 send_sigstop (mk_pid_set [] 0) w_plain)) = w_procs w_plain /\
  (exists l, map pid (tasks rows_sent_2002) = map pid (tasks (mk_pid_set [] 0)) ++ l) /\
  Forall (fun t => exists i,
            get_task_info rows_sent_2002 t
              (final (each_task 2001 send_sigstop (mk_pid_set [] 0) w_plain))
            = Ok (Some i) (final (each_task 2001 send_sigstop (mk_pid_set [] 0) w_plain)))
         (tasks_of 2001 w_plain).
Proof.
  apply (send_sigstop_walk_rows 2001 (mk_pid_set [] 0) rows_sent_2002 w_plain).
  vm_compute. reflexivity.
Defined.

Lemma send_sigstop_spares_witness :
  kills (w_log (final (send_sigstop 2002 rows_sent_2002 w_plain))) = kills (w_log w_plain) /\
  forall r ps' w',
    send_sigstop 2002 rows_sent_2002 w_plain = Ok (r, ps') w' ->
    r = CBS_CONT ->
    w_log w' = w_log w_plain /\
    (tasks ps' = tasks rows_sent_2002 \/
     tasks ps' = tasks rows_sent_2002 ++ [mk_pid_task 2002 false false false false false]).
Proof.
  apply (send_sigstop_spares 2002 rows_sent_2002 w_plain
           (mk_process 2002 2001 None STATE_ATTACHED EM_PPC64 None ∅)).
  - reflexivity.
  - lia.
  - right. right. exists 1%nat, (mk_pid_task 2002 true false false false false).
    split; [reflexivity|]. split; reflexivity.
Defined.

Lemma handle_stopping_event_sinks_once_witness :
  exists ps1 w1 w2,
    handle_stopping_event (Some 1%nat) ev_sigstop_2002 rows_sent_2002 w_plain
    = Ok (None, ps1) w1 /\
    tasks ps1
    = <[1%nat := with_delivered true
                   (with_got_event true (mk_pid_task 2002 true false false false false))]>
        (tasks rows_sent_2002) /\
    w_log w1 = w_log w_plain ++ [Debug "SIGSTOP delivered to %d" [2002]] /\
    handle_stopping_event (Some 1%nat) ev_sigstop_2002 ps1 w1
    = Ok (Some ev_sigstop_2002, ps1) w2 /\
    w_log w2 = w_log w1 ++
      [Debug "SIGSTOP delivered to %d" [2002];
       Stderr "suspicious: %d got SIGSTOP, but sigstopped=%d and delivered=%d\n"
         [2002]].
Proof.
  apply (handle_stopping_event_sinks_once 1
           (mk_pid_task 2002 true false false false false) ev_sigstop_2002
           rows_sent_2002 w_plain); reflexivity.
Defined.

Lemma process_stopping_on_event_exit_not_queued_witness :
  w_queue (hw (final (process_stopping_on_event ev_exit_2002 s_stopping)))
  = w_queue (hw s_stopping) /\
  forall r s',
    process_stopping_on_event ev_exit_2002 s_stopping = Ok r s' ->
    state (self s_stopping) <> PSH_UGLY_WORKAROUND ->
    r = Some ev_exit_2002.
Proof.
  apply (process_stopping_on_event_exit_not_queued ev_exit_2002 s_stopping).
  reflexivity.
Defined.

Lemma ltrace_exiting_install_handler_idempotent_witness :
  ltrace_exiting_install_handler 2001 (set_self (with_exiting true) s_stopping)
  = Ok (0, None) (set_self (with_exiting true) s_stopping) /\
  (forall q, pid2proc 2001 (hw s_stopping) = Some q ->
             proc_leader q = 2001 ->
             proc_event_handler q = Some process_stopping_on_event_fn ->
             set_self (with_exiting true) s_stopping
             = set_self (with_exiting true) s_stopping).
Proof.
  apply (ltrace_exiting_install_handler_idempotent 2001 s_stopping
           (set_self (with_exiting true) s_stopping) None).
  reflexivity.
Defined.

Lemma continue_after_syscall_mid_stopping_witness :
  (1 <> 0 ->
   proc_event_handler (mk_process 2002 2001 None STATE_ATTACHED EM_PPC64 None ∅)
   = Some process_stopping_on_event_fn \/
   proc_event_handler
     (mk_process 2001 2001 None STATE_ATTACHED EM_PPC64
        (Some process_stopping_on_event_fn)
        {[ 0x401000 := bp_puts PPC64PLT_UNRESOLVED 0 ]})
   = Some process_stopping_on_event_fn ->
   continue_after_syscall 2002 4 1 w_plain
   = Ok tt (logged (Debug "continue_after_syscall: don't continue %d" [2002]) w_plain)) /\
  (1 = 0 \/
   (proc_event_handler (mk_process 2002 2001 None STATE_ATTACHED EM_PPC64 None ∅)
    <> Some process_stopping_on_event_fn /\
    proc_event_handler
      (mk_process 2001 2001 None STATE_ATTACHED EM_PPC64
         (Some process_stopping_on_event_fn)
         {[ 0x401000 := bp_puts PPC64PLT_UNRESOLVED 0 ]})
    <> Some process_stopping_on_event_fn) ->
   continue_after_syscall 2002 4 1 w_plain = continue_process 2002 w_plain).
Proof.
  apply (continue_after_syscall_mid_stopping 2002 4 1 w_plain); reflexivity.
Defined.

Lemma vfork_window_round_trip_witness :
  exists w1 w2,
    continue_after_vfork 3002 w_before_vfork = Ok (Some 0) w1 /\
    pid2proc 3002 w1
    = Some (with_leader (proc_leader proc_3001)
              (with_event_handler (Some process_vfork_on_event_fn) proc_3002)) /\
    is_vfork_parent 3001 w1 = Ok true w1 /\
    process_vfork_on_event ev_exit_3002 (0x402000, w1)
    = Ok (Some ev_exit_3002) (0x402000, w2) /\
    pid2proc 3002 w2 = Some proc_3002 /\
    (forall t, t <> 3002 -> t <> proc_leader proc_3001 \/ 0x402000 = 0 ->
               pid2proc t w2 = pid2proc t w_before_vfork) /\
    (0x402000 <> 0 ->
     pid2proc (proc_leader proc_3001) w2
     = Some (with_breakpoints
               (insert 0x402000 (reinserted 0x402000 (proc_breakpoints proc_3001 !! 0x402000)))
               proc_3001)) /\
    calls (w_log w2)
    = calls (w_log w_before_vfork)
      ++ (if 0x402000 =? 0 then [] else [Call "insert_breakpoint" [3001; 0x402000]]) /\
    continued (w_log w2) = continued (w_log w_before_vfork) ++ [3001].
Proof.
  apply (vfork_window_round_trip 3002 3001 0x402000 w_before_vfork proc_3002 proc_3001
           proc_3001 ev_exit_3002).
  - reflexivity.
  - reflexivity.
  - reflexivity.
  - reflexivity.
  - lia.
  - reflexivity.
  - reflexivity.
  - simpl. lia.
  - exact I.
  - intros b _ Hb. vm_compute in Hb. discriminate Hb.
  - constructor.
  - reflexivity.
  - reflexivity.
  - left. reflexivity.
Defined.

Lemma process_vfork_on_event_records_first_witness :
  Some (ev_breakpoint_3002 0x401000) = Some (ev_breakpoint_3002 0x401000) /\
  Some (ev_breakpoint_3002 0x401008) = Some (ev_breakpoint_3002 0x401008) /\
  0x401000 = e_un (ev_breakpoint_3002 0x401000) /\
  0x401000 = e_un (ev_breakpoint_3002 0x401000) /\
  w_procs (snd (final (process_vfork_on_event (ev_breakpoint_3002 0x401008)
                         (final (process_vfork_on_event (ev_breakpoint_3002 0x401000)
                                   (0, w_vfork))))))
  = w_procs w_vfork.
Proof.
  apply (process_vfork_on_event_records_first
           (ev_breakpoint_3002 0x401000) (ev_breakpoint_3002 0x401008)
           w_vfork
           (snd (final (process_vfork_on_event (ev_breakpoint_3002 0x401000) (0, w_vfork))))
           (snd (final (process_vfork_on_event (ev_breakpoint_3002 0x401008)
                          (final (process_vfork_on_event (ev_breakpoint_3002 0x401000)
                                    (0, w_vfork))))))
           0x401000 0x401000
           (Some (ev_breakpoint_3002 0x401000)) (Some (ev_breakpoint_3002 0x401008))).
  - reflexivity.
  - reflexivity.
  - simpl. lia.
  - vm_compute. reflexivity.
  - vm_compute. reflexivity.
Defined.

Lemma detach_process_removes_group_witness :
  w_procs (final (detach_process 2001 w_plain))
  = filter (fun q => (proc_pid q ∉ tasks_of 2001 w_plain) /\ proc_pid q <> 2001)
           (w_procs w_plain) /\
  tasks_of 2001 (final (detach_process 2001 w_plain)) = [] /\
  pid2proc 2001 (final (detach_process 2001 w_plain)) = None.
Proof.
  apply (detach_process_removes_group 2001 w_plain).
  vm_compute. reflexivity.
Defined.

Lemma remove_sw_breakpoints_clears_witness :
  sws_bp_addrs (self (final (remove_sw_breakpoints 2001 s_sw_singlestep)))
  = replicate (length (sws_bp_addrs (self s_sw_singlestep))) 0 /\
  with_sws [] (self (final (remove_sw_breakpoints 2001 s_sw_singlestep)))
  = with_sws [] (self s_sw_singlestep) /\
  w_log (hw (final (remove_sw_breakpoints 2001 s_sw_singlestep)))
  = w_log (hw s_sw_singlestep)
    ++ map (fun a => Call "delete_breakpoint" [2001; a])
         (filter (fun a => a <> 0) (sws_bp_addrs (self s_sw_singlestep))) /\
  exists q l,
    pid2proc 2001 (hw s_sw_singlestep) = Some q /\
    pid2proc (proc_leader q) (hw s_sw_singlestep) = Some l /\
    proc_event_handler l = Some process_stopping_on_event_fn.
Proof.
  apply (remove_sw_breakpoints_clears 2001 s_sw_singlestep).
  vm_compute. reflexivity.
Defined.

Lemma ltrace_exiting_on_event_sinks_witness :
  w_queue (snd (final (ltrace_exiting_on_event ev_sysret_2002 (rows_sent_2002, w_plain))))
  = w_queue w_plain /\
  (@None Event = None \/
   None = Some ev_sysret_2002 /\ event_exit_or_none_p (Some ev_sysret_2002) = true).
Proof.
  split.
  - apply (ltrace_exiting_on_event_sinks ev_sysret_2002 (rows_sent_2002, w_plain)).
  - apply (proj2 (ltrace_exiting_on_event_sinks ev_sysret_2002 (rows_sent_2002, w_plain))
             None
             (final (ltrace_exiting_on_event ev_sysret_2002 (rows_sent_2002, w_plain)))).
    vm_compute. reflexivity.
Defined.

Lemma detach_process_untraces_witness :
  detaches (w_log (final (detach_process 2001 w_plain))) = detaches (w_log w_plain) /\
  detaches (w_log (final (detach_process 2001 w_attached)))
  = detaches (w_log w_attached) ++ tasks_of 2001 w_attached.
Proof.
  split.
  - apply (proj1 (detach_process_untraces 2001 w_plain)). reflexivity.
  - apply (proj2 (detach_process_untraces 2001 w_attached)).
    + reflexivity.
    + vm_compute. reflexivity.
Defined.

Lemma sw_singlestep_add_bp_slots_witness :
  sw_singlestep_add_bp 0x401008 s_sw_full = Halt Abort s_sw_full /\
  (0 = 0 /\
   exists i,
     sws_bp_addrs (self s_sw_singlestep) !! i = Some 0 /\
     (forall j a, (j < i)%nat -> sws_bp_addrs (self s_sw_singlestep) !! j = Some a -> a <> 0) /\
     sws_bp_addrs (self (final (sw_singlestep_add_bp 0x401008 s_sw_singlestep)))
     = <[i := 0x401008]> (sws_bp_addrs (self s_sw_singlestep))).
Proof.
  split.
  - apply (proj1 (sw_singlestep_add_bp_slots 0x401008 s_sw_full)).
    repeat constructor; simpl; lia.
  - apply (proj2 (sw_singlestep_add_bp_slots 0x401008 s_sw_singlestep) 0
             (final (sw_singlestep_add_bp 0x401008 s_sw_singlestep))).
    vm_compute. reflexivity.
Defined.
